(** * Markdown/Docs synchronisation scripts: a shallow embedding

    The development follows the scripts of the repository:
    - [MdToDocs]: the Markdown to Docs converter (scripts/mdToDocs.js);
    - [Js], [Mapping] and [FlatMapping]: the JSON store of note bindings
      (lib/mapping.js, with and without name spaces);
    - [Docs]: the shape of the documents the Docs API returns, and the calls
      of the remote service;
    - [PullPush]: the pull, compare, push scripts (scripts/pullPush.js and
      scripts/pullPushByNote.js);
    - [Poller]: the Drive changes poller (scripts/changesPoller.js).
    The definitions come first; the facts about them follow, module by module.

    JavaScript strings are sequences of UTF-16 code units; they are modelled
    as lists of code units so that [length] is the [.length] of the source. *)

From Stdlib Require Import ZArith NArith List String Ascii Bool Lia DecimalString.
From stdpp Require Import base option list gmap.
Import ListNotations.

(** ** Strings *)

Definition jstr := list N.

(** A string literal of the source, ASCII only. *)
Definition u (s : string) : jstr := map N_of_ascii (list_ascii_of_string s).

Definition nl : jstr := [10%N].

Definition jstr_eqb (a b : jstr) : bool := bool_decide (a = b).

(** The [\s] class of a JavaScript regular expression, which is also what
    [String.prototype.trim] removes: WhiteSpace and LineTerminator. *)
Definition is_space (c : N) : bool :=
  ((9 <=? c) && (c <=? 13) || (c =? 32) || (c =? 160) || (c =? 5760)
   || (8192 <=? c) && (c <=? 8202) || (c =? 8232) || (c =? 8233)
   || (c =? 8239) || (c =? 8287) || (c =? 12288) || (c =? 65279))%N.

(** [s.split('\n')]: always at least one piece. *)
Fixpoint split_nl (s : jstr) : list jstr :=
  match s with
  | [] => [[]]
  | c :: s' =>
      if (c =? 10)%N then [] :: split_nl s'
      else match split_nl s' with
           | [] => [[c]]
           | l :: ls => (c :: l) :: ls
           end
  end.

(** [s.replace(/\r\n/g, '\n')], then [.replace(/\r/g, '\n')] on what is left. *)
Fixpoint replace_crlf (s : jstr) : jstr :=
  match s with
  | [] => []
  | c :: s' =>
      if (c =? 13)%N then
        match s' with
        | d :: s'' => if (d =? 10)%N then 10%N :: replace_crlf s''
                      else c :: replace_crlf s'
        | [] => [c]
        end
      else c :: replace_crlf s'
  end.

Definition replace_cr (s : jstr) : jstr :=
  map (fun c => if (c =? 13)%N then 10%N else c) s.

(** [a || d] on a possibly missing string: a missing or empty string is falsy. *)
Definition or_else (a : option jstr) (d : jstr) : jstr :=
  match a with
  | Some (c :: s) => c :: s
  | _ => d
  end.

(** * The Markdown to Docs converter *)

Module MdToDocs.

(** The user-editable configuration [config/md-mapping.json]; the file is not
    part of the sources, so its content is a parameter of the converter. *)
Record Headings := mkHeadings {
  h1 : option jstr;
  h2 : option jstr;
  h3 : option jstr;
  h_default : option jstr
}.

Record Config := mkConfig {
  headings : option Headings;
  useTitle : bool;                 (* mapping?.title?.useTitle *)
  subtitle_mode : option jstr      (* mapping?.subtitle?.mode *)
}.

(** The mapping the script falls back to when the file cannot be read. *)
Definition fallback_config : Config :=
  {| headings := Some {| h1 := Some (u "HEADING_1"); h2 := Some (u "HEADING_2");
                         h3 := Some (u "HEADING_3");
                         h_default := Some (u "NORMAL_TEXT") |};
     useTitle := false; subtitle_mode := None |}.

Record ParaRange := mkPara { p_start : Z; p_end : Z; p_style : jstr }.
Record TextRange := mkText { t_start : Z; t_end : Z; t_bold : bool; t_italic : bool }.

Definition hash : N := 35.
Definition star : N := 42.
Definition underscore : N := 95.
Definition backtick : N := 96.

(** [/^#\s+/], [/^##\s+/] and [/^###\s+/]: [n] hashes, then a space. *)
Fixpoint test_hashes (n : nat) (line : jstr) : bool :=
  match n, line with
  | O, c :: _ => is_space c
  | S n', c :: line' => (c =? hash)%N && test_hashes n' line'
  | _, [] => false
  end.

Definition paragraphStyleFor (cfg : Config) (line : jstr) : jstr :=
  let h := match headings cfg with
           | Some h => h
           | None => mkHeadings None None None None
           end in
  if test_hashes 1 line then or_else (h1 h) (u "HEADING_1")
  else if test_hashes 2 line then or_else (h2 h) (u "HEADING_2")
  else if test_hashes 3 line then or_else (h3 h) (u "HEADING_3")
  else or_else (h_default h) (u "NORMAL_TEXT").

(** The longest prefix of characters satisfying [p], and the rest. *)
Fixpoint span (p : N -> bool) (s : jstr) : jstr * jstr :=
  match s with
  | [] => ([], [])
  | c :: s' =>
      if p c then let '(a, b) := span p s' in (c :: a, b) else ([], s)
  end.

(** [line.replace(/^#{1,6}\s+/, '')]: [#] is not a space, so the only way to
    match is with all the leading hashes, one to six of them, followed by at
    least one space; the match then takes every following space. *)
Definition stripHeadingMarkers (line : jstr) : jstr :=
  let '(hs, rest) := span (fun c => (c =? hash)%N) line in
  let '(sp, rest') := span is_space rest in
  if (1 <=? length hs) && (length hs <=? 6) && (1 <=? length sp) then rest'
  else line.

(** [[a-zA-Z0-9_-]] *)
Definition is_lang_char (c : N) : bool :=
  ((97 <=? c) && (c <=? 122) || (65 <=? c) && (c <=? 90)
   || (48 <=? c) && (c <=? 57) || (c =? 95) || (c =? 45))%N.

(** [original.match(/^```\s*([a-zA-Z0-9_-]+)?\s*$/)]: [None] when the line is
    not a fence, otherwise the language tag [m[1] || '']. The classes [\s] and
    [[a-zA-Z0-9_-]] are disjoint, so the greedy split is the only one. *)
Definition fenceMatch (original : jstr) : option jstr :=
  match original with
  | c1 :: c2 :: c3 :: rest =>
      if (c1 =? backtick)%N && (c2 =? backtick)%N && (c3 =? backtick)%N then
        let '(_, r1) := span is_space rest in
        let '(lang, r2) := span is_lang_char r1 in
        let '(_, r3) := span is_space r2 in
        match r3 with
        | [] => Some lang
        | _ => None
        end
      else None
  | _ => None
  end.

(** The three inline expressions [/\*\*([^*]+)\*\*/g], [/\*([^*]+)\*/g] and
    [/_([^_]+)_/g] all have the shape: [w] copies of a character [c], one or
    more characters other than [c], [w] copies of [c]. *)
Record Marker := mkMarker { m_char : N; m_width : nat }.

Definition bold_re : Marker := mkMarker star 2.
Definition italic_re : Marker := mkMarker star 1.
Definition underscore_re : Marker := mkMarker underscore 1.

(** [s] starts with [w] copies of [c]: the rest after them. *)
Fixpoint eat (c : N) (w : nat) (s : jstr) : option jstr :=
  match w, s with
  | O, _ => Some s
  | S w', d :: s' => if (d =? c)%N then eat c w' s' else None
  | S _, [] => None
  end.

(** A match anchored at the start of [s]: the captured group. The group is
    greedy and a shorter group is followed by a character other than [c], so
    only the longest group can be followed by the closing marker. *)
Definition match_here (m : Marker) (s : jstr) : option jstr :=
  match eat (m_char m) (m_width m) s with
  | None => None
  | Some s1 =>
      let '(inner, s2) := span (fun d => negb (d =? m_char m)%N) s1 in
      match inner, eat (m_char m) (m_width m) s2 with
      | _ :: _, Some _ => Some inner
      | _, _ => None
      end
  end.

(** The leftmost match in [s], whose first character has index [i]. *)
Fixpoint search (m : Marker) (s : jstr) (i : nat) : option (nat * jstr) :=
  match match_here m s with
  | Some inner => Some (i, inner)
  | None =>
      match s with
      | [] => None
      | _ :: s' => search m s' (S i)
      end
  end.

(** [re.exec(line)] for a global expression whose [lastIndex] is [lastIndex]:
    the index of the match and the captured group. *)
Definition exec (m : Marker) (line : jstr) (lastIndex : nat) : option (nat * jstr) :=
  if length line <? lastIndex then None
  else search m (drop lastIndex line) lastIndex.

(** The loop of [applyInline]; [updater] receives absolute offsets. The source
    subtracts [offset] from [m.index], which is an index in the line as already
    rewritten. [None] when [fuel] iterations were not enough. *)
Fixpoint applyInline_loop (fuel : nat) (m : Marker) (updater : Z -> Z -> TextRange)
    (cursor : Z) (line : jstr) (offset lastIndex : nat) (ranges : list TextRange)
    : option (jstr * list TextRange) :=
  match exec m line lastIndex with
  | None => Some (line, ranges)
  | Some (index, inner) =>
      match fuel with
      | O => None
      | S fuel' =>
          let full_length := (m_width m + length inner + m_width m)%nat in
          let startInLine := (Z.of_nat index - Z.of_nat offset)%Z in
          let endInLine := (startInLine + Z.of_nat (length inner))%Z in
          let ranges' := ranges ++ [updater (cursor + startInLine) (cursor + endInLine)]%Z in
          let line' := take index line ++ inner ++ drop (index + full_length) line in
          let offset' := (offset + (full_length - length inner))%nat in
          applyInline_loop fuel' m updater cursor line' offset' (index + length inner) ranges'
      end
  end.

Definition applyInline (m : Marker) (updater : Z -> Z -> TextRange)
    (cursor : Z) (line : jstr) (ranges : list TextRange) : option (jstr * list TextRange) :=
  applyInline_loop (length line) m updater cursor line 0 0 ranges.

Definition push_bold (s e : Z) : TextRange := mkText s e true false.
Definition push_italic (s e : Z) : TextRange := mkText s e false true.

(** The variables of the main loop. *)
Record State := mkState {
  plain : jstr;
  paraRanges : list ParaRange;
  textRanges : list TextRange;
  cursor : Z;
  inFence : bool;
  fenceLang : jstr
}.

Definition init : State := mkState [] [] [] 0 false [].

(** One iteration of [for (let i = 0; i < lines.length; i++)]. *)
Definition step (cfg : Config) (st : State) (original : jstr) : option State :=
  match fenceMatch original with
  | Some lang =>
      let inFence' := negb (inFence st) in
      Some (mkState (plain st) (paraRanges st) (textRanges st) (cursor st)
              inFence' (if inFence' then lang else []))
  | None =>
      let namedStyleType :=
        if inFence st then u "CODEBLOCK" else paragraphStyleFor cfg original in
      let line := if inFence st then original else stripHeadingMarkers original in
      '(line, tr) ← applyInline bold_re push_bold (cursor st) line (textRanges st);
      '(line, tr) ← applyInline italic_re push_italic (cursor st) line tr;
      '(line, tr) ← applyInline underscore_re push_italic (cursor st) line tr;
      let start := cursor st in
      let end_ := (start + Z.of_nat (length line))%Z in
      Some (mkState (plain st ++ line ++ nl)
              (paraRanges st ++ [mkPara start end_ namedStyleType])
              tr (end_ + 1)%Z (inFence st) (fenceLang st))
  end.

Fixpoint loop (cfg : Config) (st : State) (lines : list jstr) : option State :=
  match lines with
  | [] => Some st
  | original :: rest => st' ← step cfg st original; loop cfg st' rest
  end.

Definition set_style (style : jstr) (r : ParaRange) : ParaRange :=
  mkPara (p_start r) (p_end r) style.

(** [paraRanges[0].style = 'TITLE'] when configured. *)
Definition promoteTitle (cfg : Config) (ps : list ParaRange) : list ParaRange :=
  match ps with
  | r :: rest => if useTitle cfg then set_style (u "TITLE") r :: rest else ps
  | [] => ps
  end.

(** The second paragraph becomes the subtitle when an italic range covers it. *)
Definition promoteSubtitle (cfg : Config) (ts : list TextRange) (ps : list ParaRange)
    : list ParaRange :=
  match subtitle_mode cfg, ps with
  | Some mode, r0 :: second :: rest =>
      if jstr_eqb mode (u "italic") then
        let fullItalic :=
          existsb (fun r => t_italic r && (t_start r <=? p_start second)%Z
                            && (p_end second <=? t_end r)%Z) ts in
        if fullItalic then r0 :: set_style (u "SUBTITLE") second :: rest else ps
      else ps
  | _, _ => ps
  end.

Record Output := mkOutput {
  o_plain : jstr;
  o_paraRanges : list ParaRange;
  o_textRanges : list TextRange
}.

(** The text inserted in the document and the ranges the style requests are
    built from. *)
Definition mdToDocs (cfg : Config) (md : jstr) : option Output :=
  let lines := split_nl (replace_cr (replace_crlf md)) in
  st ← loop cfg init lines;
  let ps := promoteSubtitle cfg (textRanges st) (promoteTitle cfg (paraRanges st)) in
  Some (mkOutput (plain st) ps (textRanges st)).

End MdToDocs.


(** ** The block and run reading of the converter's output

    The converter keeps no block structure of its own: it produces the flat
    buffer and the two lists of ranges. The specification describes the same
    data as blocks owning runs; [blocks_of] reads the blocks off the output,
    one per paragraph range, a run being a maximal stretch of characters that
    the same text-style ranges cover. It serves to compare outputs with the
    scenarios of the specification only. *)

Module IR.
Import MdToDocs.

Record Run := mkRun { r_text : jstr; r_bold : bool; r_italic : bool }.
Record Block := mkBlock { b_style : jstr; b_runs : list Run }.

Definition covered (sel : TextRange -> bool) (ts : list TextRange) (i : Z) : bool :=
  existsb (fun r => sel r && (t_start r <=? i)%Z && (i <? t_end r)%Z) ts.

Fixpoint runs_of (cs : list (N * (bool * bool))) : list Run :=
  match cs with
  | [] => []
  | (c, (b, i)) :: rest =>
      match runs_of rest with
      | r :: rs =>
          if Bool.eqb b (r_bold r) && Bool.eqb i (r_italic r)
          then mkRun (c :: r_text r) b i :: rs
          else mkRun [c] b i :: r :: rs
      | [] => [mkRun [c] b i]
      end
  end.

Definition block_of (o : Output) (p : ParaRange) : Block :=
  let s := Z.to_nat (p_start p) in
  let chars := take (Z.to_nat (p_end p) - s) (drop s (o_plain o)) in
  let styled k c :=
    (c, (covered t_bold (o_textRanges o) (p_start p + Z.of_nat k),
         covered t_italic (o_textRanges o) (p_start p + Z.of_nat k))) in
  mkBlock (p_style p) (runs_of (imap styled chars)).

Definition blocks_of (o : Output) : list Block := map (block_of o) (o_paraRanges o).

End IR.

(** * JavaScript values, as far as the scripts use them *)

Module Js.

(** What the remote services answer when they refuse a call. *)
Inductive api_reason :=
  | StaleRevision      (* the write guard does not match the document's revision *)
  | NotFound
  | Unavailable.       (* network failure, quota, server error *)

Inductive error :=
  | TypeError
  | SyntaxError
  | SystemError        (* fs: the file is absent or cannot be read *)
  | ApiError (r : api_reason).

Inductive result (A : Type) :=
  | Ok (a : A)
  | Throw (e : error).
Arguments Ok {A} a.
Arguments Throw {A} e.

#[export] Instance result_ret : MRet result := fun A a => Ok a.
#[export] Instance result_bind : MBind result := fun A B f r =>
  match r with
  | Ok a => f a
  | Throw e => Throw e
  end.

(** The values [JSON.parse] builds, arrays left out and numbers being
    integers: the store holds objects, strings and booleans. An object is the
    list of its own properties in property order, no two of the same name.
    [VBuiltin k] is what a read of the property [k] finds through the prototype
    chain: a built-in function such as [Object.prototype.toString], or a
    prototype object under [__proto__]. [JSON.parse] builds no such value and
    no operation of the store puts one in the data it saves. [undefined] is
    the [None] of an [option value]. *)
#[warnings="-register-all"]
Inductive value :=
  | VNull
  | VBool (b : bool)
  | VNum (z : Z)
  | VStr (s : jstr)
  | VObj (props : list (jstr * value))
  | VBuiltin (name : jstr).

Definition obj := list (jstr * value).

Definition truthy (v : value) : bool :=
  match v with
  | VNull => false
  | VBool b => b
  | VNum z => negb (z =? 0)%Z
  | VStr s => match s with [] => false | _ => true end
  | VObj _ => true
  | VBuiltin _ => true
  end.

Definition truthy_opt (v : option value) : bool :=
  match v with
  | Some v => truthy v
  | None => false
  end.

Definition digit (c : N) : option N :=
  if ((48 <=? c) && (c <=? 57))%N then Some (c - 48)%N else None.

Fixpoint digits_value (acc : N) (s : jstr) : option N :=
  match s with
  | [] => Some acc
  | c :: s' => d ← digit c; digits_value (acc * 10 + d)%N s'
  end.

(** The keys that are array indices: canonical decimal numerals below 2^32 - 1.
    An object lists them first, in ascending order. *)
Definition array_index (k : jstr) : option N :=
  match k with
  | [] => None
  | c :: rest =>
      if (c =? 48)%N then match rest with [] => Some 0%N | _ => None end
      else n ← digits_value 0 k; if (n <? 4294967295)%N then Some n else None
  end.

Definition index_key (i : nat) : jstr :=
  u (DecimalString.NilZero.string_of_uint (Nat.to_uint i)).

Definition key_eqb (a b : jstr) : bool := bool_decide (a = b).

Definition obj_get (o : obj) (k : jstr) : option value :=
  snd <$> List.find (fun p => key_eqb (fst p) k) o.

Fixpoint obj_replace (k : jstr) (v : value) (o : obj) : obj :=
  match o with
  | [] => []
  | (k', v') :: rest =>
      if key_eqb k' k then (k, v) :: rest else (k', v') :: obj_replace k v rest
  end.

Fixpoint obj_insert_index (n : N) (k : jstr) (v : value) (o : obj) : obj :=
  match o with
  | [] => [(k, v)]
  | (k', v') :: rest =>
      match array_index k' with
      | Some n' =>
          if (n' <? n)%N then (k', v') :: obj_insert_index n k v rest else (k, v) :: o
      | None => (k, v) :: o
      end
  end.

(** [o[k] = v]: an existing property keeps its place, a new one goes after the
    others, or among the array indices when [k] is one. *)
Definition obj_set (k : jstr) (v : value) (o : obj) : obj :=
  match obj_get o k with
  | Some _ => obj_replace k v o
  | None =>
      match array_index k with
      | Some n => obj_insert_index n k v o
      | None => o ++ [(k, v)]
      end
  end.

(** The names of the members of [Object.prototype], which every value but
    [null] inherits, and of the prototypes of strings, numbers and booleans
    (ECMAScript 2024). *)
Definition object_prototype : list jstr :=
  map u ["constructor"; "__defineGetter__"; "__defineSetter__"; "hasOwnProperty";
         "__lookupGetter__"; "__lookupSetter__"; "isPrototypeOf";
         "propertyIsEnumerable"; "toString"; "valueOf"; "__proto__";
         "toLocaleString"]%string.

Definition string_prototype : list jstr :=
  map u ["anchor"; "at"; "big"; "blink"; "bold"; "charAt"; "charCodeAt";
         "codePointAt"; "concat"; "endsWith"; "fontcolor"; "fontsize"; "fixed";
         "includes"; "indexOf"; "isWellFormed"; "italics"; "lastIndexOf"; "link";
         "localeCompare"; "match"; "matchAll"; "normalize"; "padEnd"; "padStart";
         "repeat"; "replace"; "replaceAll"; "search"; "slice"; "small"; "split";
         "strike"; "sub"; "substr"; "substring"; "sup"; "startsWith";
         "toWellFormed"; "trim"; "trimStart"; "trimLeft"; "trimEnd"; "trimRight";
         "toLocaleLowerCase"; "toLocaleUpperCase"; "toLowerCase";
         "toUpperCase"]%string.

Definition number_prototype : list jstr :=
  map u ["toExponential"; "toFixed"; "toPrecision"]%string.

Definition has_name (names : list jstr) (k : jstr) : bool :=
  existsb (fun n => key_eqb n k) names.

(** [k] names a member of [Object.prototype]. *)
Definition in_object_prototype (k : jstr) : bool := has_name object_prototype k.

(** What [v[k]] finds through the prototype chain of [v] when [v] has no own
    property [k]. The prototype of booleans adds no name to those of
    [Object.prototype]. *)
Definition inherited (v : value) (k : jstr) : option value :=
  let chain := match v with
               | VStr _ => string_prototype
               | VNum _ => number_prototype
               | _ => []
               end in
  if has_name (chain ++ object_prototype) k then Some (VBuiltin k) else None.

(** [o[k]] on an object with the own properties [o]: an own property, or
    else an inherited one. *)
Definition member (o : obj) (k : jstr) : option value :=
  match obj_get o k with
  | Some x => Some x
  | None => inherited (VObj o) k
  end.

(** [v[k]] and [v.k]. The own members of the built-ins ([name], [length],
    ...) are left out: the scripts read [fileId] and [tabId] from what they
    have found, which no built-in has. *)
Definition get_prop (v : value) (k : jstr) : result (option value) :=
  match v with
  | VNull => Throw TypeError
  | VBool _ | VNum _ | VBuiltin _ => Ok (inherited v k)
  | VStr s =>
      if key_eqb k (u "length") then Ok (Some (VNum (Z.of_nat (length s))))
      else match array_index k with
           | Some i => Ok ((fun c => VStr [c]) <$> s !! N.to_nat i)
           | None => Ok (inherited v k)
           end
  | VObj o => Ok (member o k)
  end.

(** [v?.k] and [v[k]] on a value that may be [undefined]. *)
Definition get_prop_opt (v : option value) (k : jstr) : result (option value) :=
  match v with
  | Some v => get_prop v k
  | None => Throw TypeError
  end.

Definition k_proto : jstr := u "__proto__".

(** [o[k] = x] on an object with the own properties [o]: the own properties
    afterwards. Without an own property [__proto__], the assignment to
    [__proto__] runs the inherited setter: the prototype is replaced ([x]
    being an object or [null]) and no own property is made. The scripts do
    not read another property of the object before they save it, and
    [JSON.stringify] writes own properties only. *)
Definition assigned (k : jstr) (x : value) (o : obj) : obj :=
  match obj_get o k with
  | None => if key_eqb k k_proto then o else obj_set k x o
  | Some _ => obj_set k x o
  end.

(** [v[k] = x] in strict mode (the scripts are modules): the value of [v]
    afterwards. A property set on a built-in is not a property of the data. *)
Definition set_prop (v : value) (k : jstr) (x : value) : result value :=
  match v with
  | VObj o => Ok (VObj (assigned k x o))
  | VBuiltin n => Ok (VBuiltin n)
  | _ => Throw TypeError
  end.

(** The own enumerable properties that a spread copies. *)
Definition own_entries (v : option value) : obj :=
  match v with
  | Some (VObj o) => o
  | Some (VStr s) => imap (fun i c => (index_key i, VStr [c])) s
  | _ => []
  end.

(** [Object.entries(v)] *)
Definition Object_entries (v : option value) : result obj :=
  match v with
  | None | Some VNull => Throw TypeError
  | _ => Ok (own_entries v)
  end.

(** [{ ...a, ...b }] *)
Definition spread2 (a b : option value) : obj :=
  fold_left (fun acc p => obj_set (fst p) (snd p) acc) (own_entries a ++ own_entries b) [].

(** [a === b] for a value read from an object and a string or [undefined]. *)
Definition strict_eq_str (a : option value) (b : option jstr) : bool :=
  match a, b with
  | Some (VStr s), Some t => jstr_eqb s t
  | None, None => true
  | _, _ => false
  end.

(** A file, seen through [fs.readFileSync] and [JSON.parse]. The text that
    [JSON.stringify] writes for a value that holds no built-in parses back to
    that value. *)
Inductive raw :=
  | Garbled            (* not a JSON text *)
  | Json (v : value).

Inductive file :=
  | Missing
  | Unreadable
  | Content (r : raw).

Definition readFileSync (f : file) : result raw :=
  match f with
  | Content r => Ok r
  | _ => Throw SystemError
  end.

Definition JSON_parse (r : raw) : result value :=
  match r with
  | Json v => Ok v
  | Garbled => Throw SyntaxError
  end.


(** [fs.writeFileSync(path, JSON.stringify(data, null, 2))] *)
Definition write_json (data : value) : file := Content (Json data).

End Js.

(** * The binding store (lib/mapping.js) *)

Module Mapping.
Import Js.

Definition k_notes : jstr := u "notes".
Definition k_notebooks : jstr := u "notebooks".
Definition k_accessLost : jstr := u "accessLost".
Definition k_fileId : jstr := u "fileId".

Definition empty_store : value := VObj [(k_notes, VObj []); (k_notebooks, VObj [])].

(** The body of the [try] of [loadMapping]. *)
Definition loadMapping_try (f : file) : result value :=
  raw ← readFileSync f;
  data ← JSON_parse raw;
  notes ← get_prop data k_notes;
  notebooks ← get_prop data k_notebooks;
  (* Back-compat: promote flat map to namespaced structure *)
  if negb (truthy_opt notes) && negb (truthy_opt notebooks)
  then Ok (VObj [(k_notes, data); (k_notebooks, VObj [])])
  else
    data ← (if negb (truthy_opt notes) then set_prop data k_notes (VObj []) else Ok data);
    notebooks ← get_prop data k_notebooks;
    data ← (if negb (truthy_opt notebooks) then set_prop data k_notebooks (VObj [])
            else Ok data);
    Ok data.

Definition loadMapping (f : file) : value :=
  match loadMapping_try f with
  | Ok data => data
  | Throw _ => empty_store
  end.

(** The store operations return their result and, when they call
    [saveMapping], the data they save. *)
Definition saved := option value.

Definition commit (f : file) (s : saved) : file :=
  match s with
  | Some data => write_json data
  | None => f
  end.

(** [map.notes[noteId] = rec] *)
Definition set_note (map : value) (noteId : jstr) (rec : value) : result value :=
  notes ← get_prop map k_notes;
  match notes with
  | Some notes => notes' ← set_prop notes noteId rec; set_prop map k_notes notes'
  | None => Throw TypeError
  end.

(** [map.notes[noteId]] *)
Definition get_note (map : value) (noteId : jstr) : result (option value) :=
  notes ← get_prop map k_notes;
  get_prop_opt notes noteId.

Definition bindNote (noteId : jstr) (binding : value) (f : file) : result (value * saved) :=
  let map := loadMapping f in
  old ← get_note map noteId;
  let rec := VObj (spread2 old (Some binding)) in
  map ← set_note map noteId rec;
  Ok (rec, Some map).

Definition getBinding (noteId : jstr) (f : file) : result value :=
  let map := loadMapping f in
  rec ← get_note map noteId;
  Ok (match rec with
      | Some r => if truthy r then r else VNull
      | None => VNull
      end).

Definition updateSyncCheckpoint (noteId : jstr) (checkpoint : value) (f : file)
    : result (value * saved) :=
  let map := loadMapping f in
  old ← get_note map noteId;
  if negb (truthy_opt old) then Ok (VNull, None)
  else
    let rec := VObj (spread2 old (Some checkpoint)) in
    map ← set_note map noteId rec;
    Ok (rec, Some map).

(** [map.notes[noteId].accessLost = true] changes the record in place: the
    store holds the changed record, unless what was found is a built-in. *)
Definition markAccessLost (noteId : jstr) (f : file) : result (value * saved) :=
  let map := loadMapping f in
  old ← get_note map noteId;
  match old with
  | Some r =>
      if negb (truthy r) then Ok (VNull, None)
      else
        rec ← set_prop r k_accessLost (VBool true);
        map ← (match rec with
               | VBuiltin _ => Ok map
               | _ => set_note map noteId rec
               end);
        Ok (rec, Some map)
  | None => Ok (VNull, None)
  end.

(** [updateSyncCheckpoint(noteId, { [k]: undefined, ...checkpoint })]: the
    spread gives the property [k] the value [undefined], whatever the record
    held, and [JSON.stringify] leaves such a property out of the file. The
    record is returned as it is saved. *)
Definition updateSyncCheckpoint_undefined (noteId k : jstr) (checkpoint : value) (f : file)
    : result (value * saved) :=
  let map := loadMapping f in
  old ← get_note map noteId;
  if negb (truthy_opt old) then Ok (VNull, None)
  else
    let rec :=
      VObj (List.filter (fun p => negb (key_eqb p.1 k)) (spread2 old (Some checkpoint))) in
    map ← set_note map noteId rec;
    Ok (rec, Some map).

(** The loop of [findNoteIdByFileId] over [Object.entries(map.notes)]. *)
Fixpoint find_by_fileId (fileId : option jstr) (entries : obj) : result (option jstr) :=
  match entries with
  | [] => Ok None
  | (noteId, binding) :: rest =>
      id ← get_prop binding k_fileId;
      if strict_eq_str id fileId then Ok (Some noteId) else find_by_fileId fileId rest
  end.

(** Reverse lookup: fileId -> noteId (first match) *)
Definition findNoteIdByFileId (fileId : option jstr) (f : file) : result (option jstr) :=
  let map := loadMapping f in
  notes ← get_prop map k_notes;
  entries ← Object_entries notes;
  find_by_fileId fileId entries.

End Mapping.

(** * The binding store before notebooks: one flat map from note to binding *)

Module FlatMapping.
Import Js.

Definition loadMapping (f : file) : value :=
  match (raw ← readFileSync f; JSON_parse raw) with
  | Ok data => data
  | Throw _ => VObj []
  end.

Definition bindNote (noteId : jstr) (binding : value) (f : file)
    : result (value * Mapping.saved) :=
  let map := loadMapping f in
  old ← get_prop map noteId;
  let rec := VObj (spread2 old (Some binding)) in
  map ← set_prop map noteId rec;
  Ok (rec, Some map).

Definition getBinding (noteId : jstr) (f : file) : result value :=
  let map := loadMapping f in
  rec ← get_prop map noteId;
  Ok (match rec with
      | Some r => if truthy r then r else VNull
      | None => VNull
      end).

Definition updateSyncCheckpoint (noteId : jstr) (checkpoint : value) (f : file)
    : result (value * Mapping.saved) :=
  let map := loadMapping f in
  old ← get_prop map noteId;
  if negb (truthy_opt old) then Ok (VNull, None)
  else
    let rec := VObj (spread2 old (Some checkpoint)) in
    map ← set_prop map noteId rec;
    Ok (rec, Some map).

Definition markAccessLost (noteId : jstr) (f : file) : result (value * Mapping.saved) :=
  let map := loadMapping f in
  old ← get_prop map noteId;
  match old with
  | Some r =>
      if negb (truthy r) then Ok (VNull, None)
      else
        rec ← set_prop r Mapping.k_accessLost (VBool true);
        map ← (match rec with
               | VBuiltin _ => Ok map
               | _ => set_prop map noteId rec
               end);
        Ok (rec, Some map)
  | None => Ok (VNull, None)
  end.

End FlatMapping.

(** * Documents, as the Docs API returns them *)

Module Docs.
Import Js.

Record TextStyle := mkTextStyle {
  ts_bold : bool;                        (* !!textStyle.bold *)
  ts_italic : bool                       (* !!textStyle.italic *)
}.

Record TextRun := mkTextRun {
  tr_content : option jstr;
  tr_textStyle : option TextStyle
}.

Record ParagraphElement := mkElement { textRun : option TextRun }.

Record Paragraph := mkParagraph {
  elements : option (list ParagraphElement);
  namedStyleType : option jstr           (* paragraphStyle?.namedStyleType *)
}.

Record StructuralElement := mkStructural {
  paragraph : option Paragraph;
  endIndex : option Z
}.

Record Body := mkBody { content : option (list StructuralElement) }.

#[warnings="-register-all"]
Inductive Tab := mkTab {
  tabId : option jstr;                   (* tabProperties?.tabId *)
  body : option Body;                    (* documentTab?.body *)
  childTabs : list Tab                   (* childTabs || [] *)
}.

Record Document := mkDocument {
  revisionId : option jstr;
  tabs : list Tab                        (* tabs || [] *)
}.

(** [t.tabProperties?.tabId === tabId], the wanted id being a command-line
    argument or a property of a binding. *)
Definition tab_is (wanted : option value) (t : Tab) : bool :=
  match tabId t, wanted with
  | Some s, Some (VStr w) => jstr_eqb s w
  | None, None => true
  | _, _ => false
  end.

Fixpoint tab_size (t : Tab) : nat :=
  S (fold_right (fun c n => (tab_size c + n)%nat) O (childTabs t)).

Definition forest_size (ts : list Tab) : nat :=
  fold_right (fun c n => (tab_size c + n)%nat) O ts.

(** The loop of [findTab]: [stack.shift()], then the children go to the end.
    [None] when [fuel] iterations were not enough. *)
Fixpoint findTab_loop (fuel : nat) (wanted : option value) (stack : list Tab)
    : option (option Tab) :=
  match stack with
  | [] => Some None
  | t :: rest =>
      if tab_is wanted t then Some (Some t)
      else match fuel with
           | O => None
           | S fuel' => findTab_loop fuel' wanted (rest ++ childTabs t)
           end
  end.

(** [findTab] and [findTabById]: every iteration takes one tab off the
    stack, so as many iterations as there are tabs are enough. *)
Definition findTab (wanted : option value) (ts : list Tab) : option Tab :=
  match findTab_loop (forest_size ts) wanted ts with
  | Some r => r
  | None => None
  end.

(** [getTabText] and [extractTabText] *)
Definition element_text (se : ParagraphElement) : jstr :=
  or_else (tr ← textRun se; tr_content tr) [].

Definition paragraph_text (el : StructuralElement) : jstr :=
  match paragraph el with
  | Some p => concat (map element_text (default [] (elements p)))
  | None => []
  end.

Definition getTabText (tab : Tab) : jstr :=
  match body tab with
  | Some b =>
      match content b with
      | Some els => concat (map paragraph_text els)
      | None => []
      end
  | None => []
  end.

Inductive Request :=
  | DeleteContentRange (tab : option value) (startIndex endIndex : Z)
  | InsertText (tab : option value) (index : Z) (text : jstr).

(** The remote document service is not part of the sources: it is modelled
    here by the documents it holds, by id, and by the two calls that the
    scripts make. What an accepted batch makes of a document is left open: it
    is the parameter [applied]. *)
Section Service.
Variable applied : list Request -> Document -> Document.

Definition remote := gmap jstr Document.

(** Modelled from the spec: [fetch(docId)] of the remote document service,
    which returns the document with its revision. *)
Definition documents_get (r : remote) (documentId : option value) : result Document :=
  match documentId with
  | Some (VStr id) =>
      match r !! id with
      | Some d => Ok d
      | None => Throw (ApiError NotFound)
      end
  | _ => Throw (ApiError NotFound)
  end.

Definition guard_holds (requiredRevisionId : option jstr) (d : Document) : bool :=
  match requiredRevisionId with
  | Some rev => match revisionId d with
                | Some cur => jstr_eqb rev cur
                | None => false
                end
  | None => true
  end.

(** Modelled from the spec: [applyEdits(docId, ops, { requiredRevision })] of
    the remote document service. It answers [ok] and applies the edits, or
    answers with a revision conflict and leaves the document as it is. A call
    can also fail for reasons of its own ([fault]), and then changes
    nothing. *)
Definition batchUpdate (fault : option api_reason) (r : remote)
    (documentId : option value) (requests : list Request)
    (requiredRevisionId : option jstr) : result unit * remote :=
  match fault with
  | Some reason => (Throw (ApiError reason), r)
  | None =>
      match documentId with
      | Some (VStr id) =>
          match r !! id with
          | Some d =>
              if guard_holds requiredRevisionId d
              then (Ok tt, <[id := applied requests d]> r)
              else (Throw (ApiError StaleRevision), r)
          | None => (Throw (ApiError NotFound), r)
          end
      | _ => (Throw (ApiError NotFound), r)
      end
  end.

End Service.

End Docs.

(** * The pull, compare, push scripts *)

Module PullPush.
Import Js Docs.

(** How a script ends: [process.exit(code)], the end of the module (code 0),
    or an exception that nothing catches. *)
Inductive ending :=
  | Exit (code : Z)
  | Uncaught (e : error).

Inductive message :=
  | Usage
  | NoBinding
  | TabNotFound
  | NoDiff                               (* 'No diff: skip push.' *)
  | Pushed                               (* 'Pushed new content to ...' *)
  | PushFailed (e : error).              (* 'Push failed (possible conflict):' and the error *)

Inductive call :=
  | CallGet (documentId : option value)
  | CallBatchUpdate (documentId : option value) (requests : list Request)
      (requiredRevisionId : option jstr).

Definition is_write (c : call) : bool :=
  match c with
  | CallBatchUpdate _ _ _ => true
  | CallGet _ => false
  end.

(** What a run leaves behind. *)
Record Run := mkRun {
  r_ending : ending;
  r_console : list message;
  r_calls : list call;
  r_remote : remote
}.

Definition writes (r : Run) : list call := List.filter is_write (r_calls r).

(** The surroundings of a run: the store file, the local file (absent when
    it cannot be read), the remote documents when the run starts, the edits of
    other writers that reach the service between the pull and the push, and
    the failure of the push call, if any, that is not a verdict on the guard. *)
Record Env := mkEnv {
  e_store : file;
  e_local : option jstr;
  e_remote : remote;
  e_concurrent : remote -> remote;
  e_fault : option api_reason
}.

Section Scripts.
Variable applied : list Request -> Document -> Document.

(** [const last = body.content[body.content.length - 1];
     const endIndex = last.endIndex ?? 1;] *)
Definition last_endIndex (tab : Tab) : result Z :=
  match body tab with
  | Some b =>
      match content b with
      | Some els =>
          match last els with
          | Some l => Ok (default 1%Z (endIndex l))
          | None => Throw TypeError
          end
      | None => Throw TypeError
      end
  | None => Throw TypeError
  end.

Definition replace_requests (tab : option value) (endIndex : Z) (text : jstr)
    : list Request :=
  (if (1 <? endIndex)%Z then [DeleteContentRange tab 1 (endIndex - 1)] else [])
  ++ [InsertText tab 1 text].

(** From the pull on; shared by the two scripts, which differ in where the
    ids come from and in their exit codes. *)
Definition pull_compare_push (env : Env) (documentId wantedTab : option value)
    (code_no_tab code_failed : Z) : Run :=
  (* Pull *)
  let calls := [CallGet documentId] in
  match documents_get (e_remote env) documentId with
  | Throw e => mkRun (Uncaught e) [] calls (e_remote env)
  | Ok meta =>
      let revisionId := revisionId meta in
      match findTab wantedTab (tabs meta) with
      | None => mkRun (Exit code_no_tab) [TabNotFound] calls (e_remote env)
      | Some tab =>
          let remoteText := getTabText tab in
          (* Compare *)
          match e_local env with
          | None => mkRun (Uncaught SystemError) [] calls (e_remote env)
          | Some localText =>
              if jstr_eqb remoteText localText
              then mkRun (Exit 0) [NoDiff] calls (e_remote env)
              else
                (* Compute endIndex for replace *)
                match last_endIndex tab with
                | Throw e => mkRun (Uncaught e) [] calls (e_remote env)
                | Ok endIndex =>
                    let requests := replace_requests wantedTab endIndex localText in
                    (* Push *)
                    let calls := calls ++ [CallBatchUpdate documentId requests revisionId] in
                    match batchUpdate applied (e_fault env) (e_concurrent env (e_remote env))
                            documentId requests revisionId with
                    | (Ok _, r') => mkRun (Exit 0) [Pushed] calls r'
                    | (Throw err, r') => mkRun (Exit code_failed) [PushFailed err] calls r'
                    end
                end
          end
      end
  end.

(** [npm run pullPush -- <documentId> <tabId> <localPath>]; a missing
    argument is the empty string here. *)
Definition pullPush (documentId tabId localPath : jstr) (env : Env) : Run :=
  match documentId, tabId, localPath with
  | _ :: _, _ :: _, _ :: _ =>
      pull_compare_push env (Some (VStr documentId)) (Some (VStr tabId)) 2 3
  | _, _, _ => mkRun (Exit 1) [Usage] [] (e_remote env)
  end.

(** [npm run pullPushByNote -- <noteId> <localPath>] *)
Definition pullPushByNote (noteId localPath : jstr) (env : Env) : Run :=
  match noteId, localPath with
  | [], _ | _, [] => mkRun (Exit 1) [Usage] [] (e_remote env)
  | _, _ =>
      match Mapping.getBinding noteId (e_store env) with
      | Throw e => mkRun (Uncaught e) [] [] (e_remote env)
      | Ok binding =>
          if negb (truthy binding) then mkRun (Exit 2) [NoBinding] [] (e_remote env)
          else
            match get_prop binding Mapping.k_fileId, get_prop binding (u "tabId") with
            | Ok documentId, Ok tabId => pull_compare_push env documentId tabId 3 4
            | Throw e, _ | _, Throw e => mkRun (Uncaught e) [] [] (e_remote env)
            end
      end
  end.

End Scripts.

End PullPush.

(** * The changes poller (scripts/changesPoller.js) *)

Module Poller.
Import Js Docs.

(** The part of [config/md-mapping.json] that the poller reads; the file is
    not part of the sources. *)
Record Config := mkConfig {
  boldMarker : option jstr;              (* inline?.bold?.marker *)
  italicMarker : option jstr;            (* inline?.italic?.marker *)
  subtitle_mode : option jstr            (* subtitle?.mode *)
}.

Record Change := mkChange { c_fileId : option jstr; c_removed : bool }.

Record Page := mkPage {
  changes : list Change;                 (* data.changes || [] *)
  nextPageToken : option jstr;
  newStartPageToken : option jstr
}.

(** The remote services during one tick, and the clock. *)
Record Env := mkEnv {
  getStartPageToken : result (option jstr);
  changes_list : value -> result Page;
  documents_get : option jstr -> result Document;
  now : nat -> jstr                      (* new Date().toISOString(), by reading *)
}.

Inductive message :=
  | Initialized (pageToken : option jstr)
  | AccessLost (noteId : jstr)
  | Pulled (noteId : jstr)
  | PollError (e : error).

Inductive effect :=
  | EGetStartPageToken
  | EChangesList (pageToken : value)
  | EDocumentsGet (fileId : option jstr)
  | EWriteShadow (path text : jstr)
  | ESaveMapping (data : value)
  | ESaveState (st : value)
  | ELog (m : message).

(** The files the poller works on, the number of clock readings, and what it
    has done so far. *)
Record World := mkWorld {
  mappingFile : file;
  stateFile : file;
  shadow : gmap jstr jstr;               (* the files of local/, by name *)
  clock : nat;
  trace : list effect
}.

(** ** Tab content to Markdown *)

Record Run := mkRun { text : jstr; bold : bool; italic : bool }.
Record Para := mkPara { runs : list Run; style : jstr }.

Definition run_of (se : ParagraphElement) : Run :=
  let ts := tr ← textRun se; tr_textStyle tr in
  mkRun (or_else (tr ← textRun se; tr_content tr) [])
        (match ts with Some ts => ts_bold ts | None => false end)
        (match ts with Some ts => ts_italic ts | None => false end).

Definition extractParagraphs (tab : Tab) : list Para :=
  match body tab with
  | Some b =>
      match content b with
      | Some els =>
          omap (fun el =>
                  p ← paragraph el;
                  Some (mkPara (map run_of (default [] (elements p)))
                               (or_else (namedStyleType p) (u "NORMAL_TEXT")))) els
      | None => []
      end
  | None => []
  end.

(** [s.replace(/\n+$/, '')] and [s.match(/\n+$/)]: the text without its
    final line feeds, and those line feeds. *)
Definition split_trailing_nl (s : jstr) : jstr * jstr :=
  let '(n, b) := MdToDocs.span (fun c => (c =? 10)%N) (rev s) in (rev b, rev n).

Definition runToMarkdown (cfg : Config) (r : Run) : jstr :=
  let boldMarker := or_else (boldMarker cfg) (u "**") in
  let italicMarker := or_else (italicMarker cfg) (u "*") in
  let '(chunk, trailingNewlines) := split_trailing_nl (text r) in
  match chunk with
  | [] => text r
  | _ =>
      (if bold r && italic r
       then boldMarker ++ italicMarker ++ chunk ++ italicMarker ++ boldMarker
       else if bold r then boldMarker ++ chunk ++ boldMarker
       else if italic r then italicMarker ++ chunk ++ italicMarker
       else chunk)
      ++ trailingNewlines
  end.

Definition runsToMarkdown (rs : list Run) (cfg : Config) : jstr :=
  concat (map (runToMarkdown cfg) rs).

Definition trimStart (s : jstr) : jstr := (MdToDocs.span is_space s).2.
Definition trim (s : jstr) : jstr := rev (trimStart (rev (trimStart s))).

Fixpoint find_index {A} (p : A -> bool) (i : nat) (l : list A) : option nat :=
  match l with
  | [] => None
  | x :: l' => if p x then Some i else find_index p (S i) l'
  end.

(** The loop [for (const p of paras)], [i] being the index of [p]. *)
Fixpoint content_lines (cfg : Config) (titlePara : option nat) (i : nat)
    (usedSubtitle : bool) (paras : list Para) : list jstr :=
  match paras with
  | [] => []
  | p :: rest =>
      if bool_decide (titlePara = Some i)
      then content_lines cfg titlePara (S i) usedSubtitle rest
      else
        let line := (split_trailing_nl (runsToMarkdown (runs p) cfg)).1 in
        if negb usedSubtitle
           && match subtitle_mode cfg with
              | Some m => jstr_eqb m (u "italic")
              | None => false
              end
           && jstr_eqb (style p) (u "SUBTITLE")
        then (u "_" ++ line ++ u "_") :: content_lines cfg titlePara (S i) true rest
        else line :: content_lines cfg titlePara (S i) usedSubtitle rest
  end.

Fixpoint join_nl (ls : list jstr) : jstr :=
  match ls with
  | [] => []
  | [l] => l
  | l :: ls' => l ++ nl ++ join_nl ls'
  end.

(** The Markdown text written to the shadow file. *)
Definition tabToMarkdown (cfg : Config) (tab : Tab) : jstr :=
  let paras := extractParagraphs tab in
  let titlePara := find_index (fun p => jstr_eqb (style p) (u "TITLE")) 0 paras in
  let titleText :=
    match titlePara with
    | Some i =>
        match paras !! i with
        | Some p => trim (split_trailing_nl (runsToMarkdown (runs p) cfg)).1
        | None => []
        end
    | None => []
    end in
  let contentLines :=
    (match titleText with [] => [] | _ => [u "# " ++ titleText] end)
    ++ content_lines cfg titlePara 0 false paras in
  join_nl contentLines.

(** ** The poller as a state and exception monad *)

(** [Running]: the loop has not come to its end within the iterations
    observed. *)
Inductive outcome (A : Type) :=
  | Done (a : A)
  | Threw (e : error)
  | Running.
Arguments Done {A} a.
Arguments Threw {A} e.
Arguments Running {A}.

Definition M (A : Type) := World -> outcome A * World.

Definition ret {A} (a : A) : M A := fun w => (Done a, w).

Definition bind {A B} (m : M A) (k : A -> M B) : M B := fun w =>
  match m w with
  | (Done a, w') => k a w'
  | (Threw e, w') => (Threw e, w')
  | (Running, w') => (Running, w')
  end.

Notation "'do' x <- m ; k" := (bind m (fun x => k))
  (at level 10, x name, m at level 100, k at level 200).
Notation "m ;; k" := (bind m (fun _ => k))
  (at level 100, k at level 200, right associativity).

Definition lift {A} (r : result A) : M A := fun w =>
  match r with
  | Ok a => (Done a, w)
  | Throw e => (Threw e, w)
  end.

Definition emit (e : effect) : M unit := fun w =>
  (Done tt, mkWorld (mappingFile w) (stateFile w) (shadow w) (clock w) (trace w ++ [e])).

Definition read_mapping {A} (op : file -> result A) : M A := fun w =>
  lift (op (mappingFile w)) w.

(** A store operation that may call [saveMapping]. *)
Definition write_mapping (op : file -> result (value * Mapping.saved)) : M value :=
  do r <- read_mapping op;
  match r with
  | (v, Some data) =>
      (fun w => (Done tt, mkWorld (write_json data) (stateFile w) (shadow w) (clock w)
                            (trace w ++ [ESaveMapping data])));;
      ret v
  | (v, None) => ret v
  end.

Definition writeShadow (path text : jstr) : M unit := fun w =>
  (Done tt, mkWorld (mappingFile w) (stateFile w) (<[path := text]> (shadow w)) (clock w)
              (trace w ++ [EWriteShadow path text])).

Definition toISOString (env : Env) : M jstr := fun w =>
  (Done (now env (clock w)),
   mkWorld (mappingFile w) (stateFile w) (shadow w) (S (clock w)) (trace w)).

Definition k_pageToken : jstr := u "pageToken".

Definition loadState : M value := fun w =>
  (Done (match (raw ← readFileSync (stateFile w); JSON_parse raw) with
         | Ok st => st
         | Throw _ => VObj []
         end), w).

Definition saveState (st : value) : M unit := fun w =>
  (Done tt, mkWorld (mappingFile w) (write_json st) (shadow w) (clock w)
              (trace w ++ [ESaveState st])).

Definition initIfNeeded (env : Env) : M value :=
  do st <- loadState;
  do pageToken <- lift (get_prop st k_pageToken);
  if truthy_opt pageToken then ret (default VNull pageToken)
  else
    emit EGetStartPageToken;;
    do start <- lift (getStartPageToken env);
    saveState (VObj (match start with Some s => [(k_pageToken, VStr s)] | None => [] end));;
    emit (ELog (Initialized start));;
    ret VNull.                           (* indicate first-run init done *)

(** The properties of the checkpoint [{ lastKnownRevisionId, lastSyncTs }]
    that have a value. *)
Definition checkpoint (rev : option jstr) (ts : jstr) : value :=
  VObj ((match rev with Some r => [(u "lastKnownRevisionId", VStr r)] | None => [] end)
        ++ [(u "lastSyncTs", VStr ts)]).

(** [updateSyncCheckpoint(noteId, { lastKnownRevisionId: meta.data.revisionId,
    lastSyncTs: ts })]; the revision of a document may be [undefined]. *)
Definition save_checkpoint (noteId : jstr) (rev : option jstr) (ts : jstr) (f : file)
    : result (value * Mapping.saved) :=
  match rev with
  | Some _ => Mapping.updateSyncCheckpoint noteId (checkpoint rev ts) f
  | None =>
      Mapping.updateSyncCheckpoint_undefined noteId (u "lastKnownRevisionId")
        (checkpoint rev ts) f
  end.

(** The body of [for (const ch of data.changes || [])]. *)
Definition process_change (env : Env) (cfg : Config) (ch : Change) : M unit :=
  let fileId := c_fileId ch in
  do noteId <- read_mapping (Mapping.findNoteIdByFileId fileId);
  match noteId with
  | None | Some [] => ret tt             (* ignore unbound files *)
  | Some noteId =>
      if c_removed ch then
        write_mapping (Mapping.markAccessLost noteId);;
        emit (ELog (AccessLost noteId))
      else
        do binding <- read_mapping (Mapping.getBinding noteId);
        if negb (truthy binding) then ret tt else
        do tabId <- lift (get_prop binding (u "tabId"));
        if negb (truthy_opt tabId) then ret tt else
        (* Pull doc and write local shadow file *)
        emit (EDocumentsGet fileId);;
        do meta <- lift (documents_get env fileId);
        match findTab tabId (tabs meta) with
        | None => ret tt
        | Some tab =>
            let mdOut := tabToMarkdown cfg tab in
            writeShadow (noteId ++ u ".md") mdOut;;
            do ts <- toISOString env;
            write_mapping (save_checkpoint noteId (revisionId meta) ts);;
            emit (ELog (Pulled noteId))
        end
  end.

Fixpoint for_each {A} (f : A -> M unit) (l : list A) : M unit :=
  match l with
  | [] => ret tt
  | x :: l' => f x;; for_each f l'
  end.

(** [while (pageToken) { ... }], at most [fuel] pages. *)
Fixpoint page_loop (fuel : nat) (env : Env) (cfg : Config) (pageToken : value) : M unit :=
  match fuel with
  | O => fun w => (Running, w)
  | S fuel' =>
      emit (EChangesList pageToken);;
      do data <- lift (changes_list env pageToken);
      for_each (process_change env cfg) (changes data);;
      match nextPageToken data with
      | Some (c :: t) => page_loop fuel' env cfg (VStr (c :: t))
      | _ =>
          (* Save newStartPageToken if provided, else keep current *)
          let newToken := match newStartPageToken data with
                          | Some (c :: t) => VStr (c :: t)
                          | _ => pageToken
                          end in
          saveState (VObj [(k_pageToken, newToken)])
      end
  end.

Definition processOnce (fuel : nat) (env : Env) (cfg : Config) : M unit :=
  do st <- loadState;
  do pageToken <- lift (get_prop st k_pageToken);
  if truthy_opt pageToken then page_loop fuel env cfg (default VNull pageToken)
  else ret tt.                           (* First run already handled by initIfNeeded() *)

(** [try { await processOnce(); } catch (e) { console.error(...) }] *)
Definition guarded (m : M unit) : M unit := fun w =>
  match m w with
  | (Threw e, w') => emit (ELog (PollError e)) w'
  | r => r
  end.

(** The watch loop never ends; [ticks] are the ticks observed. *)
Fixpoint watch_loop (fuel : nat) (cfg : Config) (ticks : list Env) : M unit :=
  match ticks with
  | [] => fun w => (Running, w)
  | env :: rest => guarded (processOnce fuel env cfg);; watch_loop fuel cfg rest
  end.

Definition main (fuel : nat) (watch : bool) (cfg : Config) (env : Env) (ticks : list Env)
    : M unit :=
  do maybeToken <- initIfNeeded env;
  match maybeToken, watch with
  | VNull, false => ret tt               (* first init only *)
  | _, false => processOnce fuel env cfg
  | _, true => watch_loop fuel cfg ticks
  end.

Definition start (mapping state : file) : World := mkWorld mapping state ∅ 0 [].

End Poller.

(** * Further parts of the scripts *)

(** ** Notebook bindings (lib/mapping.js) *)

Module Notebooks.
Import Js Mapping.

(** [map.notebooks[notebookId]] *)
Definition get_notebook (map : value) (notebookId : jstr) : result (option value) :=
  notebooks ← get_prop map k_notebooks;
  get_prop_opt notebooks notebookId.

(** [map.notebooks[notebookId] = rec] *)
Definition set_notebook (map : value) (notebookId : jstr) (rec : value) : result value :=
  notebooks ← get_prop map k_notebooks;
  match notebooks with
  | Some notebooks =>
      notebooks' ← set_prop notebooks notebookId rec; set_prop map k_notebooks notebooks'
  | None => Throw TypeError
  end.

Definition bindNotebook (notebookId : jstr) (binding : value) (f : file)
    : result (value * saved) :=
  let map := loadMapping f in
  old ← get_notebook map notebookId;
  let rec := VObj (spread2 old (Some binding)) in
  map ← set_notebook map notebookId rec;
  Ok (rec, Some map).

Definition getNotebookBinding (notebookId : jstr) (f : file) : result value :=
  let map := loadMapping f in
  rec ← get_notebook map notebookId;
  Ok (match rec with
      | Some r => if truthy r then r else VNull
      | None => VNull
      end).

End Notebooks.

(** ** The binding scripts (scripts/bindNote.js) *)

Module BindScripts.
Import Js Mapping.

(** [{ fileId, tabId, lastSyncTs: new Date().toISOString() }] *)
Definition note_binding (fileId tabId now : jstr) : value :=
  VObj [(k_fileId, VStr fileId); (u "tabId", VStr tabId); (u "lastSyncTs", VStr now)].

(** [npm run bindNote -- <noteId> <fileId> <tabId>]: the binding printed and
    the store written, or nothing when an argument is missing (exit code 1). *)
Definition bindNote_script (noteId fileId tabId now : jstr) (f : file)
    : option (result (value * file)) :=
  match noteId, fileId, tabId with
  | _ :: _, _ :: _, _ :: _ =>
      Some (r ← bindNote noteId (note_binding fileId tabId now) f;
            let f' := commit f r.2 in
            b ← getBinding noteId f';
            Ok (b, f'))
  | _, _, _ => None
  end.

End BindScripts.

(** ** The converter before fenced code (the earlier scripts/mdToDocs.js) *)

Module MdToDocsV1.
Import MdToDocs.

(** One iteration of the loop: no fence, every line is a paragraph. *)
Definition step (cfg : Config) (st : State) (original : jstr) : option State :=
  let namedStyleType := paragraphStyleFor cfg original in
  let line := stripHeadingMarkers original in
  '(line, tr) ← applyInline bold_re push_bold (cursor st) line (textRanges st);
  '(line, tr) ← applyInline italic_re push_italic (cursor st) line tr;
  '(line, tr) ← applyInline underscore_re push_italic (cursor st) line tr;
  let start := cursor st in
  let end_ := (start + Z.of_nat (length line))%Z in
  Some (mkState (plain st ++ line ++ nl)
          (paraRanges st ++ [mkPara start end_ namedStyleType])
          tr (end_ + 1)%Z (inFence st) (fenceLang st)).

Fixpoint loop (cfg : Config) (st : State) (lines : list jstr) : option State :=
  match lines with
  | [] => Some st
  | original :: rest => st' ← step cfg st original; loop cfg st' rest
  end.

Definition mdToDocs (cfg : Config) (md : jstr) : option Output :=
  let lines := split_nl (replace_cr (replace_crlf md)) in
  st ← loop cfg init lines;
  Some (mkOutput (plain st) (paraRanges st) (textRanges st)).

End MdToDocsV1.

(** ** The requests of scripts/mdToDocs.js *)

Module StyleRequests.
Import Js Docs MdToDocs.

Inductive ParagraphStyle :=
  | CodeDecoration                       (* shading and left border *)
  | Named (namedStyleType : jstr).

Inductive StyleRequest :=
  | UpdateParagraphStyle (tab : jstr) (startIndex endIndex : Z)
      (paragraphStyle : ParagraphStyle) (fields : jstr)
  | UpdateTextStyle (tab : jstr) (startIndex endIndex : Z) (bold italic : bool)
      (fields : jstr)
  | UpdateFontFamily (tab : jstr) (startIndex endIndex : Z) (fontFamily : jstr)
      (fields : jstr).

(** [meta.data.tabs?.find(t => t.tabProperties?.tabId === tabId)]: the tabs
    of the document itself, not their children. *)
Definition top_tab (tabId : jstr) (d : Document) : option Tab :=
  List.find (tab_is (Some (VStr tabId))) (tabs d).

(** [last?.endIndex ?? 1] for the last element of the body of that tab. *)
Definition top_endIndex (tabId : jstr) (d : Document) : Z :=
  default 1%Z (t ← top_tab tabId d; b ← body t; c ← content b; l ← last c; endIndex l).

(** The first batch: clear the tab, insert the plain text. *)
Definition text_requests (tabId : jstr) (d : Document) (plain : jstr) : list Request :=
  (if (1 <? top_endIndex tabId d)%Z
   then [DeleteContentRange (Some (VStr tabId)) 1 (top_endIndex tabId d - 1)] else [])
  ++ [InsertText (Some (VStr tabId)) 1 plain].

Definition is_codeblock (r : ParaRange) : bool := jstr_eqb (p_style r) (u "CODEBLOCK").

Definition paraReqs (tabId : jstr) (ps : list ParaRange) : list StyleRequest :=
  map (fun r =>
         UpdateParagraphStyle tabId (p_start r + 1) (p_end r + 1)
           (if is_codeblock r then CodeDecoration else Named (p_style r))
           (if is_codeblock r then u "shading,borderLeft" else u "namedStyleType"))
      (List.filter (fun r => (p_start r <=? p_end r)%Z) ps).

(** [[r.bold ? 'bold' : null, r.italic ? 'italic' : null].filter(Boolean).join(',')] *)
Definition text_fields (r : TextRange) : jstr :=
  match t_bold r, t_italic r with
  | true, true => u "bold,italic"
  | true, false => u "bold"
  | false, true => u "italic"
  | false, false => []
  end.

Definition textReqs (tabId : jstr) (ts : list TextRange) : list StyleRequest :=
  map (fun r => UpdateTextStyle tabId (t_start r + 1) (t_end r + 1)
                  (t_bold r) (t_italic r) (text_fields r)) ts.

Definition codeMonoReqs (tabId : jstr) (ps : list ParaRange) : list StyleRequest :=
  map (fun r => UpdateFontFamily tabId (p_start r + 1) (p_end r + 1)
                  (u "Roboto Mono") (u "weightedFontFamily"))
      (List.filter is_codeblock ps).

(** [allStyleReqs] *)
Definition style_requests (tabId : jstr) (o : Output) : list StyleRequest :=
  paraReqs tabId (o_paraRanges o) ++ textReqs tabId (o_textRanges o)
  ++ codeMonoReqs tabId (o_paraRanges o).

End StyleRequests.

(** ** Replacing the body of a tab (scripts/replaceTabBody.js) *)

Module ReplaceTabBody.
Import Js Docs PullPush.

Inductive report :=
  | RUsage
  | RTabNotFound
  | RBodyNotFound
  | RReplaced                            (* 'OK: replaced body for tab' *)
  | RFailed (e : error).                 (* 'Replace failed:' and the error *)

Record Outcome := mkOutcome {
  o_ending : ending;
  o_console : list report;
  o_calls : list call;
  o_remote : remote;
  o_store : file
}.

Section Script.
Variable applied : list Request -> Document -> Document.

(** [if (!body?.content?.length)]: the elements of the body, when there are
    some. *)
Definition body_elements (tab : Tab) : option (list StructuralElement) :=
  match body tab with
  | Some b =>
      match content b with
      | Some (el :: els) => Some (el :: els)
      | _ => None
      end
  | None => None
  end.

(** [{ lastKnownRevisionId: meta2.data.revisionId, lastSyncTs }] merged in the
    record of [noteId] and saved. A revision that is [undefined] still
    overwrites the property, which [JSON.stringify] then leaves out of the
    file. *)
Definition save_checkpoint (noteId : jstr) (rev : option jstr) (now : jstr) (store : file)
    : result file :=
  match rev with
  | Some rev =>
      res ← Mapping.updateSyncCheckpoint noteId
              (VObj [(u "lastKnownRevisionId", VStr rev); (u "lastSyncTs", VStr now)]) store;
      Ok (Mapping.commit store res.2)
  | None =>
      let map := Mapping.loadMapping store in
      old ← Mapping.get_note map noteId;
      if negb (truthy_opt old) then Ok store
      else
        let rec :=
          List.filter (fun p => negb (key_eqb p.1 (u "lastKnownRevisionId")))
            (spread2 old (Some (VObj [(u "lastSyncTs", VStr now)]))) in
        map ← Mapping.set_note map noteId (VObj rec);
        Ok (write_json map)
  end.

(** What follows an accepted batch, inside the [try]: the document is read
    again and its revision recorded for the first note bound to it. *)
Definition record_revision (r : remote) (documentId : jstr) (now : jstr) (store : file)
    : result file :=
  meta2 ← documents_get r (Some (VStr documentId));
  noteId ← Mapping.findNoteIdByFileId (Some documentId) store;
  match noteId with
  | Some (c :: n) => save_checkpoint (c :: n) (revisionId meta2) now store
  | _ => Ok store
  end.

(** [npm run replaceTabBody -- <documentId> <tabId> <textFilePath>]; [now] is
    the time read for the checkpoint. *)
Definition replaceTabBody (documentId tabId filePath now : jstr) (env : Env) : Outcome :=
  let stop e m calls := mkOutcome e m calls (e_remote env) (e_store env) in
  match documentId, tabId, filePath with
  | _ :: _, _ :: _, _ :: _ =>
      match e_local env with
      | None => stop (Uncaught SystemError) [] []
      | Some newText =>
          let doc := Some (VStr documentId) in
          let calls := [CallGet doc] in
          match documents_get (e_remote env) doc with
          | Throw e => stop (Uncaught e) [] calls
          | Ok meta =>
              match findTab (Some (VStr tabId)) (tabs meta) with
              | None => stop (Exit 2) [RTabNotFound] calls
              | Some tab =>
                  match body_elements tab with
                  | None => stop (Exit 3) [RBodyNotFound] calls
                  | Some els =>
                      let endIndex := default 1%Z (l ← last els; endIndex l) in
                      let requests :=
                        replace_requests (Some (VStr tabId)) endIndex newText in
                      let calls := calls ++ [CallBatchUpdate doc requests (revisionId meta)] in
                      match batchUpdate applied (e_fault env)
                              (e_concurrent env (e_remote env)) doc requests
                              (revisionId meta) with
                      | (Throw err, r') =>
                          mkOutcome (Exit 4) [RFailed err] calls r' (e_store env)
                      | (Ok _, r') =>
                          let calls := calls ++ [CallGet doc] in
                          match record_revision r' documentId now (e_store env) with
                          | Ok store' => mkOutcome (Exit 0) [RReplaced] calls r' store'
                          | Throw err =>
                              mkOutcome (Exit 4) [RFailed err] calls r' (e_store env)
                          end
                      end
                  end
              end
          end
      end
  | _, _, _ => mkOutcome (Exit 1) [RUsage] [] (e_remote env) (e_store env)
  end.

End Script.

End ReplaceTabBody.

(** ** The poller before the Markdown rendering (the earlier
    scripts/changesPoller.js) *)

Module PollerV1.
Import Js Docs Poller.

(** The body of [for (const ch of data.changes || [])]: the shadow file gets
    the text of the tab, [extractTabText(tab)]. *)
Definition process_change (env : Env) (ch : Change) : M unit :=
  let fileId := c_fileId ch in
  do noteId <- read_mapping (Mapping.findNoteIdByFileId fileId);
  match noteId with
  | None | Some [] => ret tt             (* ignore unbound files *)
  | Some noteId =>
      if c_removed ch then
        write_mapping (Mapping.markAccessLost noteId);;
        emit (ELog (AccessLost noteId))
      else
        do binding <- read_mapping (Mapping.getBinding noteId);
        if negb (truthy binding) then ret tt else
        do tabId <- lift (get_prop binding (u "tabId"));
        if negb (truthy_opt tabId) then ret tt else
        (* Pull doc and write local shadow file *)
        emit (EDocumentsGet fileId);;
        do meta <- lift (documents_get env fileId);
        match findTab tabId (tabs meta) with
        | None => ret tt
        | Some tab =>
            let text := getTabText tab in
            writeShadow (noteId ++ u ".md") text;;
            do ts <- toISOString env;
            write_mapping (save_checkpoint noteId (revisionId meta) ts);;
            emit (ELog (Pulled noteId))
        end
  end.

End PollerV1.

(** ** Appending to a tab (scripts/appendToTabEnd.js) *)

Module AppendToTabEnd.
Import Js Docs PullPush.

Inductive report :=
  | AUsage
  | Appended (endIndex : Z).             (* 'Appended to tab at index' endIndex *)

Record Outcome := mkOutcome {
  a_ending : ending;
  a_console : list report;
  a_calls : list call;
  a_remote : remote
}.

(** [rest.join(' ')] *)
Fixpoint join_space (rest : list jstr) : jstr :=
  match rest with
  | [] => []
  | [s] => s
  | s :: rest' => s ++ 32%N :: join_space rest'
  end.

Section Script.
Variable applied : list Request -> Document -> Document.

(** [npm run appendToTabEnd -- <documentId> <tabId> <text>]: the batch has no
    write control, and nothing catches a failed call. *)
Definition appendToTabEnd (documentId tabId : jstr) (rest : list jstr) (env : Env)
    : Outcome :=
  match documentId, tabId, rest with
  | _ :: _, _ :: _, _ :: _ =>
      let text := join_space rest in
      let doc := Some (VStr documentId) in
      match documents_get (e_remote env) doc with
      | Throw e => mkOutcome (Uncaught e) [] [CallGet doc] (e_remote env)
      | Ok meta =>
          let endIndex := StyleRequests.top_endIndex tabId meta in
          let safeIndex := Z.max 1 (endIndex - 1) in
          let requests := [InsertText (Some (VStr tabId)) safeIndex text] in
          let calls := [CallGet doc; CallBatchUpdate doc requests None] in
          match batchUpdate applied (e_fault env) (e_concurrent env (e_remote env))
                  doc requests None with
          | (Ok _, r') => mkOutcome (Exit 0) [Appended endIndex] calls r'
          | (Throw err, r') => mkOutcome (Uncaught err) [] calls r'
          end
      end
  | _, _, _ => mkOutcome (Exit 1) [AUsage] [] (e_remote env)
  end.

End Script.

End AppendToTabEnd.

(** ** A document service that keeps the final terminator *)

Module DocsService.
Import Js Docs.

(** Modelled from the spec: the ranges of the remote document service. The
    push deletes "the full current content range (content excluding the final
    implicit terminator)": positions count the code units of the content of a
    tab from 1, and the range ends before [endIndex]. *)
Definition delete_range (startIndex endIndex : Z) (s : jstr) : jstr :=
  take (Z.to_nat (startIndex - 1)) s ++ drop (Z.to_nat (endIndex - 1)) s.

(** Modelled from the spec: the insertion of a text at a position of the
    content of a tab. *)
Definition insert_text (index : Z) (text s : jstr) : jstr :=
  take (Z.to_nat (index - 1)) s ++ text ++ drop (Z.to_nat (index - 1)) s.

(** Modelled from the spec: the paragraphs of a content, each one closed by
    its line feed; the last line feed is the final implicit terminator. *)
Fixpoint split_paragraphs (cur s : jstr) : list jstr :=
  match s with
  | [] => match cur with [] => [] | _ => [cur] end
  | c :: s' =>
      if (c =? 10)%N then (cur ++ [c]) :: split_paragraphs [] s'
      else split_paragraphs (cur ++ [c]) s'
  end.

(** Modelled from the spec: the content of a tab as [fetch] returns it, one
    element per paragraph with the position at which it ends. *)
Fixpoint body_elements (start : Z) (ps : list jstr) : list StructuralElement :=
  match ps with
  | [] => []
  | p :: rest =>
      let end_ := (start + Z.of_nat (length p))%Z in
      mkStructural
        (Some (mkParagraph (Some [mkElement (Some (mkTextRun (Some p) None))]) None))
        (Some end_)
      :: body_elements end_ rest
  end.

(** Modelled from the spec: an edit of the content of the tab that a request
    names, wherever the tab is in the document. *)
Fixpoint edit_tab (wanted : option value) (f : jstr -> jstr) (t : Tab) : Tab :=
  match t with
  | mkTab id b children =>
      if tab_is wanted t
      then mkTab id
             (Some (mkBody (Some (body_elements 1 (split_paragraphs [] (f (getTabText t)))))))
             children
      else mkTab id b (map (edit_tab wanted f) children)
  end.

(** Modelled from the spec: one of the [ops] of [applyEdits]. *)
Definition apply_request (ts : list Tab) (q : Request) : list Tab :=
  match q with
  | DeleteContentRange tab startIndex endIndex =>
      map (edit_tab tab (delete_range startIndex endIndex)) ts
  | InsertText tab index text => map (edit_tab tab (insert_text index text)) ts
  end.

(** Modelled from the spec: what [applyEdits] makes of a document when it
    answers [ok]: the edits applied in their order, under a new revision. *)
Definition applied (requests : list Request) (d : Document) : Document :=
  mkDocument (Some (default [] (revisionId d) ++ u "'"))
    (fold_left apply_request requests (tabs d)).

End DocsService.
(** ** The converter always produces a result *)

Module MdToDocsFacts.
Import MdToDocs.

Lemma span_app p s : (span p s).1 ++ (span p s).2 = s.
Proof.
  induction s as [|c s IH]; simpl; [reflexivity|].
  destruct (p c); [|reflexivity].
  destruct (span p s) as [a b]; simpl in *. by rewrite IH.
Qed.

Lemma eat_length c w s s' : eat c w s = Some s' -> length s = (w + length s')%nat.
Proof.
  revert s; induction w as [|w IH]; intros s H; simpl in H.
  - by inversion H.
  - destruct s as [|d s]; [discriminate|].
    destruct (d =? c)%N; [|discriminate].
    apply IH in H. simpl. lia.
Qed.

Lemma match_here_length m s inner :
  match_here m s = Some inner ->
  (1 <= length inner /\ m_width m + length inner + m_width m <= length s)%nat.
Proof.
  unfold match_here. intros H.
  destruct (eat (m_char m) (m_width m) s) as [s1|] eqn:E1; [|discriminate].
  pose proof (span_app (fun d => negb (d =? m_char m)%N) s1) as Hs.
  destruct (span _ s1) as [i s2]; simpl in Hs.
  destruct i as [|c i]; [discriminate|].
  destruct (eat (m_char m) (m_width m) s2) as [s3|] eqn:E2; [|discriminate].
  inversion H; subst inner.
  apply eat_length in E1, E2. rewrite E1, <- Hs, length_app, E2. simpl. lia.
Qed.

Lemma search_bounds m s i index inner :
  search m s i = Some (index, inner) ->
  (i <= index /\ 1 <= length inner
   /\ index + (m_width m + length inner + m_width m) <= i + length s)%nat.
Proof.
  revert i; induction s as [|c s IH]; intros i H; simpl in H.
  - destruct (match_here m []) eqn:E; [|discriminate].
    inversion H; subst. apply match_here_length in E. simpl in *. lia.
  - destruct (match_here m (c :: s)) eqn:E.
    + inversion H; subst. apply match_here_length in E. simpl in *. lia.
    + apply IH in H. simpl. lia.
Qed.

Lemma exec_bounds m line lastIndex index inner :
  exec m line lastIndex = Some (index, inner) ->
  (lastIndex <= index /\ 1 <= length inner
   /\ index + (m_width m + length inner + m_width m) <= length line)%nat.
Proof.
  unfold exec. intros H.
  destruct (length line <? lastIndex) eqn:E; [discriminate|].
  apply Nat.ltb_ge in E.
  apply search_bounds in H. rewrite length_drop in H. lia.
Qed.

(** The loop of [applyInline] stops: every match shortens what is left to
    scan, so as many iterations as the line has characters are enough. *)
Lemma applyInline_loop_total fuel m upd cur line offset lastIndex ranges :
  (length line - lastIndex <= fuel)%nat ->
  exists line' ranges',
    applyInline_loop fuel m upd cur line offset lastIndex ranges = Some (line', ranges')
    /\ (length line' <= length line)%nat.
Proof.
  revert line offset lastIndex ranges.
  induction fuel as [|fuel IH]; intros line offset lastIndex ranges Hf.
  - simpl. destruct (exec m line lastIndex) as [[index inner]|] eqn:E.
    + apply exec_bounds in E. lia.
    + eauto.
  - simpl. destruct (exec m line lastIndex) as [[index inner]|] eqn:E; [|eauto].
    apply exec_bounds in E. destruct E as (E1 & E2 & E3).
    set (line' := take index line ++ inner ++ drop _ line).
    assert (Hlen : length line' = (length line - (m_width m + m_width m))%nat).
    { unfold line'. rewrite !length_app, length_take, length_drop. lia. }
    destruct (IH line' (offset + (m_width m + length inner + m_width m - length inner))%nat
                (index + length inner)%nat
                (ranges ++ [upd (cur + (Z.of_nat index - Z.of_nat offset))
                                (cur + (Z.of_nat index - Z.of_nat offset
                                        + Z.of_nat (length inner)))])%Z)
      as (l2 & r2 & Hr & Hl); [lia|].
    exists l2, r2. split; [exact Hr | lia].
Qed.

Lemma applyInline_total m upd cur line ranges :
  exists line' ranges', applyInline m upd cur line ranges = Some (line', ranges').
Proof.
  destruct (applyInline_loop_total (length line) m upd cur line 0 0 ranges)
    as (l & r & H & _); [lia|]. by exists l, r.
Qed.

Lemma step_total cfg st original : exists st', step cfg st original = Some st'.
Proof.
  unfold step. destruct (fenceMatch original); [eauto|].
  set (line0 := if inFence st then original else stripHeadingMarkers original).
  destruct (applyInline_total bold_re push_bold (cursor st) line0 (textRanges st))
    as (l1 & r1 & ->). simpl.
  destruct (applyInline_total italic_re push_italic (cursor st) l1 r1) as (l2 & r2 & ->).
  simpl.
  destruct (applyInline_total underscore_re push_italic (cursor st) l2 r2)
    as (l3 & r3 & ->). simpl. eauto.
Qed.

Lemma loop_total cfg lines : forall st, exists st', loop cfg st lines = Some st'.
Proof.
  induction lines as [|l lines IH]; intros st; simpl; [eauto|].
  destruct (step_total cfg st l) as (st1 & ->). simpl. apply IH.
Qed.

Theorem mdToDocs_total cfg md : exists o, mdToDocs cfg md = Some o.
Proof.
  unfold mdToDocs.
  destruct (loop_total cfg (split_nl (replace_cr (replace_crlf md))) init) as (st & ->).
  simpl. eauto.
Qed.

End MdToDocsFacts.

(** ** The flat buffer and the paragraph ranges *)

Module ProjectionFacts.
Import MdToDocs.

(** The paragraph ranges follow one another from [from] on, each one separated
    from the next by the line terminator; [tiles_end] is where they stop. *)
Fixpoint tiles (from : Z) (ps : list ParaRange) : Prop :=
  match ps with
  | [] => True
  | r :: rest => p_start r = from /\ (p_start r <= p_end r)%Z /\ tiles (p_end r + 1) rest
  end.

Fixpoint tiles_end (from : Z) (ps : list ParaRange) : Z :=
  match ps with
  | [] => from
  | r :: rest => tiles_end (p_end r + 1) rest
  end.

(** Rendered length of every block plus one terminator each. *)
Definition total_length (ps : list ParaRange) : Z :=
  fold_right (fun r acc => (p_end r - p_start r + 1 + acc)%Z) 0%Z ps.

Lemma tiles_snoc from ps r :
  tiles from (ps ++ [r]) <->
  tiles from ps /\ p_start r = tiles_end from ps /\ (p_start r <= p_end r)%Z.
Proof.
  revert from; induction ps as [|q ps IH]; intros from; simpl.
  - tauto.
  - rewrite IH. tauto.
Qed.

Lemma tiles_end_snoc from ps r : tiles_end from (ps ++ [r]) = (p_end r + 1)%Z.
Proof. revert from; induction ps as [|q ps IH]; intros from; simpl; auto. Qed.

Lemma tiles_total from ps :
  tiles from ps -> (tiles_end from ps = from + total_length ps)%Z.
Proof.
  revert from; induction ps as [|q ps IH]; intros from; simpl.
  - lia.
  - intros (H1 & H2 & H3). rewrite (IH _ H3). lia.
Qed.

Lemma tiles_bounds from ps :
  tiles from ps ->
  Forall (fun r => (from <= p_start r /\ p_start r <= p_end r
                    /\ p_end r < tiles_end from ps)%Z) ps.
Proof.
  revert from; induction ps as [|q ps IH]; intros from; simpl; [constructor|].
  intros (H1 & H2 & H3).
  assert (Hmono : forall f l, tiles f l -> (f <= tiles_end f l)%Z).
  { clear. intros f l; revert f; induction l as [|a l IHl]; intros f; simpl; [lia|].
    intros (? & ? & Ht). apply IHl in Ht. lia. }
  constructor.
  - pose proof (Hmono _ _ H3). lia.
  - eapply Forall_impl; [apply IH, H3|]. simpl. intros r ?. lia.
Qed.

Definition state_ok (st : State) : Prop :=
  cursor st = Z.of_nat (length (plain st))
  /\ tiles 0 (paraRanges st)
  /\ tiles_end 0 (paraRanges st) = cursor st.

Lemma step_ok cfg st original st' :
  state_ok st -> step cfg st original = Some st' -> state_ok st'.
Proof.
  intros (Hc & Ht & He) H. unfold step in H.
  destruct (fenceMatch original).
  { inversion H; subst. by split. }
  destruct (applyInline bold_re _ _ _ _) as [[l1 r1]|]; [|discriminate]. simpl in H.
  destruct (applyInline italic_re _ _ _ _) as [[l2 r2]|]; [|discriminate]. simpl in H.
  destruct (applyInline underscore_re _ _ _ _) as [[l3 r3]|]; [|discriminate].
  simpl in H. inversion H; subst; clear H.
  unfold state_ok; simpl. rewrite !length_app, tiles_snoc, tiles_end_snoc. simpl.
  repeat split; try assumption; try lia.
Qed.

Lemma loop_ok cfg lines : forall st st',
  state_ok st -> loop cfg st lines = Some st' -> state_ok st'.
Proof.
  induction lines as [|l lines IH]; intros st st' Hok H; simpl in H.
  - by inversion H; subst.
  - destruct (step cfg st l) as [st1|] eqn:E; [|discriminate]. simpl in H.
    eapply IH; [|exact H]. eapply step_ok; eauto.
Qed.

Lemma set_style_tiles s from r rest :
  tiles from (set_style s r :: rest) <-> tiles from (r :: rest).
Proof. reflexivity. Qed.

Lemma promoteTitle_shape cfg ps :
  map (fun r => (p_start r, p_end r)) (promoteTitle cfg ps)
  = map (fun r => (p_start r, p_end r)) ps.
Proof. destruct ps as [|r rest]; simpl; [reflexivity|]. by destruct (useTitle cfg). Qed.

Lemma promoteSubtitle_shape cfg ts ps :
  map (fun r => (p_start r, p_end r)) (promoteSubtitle cfg ts ps)
  = map (fun r => (p_start r, p_end r)) ps.
Proof.
  unfold promoteSubtitle. destruct (subtitle_mode cfg); [|reflexivity].
  destruct ps as [|r0 [|second rest]]; try reflexivity.
  destruct (jstr_eqb _ _); [|reflexivity]. by destruct (existsb _ _).
Qed.

Lemma tiles_shape ps qs from :
  map (fun r => (p_start r, p_end r)) ps = map (fun r => (p_start r, p_end r)) qs ->
  (tiles from ps <-> tiles from qs) /\ tiles_end from ps = tiles_end from qs
  /\ total_length ps = total_length qs.
Proof.
  revert qs from; induction ps as [|p ps IH]; intros [|q qs] from H; simpl in *;
    try discriminate; [tauto|].
  inversion H as [[H1 H2 H3]]. rewrite H1, H2.
  destruct (IH _ (p_end q + 1)%Z H3) as (Ha & Hb & Hc).
  rewrite Hc, Hb. tauto.
Qed.

(** The part of the projection invariant that the converter does keep: the
    buffer is as long as the blocks' rendered texts plus one terminator each,
    and the paragraph ranges lie inside it, terminators excluded. *)
Theorem paragraph_ranges_fit cfg md o :
  mdToDocs cfg md = Some o ->
  Z.of_nat (length (o_plain o)) = total_length (o_paraRanges o)
  /\ Forall (fun r => (0 <= p_start r /\ p_start r <= p_end r
                       /\ p_end r < Z.of_nat (length (o_plain o)))%Z) (o_paraRanges o).
Proof.
  unfold mdToDocs. intros H.
  destruct (loop cfg init _) as [st|] eqn:E; [|discriminate]. simpl in H.
  inversion H; subst; clear H. simpl.
  assert (Hok : state_ok st).
  { eapply loop_ok; [|exact E]. by split. }
  destruct Hok as (Hc & Ht & He).
  set (ps := promoteSubtitle _ _ _).
  assert (Hshape : map (fun r => (p_start r, p_end r)) ps
                   = map (fun r => (p_start r, p_end r)) (paraRanges st)).
  { unfold ps. by rewrite promoteSubtitle_shape, promoteTitle_shape. }
  destruct (tiles_shape _ _ 0%Z Hshape) as (Ha & Hb & Hd).
  apply Ha in Ht. split.
  - rewrite <- Hc, <- He, <- Hb, (tiles_total _ _ Ht). lia.
  - rewrite <- Hc, <- He, <- Hb. apply tiles_bounds, Ht.
Qed.

End ProjectionFacts.

(** ** Fenced code *)

Module FenceFacts.
Import MdToDocs.

(** A fence delimiter toggles the fence state and emits nothing. *)
Lemma fence_line_consumed cfg st original lang :
  fenceMatch original = Some lang ->
  step cfg st original
  = Some (mkState (plain st) (paraRanges st) (textRanges st) (cursor st)
            (negb (inFence st)) (if negb (inFence st) then lang else [])).
Proof. intros H. unfold step. by rewrite H. Qed.

Lemma search_no_marker m s i :
  (1 <= m_width m)%nat -> Forall (fun c => c <> m_char m) s -> search m s i = None.
Proof.
  intros Hw. revert i; induction s as [|c s IH]; intros i Hs.
  - simpl. unfold match_here. destruct (m_width m); [lia|]. reflexivity.
  - inversion Hs as [|? ? Hc Hs']; subst. simpl. unfold match_here.
    destruct (m_width m) as [|w] eqn:E; [lia|]. simpl.
    destruct (N.eqb_spec c (m_char m)) as [->|_]; [done|].
    apply IH, Hs'.
Qed.

Lemma applyInline_no_marker m upd cur line ranges :
  (1 <= m_width m)%nat -> Forall (fun c => c <> m_char m) line ->
  applyInline m upd cur line ranges = Some (line, ranges).
Proof.
  intros Hw Hl. unfold applyInline.
  assert (E : exec m line 0 = None).
  { unfold exec. simpl. rewrite drop_0. by apply search_no_marker. }
  destruct (length line); simpl; by rewrite E.
Qed.

(** Inside a fence, a line that holds neither [*] nor [_] is emitted as it
    is, as a code paragraph, and records no text style. *)
Lemma fenced_line_without_markers cfg st original :
  inFence st = true -> fenceMatch original = None ->
  Forall (fun c => c <> star /\ c <> underscore) original ->
  step cfg st original
  = Some (mkState (plain st ++ original ++ nl)
            (paraRanges st
             ++ [mkPara (cursor st) (cursor st + Z.of_nat (length original)) (u "CODEBLOCK")])
            (textRanges st) (cursor st + Z.of_nat (length original) + 1)
            true (fenceLang st)).
Proof.
  intros Hf Hm Hl. unfold step. rewrite Hm, Hf.
  rewrite (applyInline_no_marker bold_re); simpl; [|lia|].
  2:{ eapply Forall_impl; [exact Hl|]. simpl. tauto. }
  rewrite (applyInline_no_marker italic_re); simpl; [|lia|].
  2:{ eapply Forall_impl; [exact Hl|]. simpl. tauto. }
  rewrite (applyInline_no_marker underscore_re); simpl; [|lia|].
  2:{ eapply Forall_impl; [exact Hl|]. simpl. tauto. }
  reflexivity.
Qed.

Definition fenced_input : jstr := u "```" ++ nl ++ u "**a**" ++ nl ++ u "_b_".

(** C3, at the input where the code departs from the claim: an unmatched
    fence line followed by the two lines [**a**] and [_b_]. The fence line is
    consumed and both lines become code paragraphs, but the inline scan runs on
    them all the same: the markers are removed from the emitted text, which is
    [a] and [b], and a bold and an italic range are recorded. *)
Theorem fenced_lines_are_scanned :
  mdToDocs fallback_config fenced_input
  = Some {| o_plain := u "a" ++ nl ++ u "b" ++ nl;
            o_paraRanges := [mkPara 0 1 (u "CODEBLOCK"); mkPara 2 3 (u "CODEBLOCK")];
            o_textRanges := [mkText 0 1 true false; mkText 2 3 false true] |}.
Proof. vm_compute. reflexivity. Qed.

End FenceFacts.

(** ** The parse scenario *)

Module ScenarioFacts.
Import MdToDocs IR.

Definition scenario : jstr := u "# T" ++ nl ++ nl ++ u "A **b** c".

Definition titled (hd : option Headings) (mode : option jstr) : Config :=
  mkConfig hd true mode.

Definition normal_style (hd : option Headings) : jstr := paragraphStyleFor (titled hd None) [].

(** C4 does not hold as stated: on the scenario input the buffer is not
    [T\nA b c\n], there are three paragraph ranges and not two, and the bold
    range is not [{4,5}]: the blank line is a paragraph of its own. *)
Lemma scenario_not_as_claimed :
  exists o, mdToDocs (titled None None) scenario = Some o
    /\ o_plain o <> u "T" ++ nl ++ u "A b c" ++ nl
    /\ length (o_paraRanges o) = 3%nat
    /\ o_textRanges o <> [mkText 4 5 true false].
Proof.
  eexists. split; [vm_compute; reflexivity|]. simpl. repeat split; discriminate.
Qed.

(** C4 as amended: with Title promotion enabled, whatever the heading names
    and the subtitle mode, the scenario input yields the buffer [T\n\nA b c\n],
    the paragraph ranges [{0,1,TITLE}], [{2,2,normal}] and [{3,8,normal}], where
    normal is the configured default style ([NORMAL_TEXT] when none is), and the
    bold range [{5,6}]; read as blocks: a title [T], an empty paragraph, and a
    paragraph with the runs [A ], bold [b] and [ c]. *)
Theorem scenario_projection hd mode :
  exists o, mdToDocs (titled hd mode) scenario = Some o
    /\ o_plain o = u "T" ++ nl ++ nl ++ u "A b c" ++ nl
    /\ o_paraRanges o = [mkPara 0 1 (u "TITLE"); mkPara 2 2 (normal_style hd);
                         mkPara 3 8 (normal_style hd)]
    /\ o_textRanges o = [mkText 5 6 true false]
    /\ blocks_of o
       = [mkBlock (u "TITLE") [mkRun (u "T") false false];
          mkBlock (normal_style hd) [];
          mkBlock (normal_style hd)
            [mkRun (u "A ") false false; mkRun (u "b") true false;
             mkRun (u " c") false false]].
Proof.
  assert (H : mdToDocs (titled hd mode) scenario
              = Some {| o_plain := u "T" ++ nl ++ nl ++ u "A b c" ++ nl;
                        o_paraRanges := [mkPara 0 1 (u "TITLE"); mkPara 2 2 (normal_style hd);
                                         mkPara 3 8 (normal_style hd)];
                        o_textRanges := [mkText 5 6 true false] |}).
  { unfold mdToDocs, titled, normal_style, promoteSubtitle.
    destruct mode as [mode|]; simpl; [destruct (jstr_eqb mode _)|]; reflexivity. }
  eexists. split; [exact H|]. repeat split; reflexivity.
Qed.

Lemma normal_style_default : normal_style None = u "NORMAL_TEXT".
Proof. reflexivity. Qed.

End ScenarioFacts.

(** ** Text-style ranges *)

Module RangeFacts.
Import MdToDocs.

(** C7, at inputs where the code departs from the claim. With two bold spans
    on a line the second range is computed from an index in the line already
    rewritten, minus the markers removed so far: it starts at -2. With an
    italic span before a bold one, the bold range is recorded before the italic
    markers are removed and ends past the buffer, which has 4 characters. *)
Theorem text_ranges_leave_the_buffer :
  mdToDocs fallback_config (u "**a** **b**")
  = Some {| o_plain := u "a b" ++ nl;
            o_paraRanges := [mkPara 0 3 (u "NORMAL_TEXT")];
            o_textRanges := [mkText 0 1 true false; mkText (-2) (-1) true false] |}
  /\ mdToDocs fallback_config (u "*a* **b**")
     = Some {| o_plain := u "a b" ++ nl;
               o_paraRanges := [mkPara 0 3 (u "NORMAL_TEXT")];
               o_textRanges := [mkText 4 5 true false; mkText 0 1 false true] |}.
Proof. split; vm_compute; reflexivity. Qed.

End RangeFacts.

(** ** More on the converter *)

Module InlineFacts.
Import MdToDocs MdToDocsFacts.

Lemma span_Forall (P : N -> Prop) p s :
  Forall P s -> Forall P (span p s).1 /\ Forall P (span p s).2.
Proof.
  induction 1 as [|c s Hc Hs IH]; simpl; [by split|].
  destruct (p c); [|split; [constructor | by constructor]].
  destruct (span p s) as [a b]; simpl in *. destruct IH. split; [by constructor | done].
Qed.

Lemma eat_Forall (P : N -> Prop) c w s s' :
  eat c w s = Some s' -> Forall P s -> Forall P s'.
Proof.
  revert s; induction w as [|w IH]; intros s H Hs; simpl in H.
  - by inversion H; subst.
  - destruct s as [|d s]; [discriminate|]. destruct (d =? c)%N; [|discriminate].
    inversion Hs; subst. by eapply IH.
Qed.

Lemma match_here_Forall (P : N -> Prop) m s inner :
  match_here m s = Some inner -> Forall P s -> Forall P inner.
Proof.
  unfold match_here. intros H Hs.
  destruct (eat (m_char m) (m_width m) s) as [s1|] eqn:E1; [|discriminate].
  pose proof (eat_Forall P _ _ _ _ E1 Hs) as Hs1.
  pose proof (span_Forall P (fun d => negb (d =? m_char m)%N) s1 Hs1) as [Hi _].
  destruct (span _ s1) as [i s2]; simpl in *.
  destruct i as [|c i]; [discriminate|].
  destruct (eat (m_char m) (m_width m) s2); [|discriminate]. by inversion H; subst.
Qed.

Lemma search_Forall (P : N -> Prop) m s i index inner :
  search m s i = Some (index, inner) -> Forall P s -> Forall P inner.
Proof.
  revert i; induction s as [|c s IH]; intros i H Hs; simpl in H.
  - destruct (match_here m []) eqn:E; [|discriminate]. inversion H; subst.
    by eapply match_here_Forall.
  - destruct (match_here m (c :: s)) eqn:E.
    + inversion H; subst. by eapply match_here_Forall.
    + inversion Hs; subst. by eapply IH.
Qed.

Lemma exec_Forall (P : N -> Prop) m line lastIndex index inner :
  exec m line lastIndex = Some (index, inner) -> Forall P line -> Forall P inner.
Proof.
  unfold exec. destruct (length line <? lastIndex); [discriminate|].
  intros H Hl. eapply search_Forall; [exact H|]. by apply Forall_drop.
Qed.

(** An updater records the offsets it is given. *)
Definition records (upd : Z -> Z -> TextRange) : Prop :=
  forall s e, t_start (upd s e) = s /\ t_end (upd s e) = e.

Lemma records_bold : records push_bold.
Proof. by intros s e. Qed.

Lemma records_italic : records push_italic.
Proof. by intros s e. Qed.

(** What the loop of [applyInline] keeps: the ranges recorded before, the
    characters of the line; every range it adds is not empty and stands for
    two markers taken out of the line. *)
Lemma applyInline_loop_keeps (P : N -> Prop) fuel m upd cur :
  records upd ->
  forall line offset lastIndex ranges line' ranges',
  applyInline_loop fuel m upd cur line offset lastIndex ranges = Some (line', ranges') ->
  exists new,
    ranges' = ranges ++ new
    /\ Forall (fun r => (t_start r < t_end r)%Z) new
    /\ length line = (length line' + (m_width m + m_width m) * length new)%nat
    /\ (Forall P line -> Forall P line').
Proof.
  intros Hupd. induction fuel as [|fuel IH]; intros line offset lastIndex ranges line' ranges' H;
    simpl in H; destruct (exec m line lastIndex) as [[index inner]|] eqn:E;
    try discriminate.
  - inversion H; subst. exists []. rewrite app_nil_r. repeat split; auto. simpl. lia.
  - pose proof (exec_bounds _ _ _ _ _ E) as (E1 & E2 & E3).
    apply IH in H. destruct H as (new & -> & Hnew & Hlen & HP).
    destruct (Hupd (cur + (Z.of_nat index - Z.of_nat offset))%Z
                (cur + (Z.of_nat index - Z.of_nat offset + Z.of_nat (length inner)))%Z)
      as [Hs He].
    eexists (_ :: new). rewrite <- app_assoc. split; [reflexivity|].
    split; [constructor; [rewrite Hs, He; lia | exact Hnew]|]. split.
    + rewrite !length_app, length_take, length_drop in Hlen. simpl. lia.
    + intros Hl. apply HP. rewrite !Forall_app. split; [by apply Forall_take|].
      split; [by eapply exec_Forall | by apply Forall_drop].
  - inversion H; subst. exists []. rewrite app_nil_r. repeat split; auto. simpl. lia.
Qed.

(** X1. [applyInline] always comes to an end, keeps the ranges recorded so
    far, and shortens the line by the two markers of every range it adds, each
    of which is not empty. *)
Theorem applyInline_ends m cur line ranges :
  exists line' new,
    applyInline m push_bold cur line ranges = Some (line', ranges ++ new)
    /\ Forall (fun r => (t_start r < t_end r)%Z) new
    /\ length line = (length line' + (m_width m + m_width m) * length new)%nat.
Proof.
  destruct (applyInline_total m push_bold cur line ranges) as (line' & ranges' & H).
  destruct (applyInline_loop_keeps (fun _ => True) _ _ _ _ records_bold _ _ _ _ _ _ H)
    as (new & -> & Hnew & Hlen & _).
  by exists line', new.
Qed.

End InlineFacts.

Module BufferFacts.
Import MdToDocs MdToDocsFacts InlineFacts.

Definition no_break (l : jstr) : Prop := Forall (fun c => c <> 10%N) l.

(** The buffer made of the given paragraph texts, and the ranges they get. *)
Definition buffer_of (texts : list jstr) : jstr := concat (map (fun l => l ++ nl) texts).

Fixpoint ranges_of (from : Z) (texts : list jstr) : list (Z * Z) :=
  match texts with
  | [] => []
  | l :: rest =>
      (from, from + Z.of_nat (length l))%Z
      :: ranges_of (from + Z.of_nat (length l) + 1) rest
  end.

Lemma buffer_of_snoc texts l : buffer_of (texts ++ [l]) = buffer_of texts ++ l ++ nl.
Proof. unfold buffer_of. rewrite map_app, concat_app. simpl. by rewrite app_nil_r. Qed.

Lemma ranges_of_snoc texts l : forall from,
  ranges_of from (texts ++ [l])
  = ranges_of from texts
    ++ [((from + Z.of_nat (length (buffer_of texts)))%Z,
         (from + Z.of_nat (length (buffer_of texts)) + Z.of_nat (length l))%Z)].
Proof.
  induction texts as [|t texts IH]; intros from.
  - simpl. by rewrite !Z.add_0_r.
  - replace (Z.of_nat (length (buffer_of (t :: texts))))
      with (Z.of_nat (length t) + 1 + Z.of_nat (length (buffer_of texts)))%Z
      by (unfold buffer_of; simpl; rewrite !length_app; simpl; lia).
    simpl. rewrite IH. by rewrite !Z.add_assoc.
Qed.

Lemma split_nl_no_break s : Forall no_break (split_nl s).
Proof.
  induction s as [|c s IH]; simpl.
  - repeat constructor.
  - destruct (N.eqb_spec c 10).
    + constructor; [constructor | exact IH].
    + destruct (split_nl s) as [|l ls]; [repeat constructor; done|].
      inversion IH; subst. constructor; [by constructor | done].
Qed.

Lemma buffer_of_split s : buffer_of (split_nl s) = s ++ nl.
Proof.
  induction s as [|c s IH]; [reflexivity|]. simpl.
  destruct (N.eqb_spec c 10) as [->|_].
  - unfold buffer_of in *. simpl. by rewrite IH.
  - assert (Hne : split_nl s <> []) by (destruct s as [|d s]; simpl; [done|];
      destruct (d =? 10)%N; [done|]; by destruct (split_nl s)).
    destruct (split_nl s) as [|l ls]; [done|].
    unfold buffer_of in *. simpl in *. by rewrite IH.
Qed.

Lemma stripHeadingMarkers_Forall (P : N -> Prop) line :
  Forall P line -> Forall P (stripHeadingMarkers line).
Proof.
  intros H. unfold stripHeadingMarkers.
  pose proof (span_Forall P (fun c => (c =? hash)%N) line H) as [_ H1].
  destruct (span _ line) as [hs rest]; simpl in H1.
  pose proof (span_Forall P is_space rest H1) as [_ H2].
  destruct (span is_space rest) as [sp rest']; simpl in H2.
  by destruct (_ && _).
Qed.

(** What a line leaves of itself in the buffer. *)
Lemma inline_passes (P : N -> Prop) cur line ranges l3 r3 :
  ('(l1, r1) ← applyInline bold_re push_bold cur line ranges;
   '(l2, r2) ← applyInline italic_re push_italic cur l1 r1;
   applyInline underscore_re push_italic cur l2 r2) = Some (l3, r3) ->
  (Forall P line -> Forall P l3)
  /\ (Forall (fun r => (t_start r < t_end r)%Z) ranges ->
      Forall (fun r => (t_start r < t_end r)%Z) r3).
Proof.
  intros H.
  destruct (applyInline bold_re _ _ _ _) as [[l1 r1]|] eqn:E1; [|discriminate].
  simpl in H.
  destruct (applyInline italic_re _ _ _ _) as [[l2 r2]|] eqn:E2; [|discriminate].
  simpl in H.
  apply (applyInline_loop_keeps P _ _ _ _ records_bold) in E1.
  apply (applyInline_loop_keeps P _ _ _ _ records_italic) in E2.
  apply (applyInline_loop_keeps P _ _ _ _ records_italic) in H.
  destruct E1 as (n1 & -> & F1 & _ & P1), E2 as (n2 & -> & F2 & _ & P2),
    H as (n3 & -> & F3 & _ & P3).
  split; [auto|]. intros Hr. rewrite !Forall_app. auto.
Qed.

(** The state of the loop, as paragraph texts. *)
Definition state_lines (st : State) (texts : list jstr) : Prop :=
  plain st = buffer_of texts
  /\ Forall no_break texts
  /\ map (fun r => (p_start r, p_end r)) (paraRanges st) = ranges_of 0 texts
  /\ cursor st = Z.of_nat (length (plain st))
  /\ Forall (fun r => (t_start r < t_end r)%Z) (textRanges st).

Lemma step_lines cfg st original st' texts :
  no_break original -> state_lines st texts -> step cfg st original = Some st' ->
  exists texts', state_lines st' texts'.
Proof.
  intros Ho (Hp & Hn & Hr & Hc & Ht) H. unfold step in H.
  destruct (fenceMatch original).
  { inversion H; subst. exists texts. by repeat split. }
  set (line := if inFence st then original else stripHeadingMarkers original) in H.
  assert (Hline : no_break line).
  { unfold line. destruct (inFence st); [done|]. by apply stripHeadingMarkers_Forall. }
  destruct (applyInline bold_re _ _ _ _) as [[l1 r1]|] eqn:E1; [|discriminate].
  simpl in H.
  destruct (applyInline italic_re _ _ _ _) as [[l2 r2]|] eqn:E2; [|discriminate].
  simpl in H.
  destruct (applyInline underscore_re _ _ _ _) as [[l3 r3]|] eqn:E3; [|discriminate].
  simpl in H. inversion H; subst; clear H.
  destruct (inline_passes (fun c => c <> 10%N) (cursor st) line (textRanges st) l3 r3)
    as [Hl3 Hr3].
  { rewrite E1. simpl. rewrite E2. simpl. exact E3. }
  exists (texts ++ [l3]). unfold state_lines; simpl.
  rewrite buffer_of_snoc, ranges_of_snoc, map_app, Hp, Hr, Forall_app. simpl.
  rewrite Hc, Hp. repeat split; auto.
  - constructor; [by apply Hl3 | constructor].
  - rewrite !length_app. simpl. lia.
Qed.

Lemma loop_lines cfg lines : forall st st' texts,
  Forall no_break lines -> state_lines st texts -> loop cfg st lines = Some st' ->
  exists texts', state_lines st' texts'.
Proof.
  induction lines as [|l lines IH]; intros st st' texts Hl Hst H; simpl in H.
  - inversion H; subst. by exists texts.
  - inversion Hl; subst.
    destruct (step cfg st l) as [st1|] eqn:E; [|discriminate]. simpl in H.
    destruct (step_lines _ _ _ _ _ H2 Hst E) as (texts1 & Hst1).
    eapply IH; eauto.
Qed.

Lemma init_lines : state_lines init [].
Proof. by repeat split; try constructor. Qed.

(** X2. The converter always produces a result, and in it the buffer is the
    paragraph texts, each closed by one line feed and holding none itself; the
    paragraph ranges are the places of these texts in the buffer. *)
Theorem paragraphs_are_buffer_lines cfg md :
  exists o texts,
    mdToDocs cfg md = Some o
    /\ o_plain o = buffer_of texts
    /\ Forall no_break texts
    /\ map (fun r => (p_start r, p_end r)) (o_paraRanges o) = ranges_of 0 texts.
Proof.
  unfold mdToDocs.
  destruct (loop_total cfg (split_nl (replace_cr (replace_crlf md))) init) as (st & E).
  rewrite E. simpl.
  destruct (loop_lines _ _ _ _ _ (split_nl_no_break _) init_lines E)
    as (texts & Hp & Hn & Hr & _).
  eexists _, texts. split; [reflexivity|]. simpl.
  by rewrite ProjectionFacts.promoteSubtitle_shape, ProjectionFacts.promoteTitle_shape.
Qed.

(** X3. No text range of the result is empty: the start of each lies before
    its end. *)
Theorem text_ranges_not_empty cfg md :
  exists o,
    mdToDocs cfg md = Some o
    /\ Forall (fun r => (t_start r < t_end r)%Z) (o_textRanges o).
Proof.
  unfold mdToDocs.
  destruct (loop_total cfg (split_nl (replace_cr (replace_crlf md))) init) as (st & E).
  rewrite E. simpl.
  destruct (loop_lines _ _ _ _ _ (split_nl_no_break _) init_lines E)
    as (texts & _ & _ & _ & _ & Ht).
  eexists. split; [reflexivity|]. exact Ht.
Qed.

End BufferFacts.

Module CleanText.
Import MdToDocs MdToDocsFacts FenceFacts BufferFacts.

(** A character that is no carriage return and none of the characters the
    converter looks for. *)
Definition clean (c : N) : bool :=
  negb (c =? 13)%N && negb (c =? star)%N && negb (c =? underscore)%N
  && negb (c =? hash)%N && negb (c =? backtick)%N.

(** The style of a line that is no heading. *)
Definition default_style (cfg : Config) : jstr := paragraphStyleFor cfg [].

(** One paragraph of the given style for each line. *)
Fixpoint plain_paragraphs (style : jstr) (from : Z) (lines : list jstr) : list ParaRange :=
  match lines with
  | [] => []
  | l :: rest =>
      mkPara from (from + Z.of_nat (length l)) style
      :: plain_paragraphs style (from + Z.of_nat (length l) + 1) rest
  end.

Lemma clean_spec c :
  clean c = true ->
  c <> 13%N /\ c <> star /\ c <> underscore /\ c <> hash /\ c <> backtick.
Proof.
  unfold clean. rewrite !andb_true_iff, !negb_true_iff, !N.eqb_neq. tauto.
Qed.

Lemma replace_crlf_id s : Forall (fun c => c <> 13%N) s -> replace_crlf s = s.
Proof.
  induction 1 as [|c s Hc Hs IH]; [reflexivity|]. simpl.
  destruct (N.eqb_spec c 13); [done|]. by rewrite IH.
Qed.

Lemma replace_cr_id s : Forall (fun c => c <> 13%N) s -> replace_cr s = s.
Proof.
  induction 1 as [|c s Hc Hs IH]; [reflexivity|]. unfold replace_cr in *. simpl.
  destruct (N.eqb_spec c 13); [done|]. by rewrite IH.
Qed.

Lemma split_nl_Forall (P : N -> Prop) s : Forall P s -> Forall (Forall P) (split_nl s).
Proof.
  induction 1 as [|c s Hc Hs IH]; simpl.
  - repeat constructor.
  - destruct (c =? 10)%N; [constructor; [constructor | exact IH]|].
    destruct (split_nl s) as [|l ls]; [repeat constructor; done|].
    inversion IH; subst. constructor; [by constructor | done].
Qed.

Lemma fenceMatch_no_backtick line :
  Forall (fun c => c <> backtick) line -> fenceMatch line = None.
Proof.
  intros H. destruct line as [|c1 [|c2 [|c3 rest]]]; try reflexivity. simpl.
  inversion H; subst. by destruct (N.eqb_spec c1 backtick).
Qed.

Lemma stripHeadingMarkers_no_hash line :
  Forall (fun c => c <> hash) line -> stripHeadingMarkers line = line.
Proof.
  intros H. unfold stripHeadingMarkers. destruct line as [|c line]; [reflexivity|].
  inversion H; subst. simpl. destruct (N.eqb_spec c hash); [done|].
  by destruct (span is_space (c :: line)).
Qed.

Lemma paragraphStyleFor_no_hash cfg line :
  Forall (fun c => c <> hash) line -> paragraphStyleFor cfg line = default_style cfg.
Proof.
  intros H. unfold default_style, paragraphStyleFor. destruct line as [|c line]; [reflexivity|].
  inversion H; subst. simpl. by destruct (N.eqb_spec c hash).
Qed.

(** A line without markers is one paragraph, whatever the fence state. *)
Lemma step_verbatim cfg st line :
  fenceMatch line = None ->
  Forall (fun c => c <> star /\ c <> underscore) line ->
  (inFence st = false -> Forall (fun c => c <> hash) line) ->
  step cfg st line
  = Some (mkState (plain st ++ line ++ nl)
            (paraRanges st
             ++ [mkPara (cursor st) (cursor st + Z.of_nat (length line))
                   (if inFence st then u "CODEBLOCK" else default_style cfg)])
            (textRanges st) (cursor st + Z.of_nat (length line) + 1)
            (inFence st) (fenceLang st)).
Proof.
  intros Hm Hl Hh. destruct (inFence st) eqn:Hf.
  { rewrite fenced_line_without_markers; auto. }
  specialize (Hh eq_refl). unfold step. rewrite Hm, Hf.
  rewrite stripHeadingMarkers_no_hash, paragraphStyleFor_no_hash by done.
  rewrite (applyInline_no_marker bold_re); simpl; [|lia|].
  2:{ eapply Forall_impl; [exact Hl|]. simpl. tauto. }
  rewrite (applyInline_no_marker italic_re); simpl; [|lia|].
  2:{ eapply Forall_impl; [exact Hl|]. simpl. tauto. }
  rewrite (applyInline_no_marker underscore_re); simpl; [|lia|].
  2:{ eapply Forall_impl; [exact Hl|]. simpl. tauto. }
  reflexivity.
Qed.

Lemma loop_verbatim cfg lines : forall st,
  Forall (fun l => fenceMatch l = None) lines ->
  Forall (Forall (fun c => c <> star /\ c <> underscore)) lines ->
  (inFence st = false -> Forall (Forall (fun c => c <> hash)) lines) ->
  loop cfg st lines
  = Some (mkState (plain st ++ buffer_of lines)
            (paraRanges st
             ++ plain_paragraphs (if inFence st then u "CODEBLOCK" else default_style cfg)
                  (cursor st) lines)
            (textRanges st) (cursor st + Z.of_nat (length (buffer_of lines)))
            (inFence st) (fenceLang st)).
Proof.
  induction lines as [|l lines IH]; intros st Hm Hl Hh.
  - simpl. rewrite !app_nil_r, Z.add_0_r. by destruct st.
  - inversion Hm; subst. inversion Hl; subst. simpl.
    rewrite step_verbatim; auto.
    2:{ intros Hf. specialize (Hh Hf). by inversion Hh. }
    simpl. rewrite IH; auto.
    2:{ simpl. intros Hf. specialize (Hh Hf). by inversion Hh. }
    simpl.
    replace (buffer_of (l :: lines)) with (l ++ nl ++ buffer_of lines)
      by (unfold buffer_of; simpl; by rewrite <- app_assoc).
    rewrite <- !app_assoc, !length_app. simpl.
    f_equal. f_equal. lia.
Qed.

Lemma promoteSubtitle_nil cfg ps : promoteSubtitle cfg [] ps = ps.
Proof.
  unfold promoteSubtitle. destruct (subtitle_mode cfg); [|reflexivity].
  destruct ps as [|r0 [|second rest]]; try reflexivity. simpl.
  by destruct (jstr_eqb _ _).
Qed.

Lemma clean_text_converted cfg md :
  Forall (fun c => c <> 13%N /\ c <> star /\ c <> underscore
                   /\ c <> hash /\ c <> backtick) md ->
  mdToDocs cfg md
  = Some (mkOutput (md ++ nl)
            (promoteTitle cfg (plain_paragraphs (default_style cfg) 0 (split_nl md)))
            []).
Proof.
  intros Hc. unfold mdToDocs.
  rewrite replace_crlf_id, replace_cr_id
    by (eapply Forall_impl; [exact Hc|]; simpl; tauto).
  pose proof (split_nl_Forall _ _ Hc) as Hlines.
  rewrite loop_verbatim.
  - simpl. by rewrite promoteSubtitle_nil, buffer_of_split.
  - eapply Forall_impl; [exact Hlines|]. intros l Hl. apply fenceMatch_no_backtick.
    eapply Forall_impl; [exact Hl|]. simpl. tauto.
  - eapply Forall_impl; [exact Hlines|]. intros l Hl.
    eapply Forall_impl; [exact Hl|]. simpl. tauto.
  - intros _. eapply Forall_impl; [exact Hlines|]. intros l Hl.
    eapply Forall_impl; [exact Hl|]. simpl. tauto.
Qed.

(** X4. A text without a carriage return and without [*], [_], [#] and the
    backtick goes to the document as it is, closed by one line feed: one
    paragraph of the default style per line, the first one the title when
    titles are configured, and no text range. *)
Theorem clean_text_passes_through cfg md :
  forallb clean md = true ->
  mdToDocs cfg md
  = Some (mkOutput (md ++ nl)
            (promoteTitle cfg (plain_paragraphs (default_style cfg) 0 (split_nl md)))
            []).
Proof.
  intros H. apply clean_text_converted.
  induction md as [|c md IH]; [constructor|]. simpl in H.
  apply andb_true_iff in H as [H1 H2]. constructor; [by apply clean_spec | auto].
Qed.

(** [clean_text_passes_through] applies to a text of three lines, the second
    one empty. *)
Lemma clean_text_passes_through_witness :
  mdToDocs fallback_config (u "one" ++ nl ++ nl ++ u "two words")
  = Some (mkOutput (u "one" ++ nl ++ nl ++ u "two words" ++ nl)
            [mkPara 0 3 (u "NORMAL_TEXT"); mkPara 4 4 (u "NORMAL_TEXT");
             mkPara 5 14 (u "NORMAL_TEXT")] []).
Proof.
  rewrite (clean_text_passes_through fallback_config (u "one" ++ nl ++ nl ++ u "two words"));
    reflexivity.
Defined.

End CleanText.

Module VersionFacts.
Import MdToDocs.

Definition is_fence (line : jstr) : bool :=
  match fenceMatch line with
  | Some _ => true
  | None => false
  end.

(** What the later script adds after the loop. *)
Definition promoted (cfg : Config) (o : Output) : Output :=
  mkOutput (o_plain o)
    (promoteSubtitle cfg (o_textRanges o) (promoteTitle cfg (o_paraRanges o)))
    (o_textRanges o).

Lemma step_agrees cfg st line :
  inFence st = false -> is_fence line = false ->
  step cfg st line = MdToDocsV1.step cfg st line.
Proof.
  unfold is_fence, step, MdToDocsV1.step. intros -> H.
  by destruct (fenceMatch line).
Qed.

Lemma step_V1_fence cfg st line st' :
  MdToDocsV1.step cfg st line = Some st' -> inFence st' = inFence st.
Proof.
  unfold MdToDocsV1.step. intros H.
  destruct (applyInline bold_re _ _ _ _) as [[l1 r1]|]; [|discriminate]. simpl in H.
  destruct (applyInline italic_re _ _ _ _) as [[l2 r2]|]; [|discriminate]. simpl in H.
  destruct (applyInline underscore_re _ _ _ _) as [[l3 r3]|]; [|discriminate].
  simpl in H. by inversion H; subst.
Qed.

Lemma loop_agrees cfg lines : forall st,
  inFence st = false -> existsb is_fence lines = false ->
  loop cfg st lines = MdToDocsV1.loop cfg st lines.
Proof.
  induction lines as [|l lines IH]; intros st Hf H; [reflexivity|].
  simpl in H. apply orb_false_iff in H as [H1 H2]. simpl.
  rewrite step_agrees by done.
  destruct (MdToDocsV1.step cfg st l) as [st1|] eqn:E; [|reflexivity]. simpl.
  apply IH; [|done]. by rewrite (step_V1_fence _ _ _ _ E).
Qed.

(** X5. On a text none of whose lines is a fence, the converter with fenced
    code gives what the converter before it gives, followed by the promotion
    of title and subtitle. *)
Theorem fences_apart_versions_agree cfg md :
  existsb is_fence (split_nl (replace_cr (replace_crlf md))) = false ->
  mdToDocs cfg md = promoted cfg <$> MdToDocsV1.mdToDocs cfg md.
Proof.
  intros H. unfold mdToDocs, MdToDocsV1.mdToDocs.
  rewrite loop_agrees by done.
  by destruct (MdToDocsV1.loop cfg init _).
Qed.

(** [fences_apart_versions_agree] applies to a heading followed by a line with
    bold text and inline code. *)
Lemma fences_apart_versions_agree_witness :
  mdToDocs fallback_config (u "# T" ++ nl ++ u "a **b** `c`")
  = promoted fallback_config
    <$> MdToDocsV1.mdToDocs fallback_config (u "# T" ++ nl ++ u "a **b** `c`").
Proof.
  apply (fences_apart_versions_agree fallback_config (u "# T" ++ nl ++ u "a **b** `c`")).
  reflexivity.
Defined.

End VersionFacts.

Module LineEndFacts.
Import MdToDocs CleanText.

(** The same text with Windows and with old Macintosh line ends. *)
Definition with_crlf (s : jstr) : jstr :=
  flat_map (fun c => if (c =? 10)%N then [13%N; 10%N] else [c]) s.

Definition with_cr (s : jstr) : jstr :=
  map (fun c => if (c =? 10)%N then 13%N else c) s.

Lemma replace_crlf_with_crlf s :
  Forall (fun c => c <> 13%N) s -> replace_crlf (with_crlf s) = s.
Proof.
  induction 1 as [|c s Hc Hs IH]; [reflexivity|]. unfold with_crlf in *. simpl.
  destruct (N.eqb_spec c 10) as [->|Hn]; simpl.
  - by rewrite IH.
  - destruct (N.eqb_spec c 13); [done|]. by rewrite IH.
Qed.

Lemma replace_crlf_no_lf s : Forall (fun c => c <> 10%N) s -> replace_crlf s = s.
Proof.
  induction 1 as [|c s Hc Hs IH]; [reflexivity|]. simpl. rewrite IH.
  destruct (c =? 13)%N; [|reflexivity].
  destruct Hs as [|d s Hd Hs]; [reflexivity|]. by destruct (N.eqb_spec d 10).
Qed.

Lemma replace_crlf_with_cr s : replace_crlf (with_cr s) = with_cr s.
Proof.
  apply replace_crlf_no_lf. unfold with_cr.
  induction s as [|c s IH]; simpl; constructor; [|done].
  by destruct (N.eqb_spec c 10).
Qed.

Lemma replace_cr_with_cr s :
  Forall (fun c => c <> 13%N) s -> replace_cr (with_cr s) = s.
Proof.
  induction 1 as [|c s Hc Hs IH]; [reflexivity|]. unfold replace_cr, with_cr in *. simpl.
  rewrite IH. destruct (N.eqb_spec c 10) as [->|Hn]; simpl; [reflexivity|].
  by destruct (N.eqb_spec c 13).
Qed.

(** X6. The converter does not tell line ends apart: a text without carriage
    returns gives the same result with [\r\n] or with [\r] in the place of
    every [\n]. *)
Theorem line_ends_do_not_matter cfg md :
  forallb (fun c => negb (c =? 13)%N) md = true ->
  mdToDocs cfg (with_crlf md) = mdToDocs cfg md
  /\ mdToDocs cfg (with_cr md) = mdToDocs cfg md.
Proof.
  intros H.
  assert (Hc : Forall (fun c => c <> 13%N) md).
  { induction md as [|c md IH]; [constructor|]. simpl in H.
    apply andb_true_iff in H as [H1 H2]. constructor; [|auto].
    by apply negb_true_iff, N.eqb_neq in H1. }
  unfold mdToDocs.
  rewrite replace_crlf_with_crlf, replace_crlf_with_cr, replace_cr_with_cr by done.
  by rewrite replace_crlf_id, replace_cr_id.
Qed.

(** [line_ends_do_not_matter] applies to a heading followed by an italic line.
    *)
Lemma line_ends_do_not_matter_witness :
  mdToDocs fallback_config (u "# T" ++ [13%N; 10%N] ++ u "*a*")
  = mdToDocs fallback_config (u "# T" ++ nl ++ u "*a*")
  /\ mdToDocs fallback_config (u "# T" ++ [13%N] ++ u "*a*")
     = mdToDocs fallback_config (u "# T" ++ nl ++ u "*a*").
Proof.
  apply (line_ends_do_not_matter fallback_config (u "# T" ++ nl ++ u "*a*")).
  reflexivity.
Defined.

End LineEndFacts.

Module FencedBlocks.
Import MdToDocs MdToDocsFacts FenceFacts BufferFacts CleanText VersionFacts.

(** A character of a line: no line end. *)
Definition line_char (c : N) : bool := negb (c =? 10)%N && negb (c =? 13)%N.

(** A character of a code text that the converter leaves alone. *)
Definition code_char (c : N) : bool :=
  negb (c =? 13)%N && negb (c =? star)%N && negb (c =? underscore)%N
  && negb (c =? backtick)%N.

Lemma forallb_Forall {A} (f : A -> bool) (l : list A) :
  forallb f l = true -> Forall (fun c => f c = true) l.
Proof.
  induction l as [|c l IH]; [constructor|]. simpl. intros H.
  apply andb_true_iff in H as [H1 H2]. constructor; auto.
Qed.

Lemma line_char_spec c : line_char c = true -> c <> 10%N /\ c <> 13%N.
Proof. unfold line_char. rewrite andb_true_iff, !negb_true_iff, !N.eqb_neq. tauto. Qed.

Lemma code_char_spec c :
  code_char c = true -> c <> 13%N /\ c <> star /\ c <> underscore /\ c <> backtick.
Proof.
  unfold code_char. rewrite !andb_true_iff, !negb_true_iff, !N.eqb_neq. tauto.
Qed.

Lemma split_nl_line a : no_break a -> split_nl a = [a].
Proof.
  induction 1 as [|c a Hc Ha IH]; [reflexivity|]. simpl.
  destruct (N.eqb_spec c 10); [done|]. by rewrite IH.
Qed.

Lemma split_nl_app s t : split_nl (s ++ 10%N :: t) = split_nl s ++ split_nl t.
Proof.
  induction s as [|c s IH]; [reflexivity|]. simpl.
  destruct (c =? 10)%N; [by rewrite IH|]. rewrite IH.
  assert (Hne : split_nl s <> []) by (destruct s as [|d s]; simpl; [done|];
    destruct (d =? 10)%N; [done|]; by destruct (split_nl s)).
  by destruct (split_nl s).
Qed.

Lemma loop_app cfg l1 : forall st l2,
  loop cfg st (l1 ++ l2) = st' ← loop cfg st l1; loop cfg st' l2.
Proof.
  induction l1 as [|l l1 IH]; intros st l2; [reflexivity|]. simpl.
  destruct (step cfg st l); [apply IH | reflexivity].
Qed.

(** X7. A fenced block whose code holds no [*], [_] or backtick goes to the
    document as it is: the two fence lines give no paragraph, every line of
    the code is one paragraph of style CODEBLOCK (the first one the title when
    titles are configured), heading markers are kept, and there is no text
    range. *)
Theorem fenced_block_verbatim cfg opening code closing :
  is_fence opening = true -> forallb line_char opening = true ->
  is_fence closing = true -> forallb line_char closing = true ->
  forallb code_char code = true ->
  mdToDocs cfg (opening ++ nl ++ code ++ nl ++ closing)
  = Some (mkOutput (code ++ nl)
            (promoteTitle cfg (plain_paragraphs (u "CODEBLOCK") 0 (split_nl code)))
            []).
Proof.
  intros Ho Hol Hc Hcl Hcode.
  apply forallb_Forall in Hol, Hcl, Hcode.
  assert (Ho' : Forall (fun c => c <> 10%N /\ c <> 13%N) opening)
    by (eapply Forall_impl; [exact Hol | apply line_char_spec]).
  assert (Hc' : Forall (fun c => c <> 10%N /\ c <> 13%N) closing)
    by (eapply Forall_impl; [exact Hcl | apply line_char_spec]).
  assert (Hcode' : Forall (fun c => c <> 13%N /\ c <> star /\ c <> underscore
                                    /\ c <> backtick) code)
    by (eapply Forall_impl; [exact Hcode | apply code_char_spec]).
  clear Hol Hcl Hcode.
  assert (Hcr : Forall (fun c => c <> 13%N) (opening ++ nl ++ code ++ nl ++ closing)).
  { rewrite !Forall_app. repeat split.
    - eapply Forall_impl; [exact Ho'|]. simpl. tauto.
    - by repeat constructor.
    - eapply Forall_impl; [exact Hcode'|]. simpl. tauto.
    - by repeat constructor.
    - eapply Forall_impl; [exact Hc'|]. simpl. tauto. }
  unfold mdToDocs. rewrite replace_crlf_id, replace_cr_id by done.
  change (opening ++ nl ++ code ++ nl ++ closing)
    with (opening ++ 10%N :: (code ++ 10%N :: closing)).
  rewrite !split_nl_app.
  rewrite (split_nl_line opening), (split_nl_line closing)
    by (eapply Forall_impl; [eassumption|]; simpl; tauto).
  pose proof (split_nl_Forall _ _ Hcode') as Hlines.
  unfold is_fence in Ho, Hc.
  destruct (fenceMatch opening) as [lang|] eqn:Eo; [|discriminate].
  destruct (fenceMatch closing) as [lang'|] eqn:Ec; [|discriminate].
  simpl. rewrite (fence_line_consumed _ _ _ _ Eo). simpl.
  rewrite loop_app, loop_verbatim; simpl.
  - rewrite (fence_line_consumed _ _ _ _ Ec). simpl.
    by rewrite promoteSubtitle_nil, buffer_of_split.
  - eapply Forall_impl; [exact Hlines|]. intros l Hl. apply fenceMatch_no_backtick.
    eapply Forall_impl; [exact Hl|]. simpl. tauto.
  - eapply Forall_impl; [exact Hlines|]. intros l Hl.
    eapply Forall_impl; [exact Hl|]. simpl. tauto.
  - discriminate.
Qed.

(** [fenced_block_verbatim] applies to a block of two lines tagged [js], the
    first one starting with a hash. *)
Lemma fenced_block_verbatim_witness :
  mdToDocs fallback_config (u "```js" ++ nl ++ (u "# x" ++ nl ++ u "y") ++ nl ++ u "```")
  = Some (mkOutput (u "# x" ++ nl ++ u "y" ++ nl)
            [mkPara 0 3 (u "CODEBLOCK"); mkPara 4 5 (u "CODEBLOCK")] []).
Proof.
  rewrite (fenced_block_verbatim fallback_config (u "```js") (u "# x" ++ nl ++ u "y")
             (u "```")); reflexivity.
Defined.

End FencedBlocks.

Module StyleRequestFacts.
Import Js Docs MdToDocs MdToDocsFacts StyleRequests.

(** The range of a request, as sent. *)
Definition request_range (q : StyleRequest) : Z * Z :=
  match q with
  | UpdateParagraphStyle _ s e _ _ => (s, e)
  | UpdateTextStyle _ s e _ _ _ => (s, e)
  | UpdateFontFamily _ s e _ _ => (s, e)
  end.

(** The range lies in the text inserted at index 1. *)
Definition fits (len : nat) (q : StyleRequest) : Prop :=
  (1 <= (request_range q).1 /\ (request_range q).1 <= (request_range q).2
   /\ (request_range q).2 <= Z.of_nat len)%Z.

Lemma filter_all {A} (f : A -> bool) (l : list A) :
  Forall (fun x => f x = true) l -> List.filter f l = l.
Proof. induction 1 as [|x l Hx Hl IH]; simpl; [done|]. by rewrite Hx, IH. Qed.

Lemma Forall_filter_list {A} (P : A -> Prop) (f : A -> bool) (l : list A) :
  Forall P l -> Forall P (List.filter f l).
Proof.
  induction 1 as [|x l Hx Hl IH]; simpl; [constructor|].
  destruct (f x); [by constructor | done].
Qed.

(** X8. The converter's paragraph ranges never fail the test [r.end >=
    r.start] of the script: there is one paragraph request per paragraph, and
    the ranges of the paragraph requests and of the code font requests lie in
    the inserted text. *)
Theorem paragraph_requests_fit cfg md tab :
  exists o,
    mdToDocs cfg md = Some o
    /\ map request_range (paraReqs tab (o_paraRanges o))
       = map (fun r => (p_start r + 1, p_end r + 1)%Z) (o_paraRanges o)
    /\ Forall (fits (length (o_plain o)))
         (paraReqs tab (o_paraRanges o) ++ codeMonoReqs tab (o_paraRanges o)).
Proof.
  destruct (mdToDocs_total cfg md) as (o & E). exists o. split; [exact E|].
  destruct (ProjectionFacts.paragraph_ranges_fit _ _ _ E) as (_ & Hfit).
  assert (Hall : List.filter (fun r => (p_start r <=? p_end r)%Z) (o_paraRanges o)
                 = o_paraRanges o).
  { apply filter_all. eapply Forall_impl; [exact Hfit|]. simpl. intros r ?. lia. }
  unfold paraReqs, codeMonoReqs. rewrite Hall. split.
  - rewrite map_map. reflexivity.
  - rewrite Forall_app. split.
    + rewrite Forall_map. eapply Forall_impl; [exact Hfit|].
      intros r Hr. simpl in Hr. unfold fits. simpl. lia.
    + rewrite Forall_map. apply Forall_filter_list.
      eapply Forall_impl; [exact Hfit|]. intros r Hr. simpl in Hr. unfold fits. simpl. lia.
Qed.

End StyleRequestFacts.

Module HeadingFacts.
Import MdToDocs MdToDocsFacts FenceFacts CleanText.

(** The style of a heading line with [n] hashes: only the first three levels
    have a style of their own. *)
Definition level_style (cfg : Config) (n : nat) : jstr :=
  let h := match headings cfg with
           | Some h => h
           | None => mkHeadings None None None None
           end in
  match n with
  | 1 => or_else (h1 h) (u "HEADING_1")
  | 2 => or_else (h2 h) (u "HEADING_2")
  | 3 => or_else (h3 h) (u "HEADING_3")
  | _ => or_else (h_default h) (u "NORMAL_TEXT")
  end.

(** A character of a heading text that the converter leaves alone. *)
Definition text_char (c : N) : bool := clean c && negb (c =? 10)%N.

Definition starts_with_space (s : jstr) : bool :=
  match s with
  | c :: _ => is_space c
  | [] => false
  end.

Lemma span_repeat (p : N -> bool) c n rest :
  p c = true ->
  span p (repeat c n ++ rest) = (repeat c n ++ (span p rest).1, (span p rest).2).
Proof.
  intros Hc. induction n as [|n IH]; simpl.
  - by destruct (span p rest).
  - rewrite Hc, IH. reflexivity.
Qed.

Lemma span_no_space text : starts_with_space text = false -> span is_space text = ([], text).
Proof. destruct text as [|c text]; [reflexivity|]. simpl. by intros ->. Qed.

Lemma strip_level n text :
  (1 <= n <= 6)%nat -> starts_with_space text = false ->
  stripHeadingMarkers (repeat hash n ++ 32%N :: text) = text.
Proof.
  intros Hn Hs. unfold stripHeadingMarkers.
  rewrite (span_repeat (fun c => (c =? hash)%N) hash n) by reflexivity.
  change (span (fun c => (c =? hash)%N) (32%N :: text)) with (@nil N, 32%N :: text).
  cbn [fst snd]. rewrite app_nil_r, repeat_length.
  change (span is_space (32%N :: text))
    with (let '(a, b) := span is_space text in (32%N :: a, b)).
  rewrite (span_no_space _ Hs). cbn [length].
  destruct (Nat.leb_spec 1 n); [|lia]. destruct (Nat.leb_spec n 6); [|lia]. reflexivity.
Qed.

Lemma test_hashes_level text : forall k n,
  test_hashes k (repeat hash n ++ 32%N :: text) = (k =? n)%nat.
Proof.
  induction k as [|k IH]; intros [|n]; try reflexivity.
  simpl. rewrite IH. reflexivity.
Qed.

Lemma style_level cfg n text :
  paragraphStyleFor cfg (repeat hash n ++ 32%N :: text) = level_style cfg n.
Proof.
  unfold paragraphStyleFor, level_style. rewrite !test_hashes_level.
  by destruct n as [|[|[|[|n]]]].
Qed.

(** X10. A line of one to six hashes, a space and a text loses its markers;
    it gets the style of its level when the level is 1, 2 or 3, and the default
    style, as any other line, when the level is 4, 5 or 6. *)
Theorem heading_levels cfg n text :
  (1 <= n <= 6)%nat ->
  forallb text_char text = true -> starts_with_space text = false ->
  mdToDocs cfg (repeat hash n ++ 32%N :: text)
  = Some (mkOutput (text ++ nl)
            (promoteTitle cfg [mkPara 0 (Z.of_nat (length text)) (level_style cfg n)])
            []).
Proof.
  intros Hn Ht Hs.
  assert (Hc : Forall (fun c => c <> 13%N /\ c <> star /\ c <> underscore
                                /\ c <> backtick /\ c <> 10%N) text).
  { clear Hs. induction text as [|c text IH]; [constructor|]. simpl in Ht.
    apply andb_true_iff in Ht as [H1 H2]. constructor; [|by apply IH].
    unfold text_char in H1. apply andb_true_iff in H1 as [H1 H3].
    apply clean_spec in H1. apply negb_true_iff, N.eqb_neq in H3. tauto. }
  clear Ht.
  assert (Hline : Forall (fun c => c <> 13%N /\ c <> backtick /\ c <> 10%N)
                    (repeat hash n ++ 32%N :: text)).
  { rewrite Forall_app. split.
    - clear. induction n; simpl; constructor; [by repeat split | done].
    - constructor; [by repeat split|]. eapply Forall_impl; [exact Hc|]. simpl. tauto. }
  unfold mdToDocs.
  rewrite replace_crlf_id, replace_cr_id
    by (eapply Forall_impl; [exact Hline|]; simpl; tauto).
  rewrite FencedBlocks.split_nl_line
    by (eapply Forall_impl; [exact Hline|]; simpl; tauto).
  cbn [loop]. unfold step.
  rewrite fenceMatch_no_backtick
    by (eapply Forall_impl; [exact Hline|]; simpl; tauto).
  cbn [init inFence textRanges cursor plain paraRanges fenceLang].
  rewrite style_level, (strip_level n text Hn Hs).
  rewrite (applyInline_no_marker bold_re); simpl; [|lia|].
  2:{ eapply Forall_impl; [exact Hc|]. simpl. tauto. }
  rewrite (applyInline_no_marker italic_re); simpl; [|lia|].
  2:{ eapply Forall_impl; [exact Hc|]. simpl. tauto. }
  rewrite (applyInline_no_marker underscore_re); simpl; [|lia|].
  2:{ eapply Forall_impl; [exact Hc|]. simpl. tauto. }
  by rewrite promoteSubtitle_nil.
Qed.

(** [heading_levels] applies to a heading of level 4. *)
Lemma heading_levels_witness :
  mdToDocs fallback_config (u "#### Deep")
  = Some (mkOutput (u "Deep" ++ nl) [mkPara 0 4 (u "NORMAL_TEXT")] []).
Proof.
  apply (heading_levels fallback_config 4 (u "Deep")); [lia | reflexivity | reflexivity].
Defined.

End HeadingFacts.

(** ** Objects *)

Module JsFacts.
Import Js.

Lemma key_eqb_eq a b : key_eqb a b = true <-> a = b.
Proof. unfold key_eqb. apply bool_decide_eq_true. Qed.

Lemma key_eqb_refl a : key_eqb a a = true.
Proof. by apply key_eqb_eq. Qed.

Lemma key_eqb_ne a b : a <> b -> key_eqb a b = false.
Proof. unfold key_eqb. apply bool_decide_eq_false_2. Qed.

Lemma obj_get_nil k : obj_get [] k = None.
Proof. reflexivity. Qed.

Lemma obj_get_cons k k' v o :
  obj_get ((k', v) :: o) k = if key_eqb k' k then Some v else obj_get o k.
Proof. unfold obj_get. simpl. by destruct (key_eqb k' k). Qed.

Lemma obj_get_app o1 o2 k :
  obj_get (o1 ++ o2) k = match obj_get o1 k with Some v => Some v | None => obj_get o2 k end.
Proof.
  induction o1 as [|[k' v'] o1 IH]; [reflexivity|].
  simpl. rewrite !obj_get_cons. by destruct (key_eqb k' k).
Qed.

Lemma obj_get_replace_eq k v o w :
  obj_get o k = Some w -> obj_get (obj_replace k v o) k = Some v.
Proof.
  induction o as [|[k' v'] o IH]; [discriminate|].
  rewrite obj_get_cons. simpl. destruct (key_eqb k' k) eqn:E.
  - intros _. by rewrite obj_get_cons, key_eqb_refl.
  - intros H. rewrite obj_get_cons, E. by apply IH.
Qed.

Lemma obj_get_replace_ne k v o k' :
  k <> k' -> obj_get (obj_replace k v o) k' = obj_get o k'.
Proof.
  intros Hne. induction o as [|[k2 v2] o IH]; [reflexivity|].
  simpl. destruct (key_eqb k2 k) eqn:E.
  - apply key_eqb_eq in E; subst k2. rewrite !obj_get_cons. by rewrite key_eqb_ne.
  - rewrite !obj_get_cons, IH. reflexivity.
Qed.

Lemma obj_get_insert_index n k v o k' :
  obj_get o k = None ->
  obj_get (obj_insert_index n k v o) k'
  = if key_eqb k k' then Some v else obj_get o k'.
Proof.
  induction o as [|[k2 v2] o IH]; simpl; intros Hnone.
  - by rewrite obj_get_cons, obj_get_nil.
  - rewrite obj_get_cons in Hnone.
    destruct (key_eqb k2 k) eqn:E2; [discriminate|].
    assert (Hfront : obj_get ((k, v) :: (k2, v2) :: o) k'
                     = if key_eqb k k' then Some v else obj_get ((k2, v2) :: o) k').
    { by rewrite obj_get_cons. }
    destruct (array_index k2) as [n'|]; [|exact Hfront].
    destruct (n' <? n)%N; [|exact Hfront].
    rewrite !obj_get_cons, (IH Hnone).
    destruct (key_eqb k k') eqn:E; [|reflexivity].
    apply key_eqb_eq in E; subst k'. by rewrite E2.
Qed.

Lemma obj_get_set k v o k' :
  obj_get (obj_set k v o) k' = if key_eqb k k' then Some v else obj_get o k'.
Proof.
  unfold obj_set. destruct (obj_get o k) as [w|] eqn:E.
  - destruct (key_eqb k k') eqn:E'.
    + apply key_eqb_eq in E'; subst k'. by eapply obj_get_replace_eq.
    + apply obj_get_replace_ne. intros ->. by rewrite key_eqb_refl in E'.
  - destruct (array_index k) as [n|].
    + by apply obj_get_insert_index.
    + rewrite obj_get_app, obj_get_cons, obj_get_nil.
      destruct (key_eqb k k') eqn:E'.
      * apply key_eqb_eq in E'; subst k'. by rewrite E.
      * by destruct (obj_get o k').
Qed.

Lemma obj_get_set_eq k v o : obj_get (obj_set k v o) k = Some v.
Proof. by rewrite obj_get_set, key_eqb_refl. Qed.


(** The last value a list of assignments gives to a key. *)
Definition last_assigned (l : obj) (k : jstr) : option value := obj_get (rev l) k.

Lemma obj_get_fold_set l acc k :
  obj_get (fold_left (fun a p => obj_set (fst p) (snd p) a) l acc) k
  = match last_assigned l k with Some v => Some v | None => obj_get acc k end.
Proof.
  revert acc; induction l as [|[k' v'] l IH]; intros acc; [reflexivity|].
  simpl. rewrite IH. unfold last_assigned. simpl.
  rewrite obj_get_app, obj_get_cons, obj_get_nil, obj_get_set.
  destruct (obj_get (rev l) k); [reflexivity|]. by destruct (key_eqb k' k).
Qed.

Lemma obj_get_not_in o k : k ∉ o.*1 -> obj_get o k = None.
Proof.
  induction o as [|[k' v'] o IH]; [reflexivity|].
  rewrite fmap_cons, not_elem_of_cons. simpl. intros [H1 H2].
  rewrite obj_get_cons, key_eqb_ne; [by apply IH | congruence].
Qed.

(** An object has no two properties of the same name: the last value
    assigned is then the value of the property. *)
Lemma last_assigned_NoDup o k : NoDup o.*1 -> last_assigned o k = obj_get o k.
Proof.
  unfold last_assigned. induction o as [|[k' v'] o IH]; [reflexivity|].
  rewrite fmap_cons, NoDup_cons. simpl. intros [Hnot Hnd].
  rewrite obj_get_app, obj_get_cons, obj_get_nil, (IH Hnd), obj_get_cons.
  destruct (key_eqb k' k) eqn:E.
  - apply key_eqb_eq in E; subst k'. by rewrite (obj_get_not_in _ _ Hnot).
  - by destruct (obj_get o k).
Qed.

(** [{ ...a, ...b }] holds the properties of [b], and those of [a] that [b]
    does not have. *)
Lemma spread2_get a b k :
  NoDup a.*1 -> NoDup b.*1 ->
  obj_get (spread2 (Some (VObj a)) (Some (VObj b))) k
  = match obj_get b k with Some v => Some v | None => obj_get a k end.
Proof.
  intros Ha Hb. unfold spread2. simpl. rewrite fold_left_app, !obj_get_fold_set.
  rewrite obj_get_nil, (last_assigned_NoDup _ _ Ha), (last_assigned_NoDup _ _ Hb).
  destruct (obj_get b k); [reflexivity|]. by destruct (obj_get a k).
Qed.


(** *** Reading and writing properties *)

Lemma inherited_obj o k :
  inherited (VObj o) k = if in_object_prototype k then Some (VBuiltin k) else None.
Proof. reflexivity. Qed.

Lemma member_own o k v : obj_get o k = Some v -> member o k = Some v.
Proof. unfold member. by intros ->. Qed.

(** A key that is the name of no inherited member is read among the own
    properties. *)
Lemma member_plain o k : in_object_prototype k = false -> member o k = obj_get o k.
Proof. unfold member. rewrite inherited_obj. intros ->. by destruct (obj_get o k). Qed.

Lemma assigned_own k x o v : obj_get o k = Some v -> assigned k x o = obj_set k x o.
Proof. unfold assigned. by intros ->. Qed.

Lemma assigned_plain k x o : in_object_prototype k = false -> assigned k x o = obj_set k x o.
Proof.
  unfold assigned. intros H. destruct (obj_get o k); [done|].
  destruct (key_eqb k k_proto) eqn:E; [|done].
  apply key_eqb_eq in E; subst k. discriminate.
Qed.

(** The key is an own property of [o], or the name of no inherited member:
    reads and writes of it go to the own properties. *)
Definition direct (o : obj) (k : jstr) : bool :=
  match obj_get o k with
  | Some _ => true
  | None => negb (in_object_prototype k)
  end.

Lemma member_direct o k : direct o k = true -> member o k = obj_get o k.
Proof.
  unfold direct, member. rewrite inherited_obj. destruct (obj_get o k); [done|].
  by destruct (in_object_prototype k).
Qed.

Lemma assigned_direct k x o : direct o k = true -> assigned k x o = obj_set k x o.
Proof.
  unfold direct. destruct (obj_get o k) eqn:E; intros H.
  - by eapply assigned_own.
  - apply assigned_plain. by destruct (in_object_prototype k).
Qed.

(** The fixed property names of the scripts are direct. *)
Ltac fields :=
  repeat match goal with
         | |- context [member ?o ?k] => rewrite (member_plain o k) by reflexivity
         | |- context [assigned ?k ?x ?o] => rewrite (assigned_plain k x o) by reflexivity
         end.

End JsFacts.

(** ** The binding store *)

Module MappingFacts.
Import Js JsFacts Mapping.

Lemma notes_ne_notebooks : key_eqb k_notes k_notebooks = false.
Proof. reflexivity. Qed.

Lemma notebooks_ne_notes : key_eqb k_notebooks k_notes = false.
Proof. reflexivity. Qed.

(** [if (!data[k]) data[k] = {}] *)
Definition fill (k : jstr) (o : obj) : obj :=
  if truthy_opt (obj_get o k) then o else obj_set k (VObj []) o.

(** [loadMapping] on a file that holds an object. *)
Lemma loadMapping_obj o :
  loadMapping (Content (Json (VObj o)))
  = if negb (truthy_opt (obj_get o k_notes)) && negb (truthy_opt (obj_get o k_notebooks))
    then VObj [(k_notes, VObj o); (k_notebooks, VObj [])]
    else VObj (fill k_notebooks (fill k_notes o)).
Proof.
  unfold loadMapping, loadMapping_try, fill. simpl. fields.
  destruct (truthy_opt (obj_get o k_notes)) eqn:Tn; simpl; fields.
  - destruct (truthy_opt (obj_get o k_notebooks)) eqn:Tnb; simpl; fields; reflexivity.
  - destruct (truthy_opt (obj_get o k_notebooks)) eqn:Tnb; simpl; fields; [|reflexivity].
    rewrite obj_get_set, notes_ne_notebooks, Tnb. simpl. by fields.
Qed.

Lemma fill_get k o k' :
  obj_get (fill k o) k'
  = if key_eqb k k' && negb (truthy_opt (obj_get o k)) then Some (VObj []) else obj_get o k'.
Proof.
  unfold fill. destruct (truthy_opt (obj_get o k)); simpl.
  - by rewrite andb_false_r.
  - by rewrite obj_get_set, andb_true_r.
Qed.

Lemma fill_truthy k o : truthy_opt (obj_get (fill k o) k) = true.
Proof.
  rewrite fill_get, key_eqb_refl. simpl.
  by destruct (truthy_opt (obj_get o k)) eqn:E.
Qed.

(** What [loadMapping] returns always has the two name spaces. *)
Lemma loadMapping_shape f :
  exists o n nb, loadMapping f = VObj o
    /\ obj_get o k_notes = Some n /\ obj_get o k_notebooks = Some nb
    /\ truthy nb = true.
Proof.
  assert (Hpromote : forall data, exists o n nb,
            VObj [(k_notes, data); (k_notebooks, VObj [])] = VObj o
            /\ obj_get o k_notes = Some n /\ obj_get o k_notebooks = Some nb
            /\ truthy nb = true).
  { intros data. eexists _, _, _. repeat split; reflexivity. }
  destruct f as [| |[|data]]; try apply (Hpromote (VObj [])).
  destruct data as [|b|z|s|o|bn];
    try (eexists _, _, _; split; [reflexivity|]; repeat split; reflexivity).
  rewrite loadMapping_obj.
  destruct (negb _ && negb _) eqn:E; [apply Hpromote|].
  pose proof (fill_truthy k_notebooks (fill k_notes o)) as Hnb.
  pose proof (fill_truthy k_notes o) as Hn.
  assert (Hn' : truthy_opt (obj_get (fill k_notebooks (fill k_notes o)) k_notes) = true).
  { rewrite fill_get, notebooks_ne_notes. exact Hn. }
  destruct (obj_get (fill k_notebooks (fill k_notes o)) k_notes) as [n|] eqn:En;
    [|discriminate].
  destruct (obj_get (fill k_notebooks (fill k_notes o)) k_notebooks) as [nb|] eqn:Enb;
    [|discriminate].
  exists (fill k_notebooks (fill k_notes o)), n, nb. repeat split; auto.
Qed.

(** A store with both name spaces is read back as it was saved. *)
Lemma loadMapping_saved o n nb :
  obj_get o k_notes = Some n -> truthy n = true ->
  obj_get o k_notebooks = Some nb -> truthy nb = true ->
  loadMapping (write_json (VObj o)) = VObj o.
Proof.
  intros Hn Tn Hnb Tnb. unfold loadMapping, loadMapping_try. simpl. fields.
  rewrite Hn, Hnb. simpl. rewrite Tn, Tnb. simpl. fields. rewrite Hnb. simpl.
  by rewrite Tnb.
Qed.

End MappingFacts.

(** ** The contract of the store operations *)

Module StoreContract.
Import Js JsFacts Mapping MappingFacts.

(** [rec] holds the properties of [fields], and those of [old] that [fields]
    does not have. *)
Definition merged (old fields rec : obj) : Prop :=
  forall k, obj_get rec k
            = match obj_get fields k with Some v => Some v | None => obj_get old k end.


Section Contract.
Variable getB : jstr -> file -> result value.
Variables bindN updC : jstr -> value -> file -> result (value * saved).
Variable markA : jstr -> file -> result (value * saved).


End Contract.




(** *** The store with name spaces *)

Lemma member_set_eq k x o : member (obj_set k x o) k = Some x.
Proof. apply member_own. by rewrite obj_get_set_eq. Qed.


(** What [getBinding] makes of what it finds. *)
Definition or_null (found : option value) : value :=
  match found with
  | Some r => if truthy r then r else VNull
  | None => VNull
  end.

Section Namespaced.
Variables (f : file) (o ns : obj) (nb : value).
Hypothesis Hload : loadMapping f = VObj o.
Hypothesis Hnotes : obj_get o k_notes = Some (VObj ns).
Hypothesis Hnb : obj_get o k_notebooks = Some nb.
Hypothesis Tnb : truthy nb = true.

Lemma get_note_loaded k : get_note (loadMapping f) k = Ok (member ns k).
Proof. rewrite Hload. unfold get_note. simpl. fields. by rewrite Hnotes. Qed.

Lemma set_note_loaded k rec :
  set_note (loadMapping f) k rec
  = Ok (VObj (obj_set k_notes (VObj (assigned k rec ns)) o)).
Proof. rewrite Hload. unfold set_note. simpl. fields. rewrite Hnotes. simpl. by fields. Qed.


Lemma getBinding_saved ns' k :
  getBinding k (write_json (VObj (obj_set k_notes (VObj ns') o)))
  = Ok (or_null (member ns' k)).
Proof.
  unfold getBinding.
  rewrite (loadMapping_saved _ (VObj ns') nb);
    [| by rewrite obj_get_set_eq | done
     | by rewrite obj_get_set, notes_ne_notebooks | done].
  unfold get_note. simpl. fields. by rewrite obj_get_set_eq.
Qed.


End Namespaced.

(** *** The flat store *)

Section Flat.
Variables (g : file) (ms : obj).
Hypothesis Hload : FlatMapping.loadMapping g = VObj ms.




End Flat.


End StoreContract.

Module StoreExamples.
Import Js JsFacts Mapping StoreContract.

Definition a_record : obj := [(k_fileId, VStr (u "F")); (u "tabId", VStr (u "T"))].
Definition some_notes : obj := [(u "n1", VObj a_record)].
Definition the_map : value := VObj [(k_notes, VObj some_notes); (k_notebooks, VObj [])].
Definition a_store : file := write_json the_map.




End StoreExamples.

(** ** Loading the store *)

Module LoadFacts.
Import Js JsFacts Mapping MappingFacts.

Definition promoted (data : value) : value :=
  VObj [(k_notes, data); (k_notebooks, VObj [])].

(** A flat store that binds a note whose id is [notes]. *)
Definition flat_with_a_note_called_notes : value :=
  VObj [(u "notes", VObj [(k_fileId, VStr (u "F")); (u "tabId", VStr (u "T"))])].

(** C10 does not hold as stated: a legacy flat map in which a note id is
    [notes] is not promoted; it is taken for a store with name spaces, and the
    binding of that note, which the flat store returns, is not found. *)
Lemma legacy_map_not_promoted :
  loadMapping (write_json flat_with_a_note_called_notes)
    <> promoted flat_with_a_note_called_notes
  /\ FlatMapping.getBinding (u "notes") (write_json flat_with_a_note_called_notes)
     = Ok (VObj [(k_fileId, VStr (u "F")); (u "tabId", VStr (u "T"))])
  /\ getBinding (u "notes") (write_json flat_with_a_note_called_notes) = Ok VNull.
Proof. split; [|split]; [|reflexivity|reflexivity]. vm_compute. discriminate. Qed.

(** C10 as amended. [loadMapping] never throws and always returns an object
    with a [notes] and a [notebooks] property; it is the empty store when the
    file is absent, unreadable or not JSON; an object in which neither [notes]
    nor [notebooks] holds a truthy value is taken for a legacy flat map and
    becomes the [notes] of the result, next to empty [notebooks]; any other
    object is kept, a missing name space being filled with an empty one. *)
Theorem loadMapping_namespaced (f : file) :
  (exists o n nb, loadMapping f = VObj o
     /\ obj_get o k_notes = Some n /\ obj_get o k_notebooks = Some nb)
  /\ match f with
     | Missing | Unreadable | Content Garbled | Content (Json VNull) =>
         loadMapping f = empty_store
     | Content (Json (VObj o)) =>
         loadMapping f
         = if negb (truthy_opt (obj_get o k_notes))
              && negb (truthy_opt (obj_get o k_notebooks))
           then promoted (VObj o)
           else VObj (fill k_notebooks (fill k_notes o))
     | Content (Json data) => loadMapping f = promoted data
     end.
Proof.
  split.
  - destruct (loadMapping_shape f) as (o & n & nb & H1 & H2 & H3 & _).
    by exists o, n, nb.
  - destruct f as [| |[|[| | | |o|]]]; try reflexivity. apply loadMapping_obj.
Qed.

End LoadFacts.

(** ** Writing a record keeps the reverse lookup *)

Module StoreStability.
Import Js JsFacts Mapping MappingFacts StoreContract.

Lemma obj_set_existing k v o w : obj_get o k = Some w -> obj_set k v o = obj_replace k v o.
Proof. intros H. unfold obj_set. by rewrite H. Qed.

Lemma find_by_fileId_replace fid k v' ns old :
  obj_get ns k = Some old ->
  get_prop v' k_fileId = get_prop old k_fileId ->
  find_by_fileId fid (obj_replace k v' ns) = find_by_fileId fid ns.
Proof.
  intros Hget Hid. induction ns as [|[k2 v2] ns IH]; [reflexivity|].
  rewrite obj_get_cons in Hget. simpl. destruct (key_eqb k2 k) eqn:E.
  - inversion Hget; subst old. apply key_eqb_eq in E; subst k2. simpl. by rewrite Hid.
  - simpl. by rewrite (IH Hget).
Qed.

Lemma inherited_no_record v k rec : or_null (inherited v k) <> VObj rec.
Proof. unfold inherited. by destruct (has_name _ k). Qed.

(** A record that a read finds is an own property. *)
Lemma member_record ns k rec :
  or_null (member ns k) = VObj rec -> obj_get ns k = Some (VObj rec).
Proof.
  unfold member. destruct (obj_get ns k) as [r|].
  - simpl. destruct (truthy r); [by intros ->|discriminate].
  - intros H. by apply inherited_no_record in H.
Qed.

Lemma record_direct ns k v : obj_get ns k = Some v -> direct ns k = true.
Proof. unfold direct. by intros ->. Qed.

(** A note that has a record lives in a store whose notes form an object. *)
Lemma bound_note_loaded f noteId rec :
  getBinding noteId f = Ok (VObj rec) ->
  exists o ns nb, loadMapping f = VObj o
    /\ obj_get o k_notes = Some (VObj ns)
    /\ obj_get o k_notebooks = Some nb /\ truthy nb = true
    /\ obj_get ns noteId = Some (VObj rec).
Proof.
  destruct (loadMapping_shape f) as (o & n & nb & Hload & Hn & Hnb & Tnb).
  unfold getBinding, get_note. rewrite Hload. simpl. fields. rewrite Hn. simpl.
  intros H. exists o.
  destruct n as [|b|z|s|ns|bn]; simpl in H; try discriminate.
  - injection H as H'. by apply inherited_no_record in H'.
  - injection H as H'. by apply inherited_no_record in H'.
  - destruct (key_eqb noteId (u "length")); simpl in H.
    { destruct (negb _); discriminate. }
    destruct (array_index noteId) as [i|]; simpl in H.
    + destruct (s !! N.to_nat i); simpl in H; discriminate.
    + injection H as H'. by apply inherited_no_record in H'.
  - exists ns, nb. repeat split; try done.
    injection H as H'. by apply member_record.
  - injection H as H'. by apply inherited_no_record in H'.
Qed.

Section Written.
Variables (f : file) (noteId : jstr) (rec : obj).
Hypothesis Hbound : getBinding noteId f = Ok (VObj rec).

(** The store in which the record of the note is [rec'], the rest being as
    in [f]. *)
Lemma record_written rec' :
  exists map',
    set_note (loadMapping f) noteId (VObj rec') = Ok map'
    /\ get_note (loadMapping f) noteId = Ok (Some (VObj rec))
    /\ getBinding noteId (write_json map') = Ok (VObj rec')
    /\ (get_prop (VObj rec') k_fileId = get_prop (VObj rec) k_fileId ->
        forall fid, findNoteIdByFileId fid (write_json map') = findNoteIdByFileId fid f).
Proof.
  destruct (bound_note_loaded _ _ _ Hbound) as (o & ns & nb & Hload & Hn & Hnb & Tnb & Hrec).
  exists (VObj (obj_set k_notes (VObj (obj_set noteId (VObj rec') ns)) o)).
  split; [rewrite (set_note_loaded f o ns) by done; by rewrite (assigned_own _ _ _ _ Hrec)|].
  split; [by rewrite (get_note_loaded f o ns), (member_own _ _ _ Hrec)|].
  split.
  - rewrite (getBinding_saved o nb Hnb Tnb). by rewrite member_set_eq.
  - intros Hid fid. unfold findNoteIdByFileId.
    rewrite (loadMapping_saved _ (VObj (obj_set noteId (VObj rec') ns)) nb);
      [| by rewrite obj_get_set_eq | done
       | by rewrite obj_get_set, notes_ne_notebooks | done].
    rewrite Hload. simpl. fields. rewrite obj_get_set_eq, Hn. simpl.
    rewrite (obj_set_existing _ _ _ _ Hrec).
    by apply find_by_fileId_replace with (old := VObj rec).
Qed.


Lemma updateSyncCheckpoint_bound cp :
  exists map',
    updateSyncCheckpoint noteId cp f
    = Ok (VObj (spread2 (Some (VObj rec)) (Some cp)), Some map')
    /\ getBinding noteId (write_json map')
       = Ok (VObj (spread2 (Some (VObj rec)) (Some cp)))
    /\ (get_prop (VObj (spread2 (Some (VObj rec)) (Some cp))) k_fileId
        = get_prop (VObj rec) k_fileId ->
        forall fid, findNoteIdByFileId fid (write_json map') = findNoteIdByFileId fid f).
Proof.
  destruct (record_written (spread2 (Some (VObj rec)) (Some cp)))
    as (map' & Hset & Hget & Hb & Hfind).
  exists map'. unfold updateSyncCheckpoint. rewrite Hget. simpl. rewrite Hset. simpl.
  repeat split; done.
Qed.

(** The same for a checkpoint with an [undefined] property [k]: the record
    that is saved is the merged one without [k]. *)
Lemma updateSyncCheckpoint_undefined_bound k cp :
  let rec' := List.filter (fun p => negb (key_eqb p.1 k)) (spread2 (Some (VObj rec)) (Some cp)) in
  exists map',
    updateSyncCheckpoint_undefined noteId k cp f = Ok (VObj rec', Some map')
    /\ getBinding noteId (write_json map') = Ok (VObj rec')
    /\ (get_prop (VObj rec') k_fileId = get_prop (VObj rec) k_fileId ->
        forall fid, findNoteIdByFileId fid (write_json map') = findNoteIdByFileId fid f).
Proof.
  intros rec'. destruct (record_written rec') as (map' & Hset & Hget & Hb & Hfind).
  exists map'. unfold updateSyncCheckpoint_undefined. rewrite Hget. simpl.
  fold rec'. rewrite Hset. simpl.
  repeat split; done.
Qed.

End Written.

End StoreStability.

(** ** More on the store *)

Module StoreRoundTrip.
Import Js JsFacts Mapping MappingFacts StoreContract.

(** The file holds [false], [0] or the empty string. *)
Definition holds_falsy (f : file) : bool :=
  match f with
  | Content (Json VNull) => false
  | Content (Json v) => negb (truthy v)
  | _ => false
  end.



(** The exception is real: a file that holds [false], [0] or the empty
    string is first read as a store whose notes are that value, and after a
    save as a store whose notes are empty. *)
Lemma falsy_file_is_not_stable (f : file) :
  holds_falsy f = true ->
  loadMapping (write_json (loadMapping f)) <> loadMapping f.
Proof.
  destruct f as [| |[|[|b|z|s|o|bn]]]; try discriminate.
  - destruct b; discriminate.
  - destruct z; discriminate.
  - destruct s; discriminate.
Qed.

End StoreRoundTrip.

Module NotebookFacts.
Import Js JsFacts Mapping MappingFacts StoreContract Notebooks.



Definition a_folder : obj := [(u "folderId", VStr (u "D"))].


(** Outside these notebook ids the record is not saved: under [__proto__] the
    assignment changes the prototype of the notebooks, the store is saved as
    it was, and [getNotebookBinding] does not find the record. *)
Lemma notebook_called_proto_is_not_saved :
  bindNotebook (u "__proto__") (VObj a_folder) StoreExamples.a_store
  = Ok (VObj a_folder, Some StoreExamples.the_map)
  /\ getNotebookBinding (u "__proto__") (write_json StoreExamples.the_map)
     = Ok (VBuiltin (u "__proto__")).
Proof. split; vm_compute; reflexivity. Qed.

End NotebookFacts.

Module LookupFacts.
Import Js JsFacts Mapping MappingFacts StoreContract BindScripts.

(** The record is bound to the file, or is not; a record that is [null] is
    neither, the lookup throws on it. *)
Definition matches (fid : option jstr) (binding : value) : Prop :=
  exists v, get_prop binding k_fileId = Ok v /\ strict_eq_str v fid = true.

Definition misses (fid : option jstr) (binding : value) : Prop :=
  exists v, get_prop binding k_fileId = Ok v /\ strict_eq_str v fid = false.

Lemma find_by_fileId_some fid entries noteId :
  find_by_fileId fid entries = Ok (Some noteId) <->
  exists before binding after,
    entries = before ++ (noteId, binding) :: after
    /\ matches fid binding /\ Forall (fun p => misses fid p.2) before.
Proof.
  induction entries as [|[k b] entries IH]; simpl.
  - split; [discriminate|]. intros (before & ? & ? & H & _). by destruct before.
  - destruct (get_prop b k_fileId) as [v|e] eqn:E; simpl.
    + destruct (strict_eq_str v fid) eqn:S.
      * split.
        -- intros H. inversion H; subst. exists [], b, entries.
           split; [reflexivity|]. split; [by exists v | constructor].
        -- intros (before & binding & after & H & Hm & Hb).
           destruct before as [|p before]; simpl in H; inversion H; subst; [reflexivity|].
           inversion Hb as [|? ? (v' & E' & S') _]; subst. simpl in E'.
           rewrite E in E'. inversion E'; subst. congruence.
      * rewrite IH. split.
        -- intros (before & binding & after & -> & Hm & Hb).
           exists ((k, b) :: before), binding, after. split; [reflexivity|].
           split; [exact Hm|]. constructor; [by exists v | exact Hb].
        -- intros (before & binding & after & H & Hm & Hb).
           destruct before as [|p before]; simpl in H; inversion H; subst.
           ++ destruct Hm as (v' & E' & S'). rewrite E in E'. inversion E'; subst.
              congruence.
           ++ inversion Hb; subst. by exists before, binding, after.
    + split; [discriminate|]. intros (before & binding & after & H & Hm & Hb).
      destruct before as [|p before]; simpl in H; inversion H; subst.
      * destruct Hm as (v' & E' & _). rewrite E in E'. discriminate.
      * inversion Hb as [|? ? (v' & E' & _) _]; subst. simpl in E'.
        rewrite E in E'. discriminate.
Qed.

Lemma find_by_fileId_none fid entries :
  find_by_fileId fid entries = Ok None <-> Forall (fun p => misses fid p.2) entries.
Proof.
  induction entries as [|[k b] entries IH]; simpl.
  - split; [constructor | reflexivity].
  - destruct (get_prop b k_fileId) as [v|e] eqn:E; simpl.
    + destruct (strict_eq_str v fid) eqn:S.
      * split; [discriminate|]. intros H.
        inversion H as [|? ? (v' & E' & S') _]; subst. simpl in E'.
        rewrite E in E'. inversion E'; subst. congruence.
      * rewrite IH. split.
        -- intros H. constructor; [by exists v | exact H].
        -- intros H. by inversion H.
    + split; [discriminate|]. intros H.
      inversion H as [|? ? (v' & E' & _) _]; subst. simpl in E'.
      rewrite E in E'. discriminate.
Qed.

(** X13. The reverse lookup returns the first note, in the order of the store,
    whose record is bound to the file, all records before it being bound to
    something else; it returns nothing exactly when every record is bound to
    something else. *)
Theorem reverse_lookup_first_match (f : file) (ns : obj) (fid : option jstr) :
  get_prop (loadMapping f) k_notes = Ok (Some (VObj ns)) ->
  (forall noteId,
     findNoteIdByFileId fid f = Ok (Some noteId) <->
     exists before binding after,
       ns = before ++ (noteId, binding) :: after
       /\ matches fid binding /\ Forall (fun p => misses fid p.2) before)
  /\ (findNoteIdByFileId fid f = Ok None <-> Forall (fun p => misses fid p.2) ns).
Proof.
  intros Hn. unfold findNoteIdByFileId. rewrite Hn. simpl. split.
  - intros noteId. apply find_by_fileId_some.
  - apply find_by_fileId_none.
Qed.

Definition two_notes : obj :=
  [(u "n1", VObj [(k_fileId, VStr (u "F"))]); (u "n2", VObj [(k_fileId, VStr (u "F"))])].

(** [reverse_lookup_first_match] applies to a store in which two notes are
    bound to the same file. *)
Lemma reverse_lookup_first_match_witness :
  findNoteIdByFileId (Some (u "F"))
    (write_json (VObj [(k_notes, VObj two_notes); (k_notebooks, VObj [])]))
  = Ok (Some (u "n1")).
Proof.
  apply (reverse_lookup_first_match
           (write_json (VObj [(k_notes, VObj two_notes); (k_notebooks, VObj [])]))
           two_notes (Some (u "F")));
    [reflexivity|].
  exists [], (VObj [(k_fileId, VStr (u "F"))]), [(u "n2", VObj [(k_fileId, VStr (u "F"))])].
  split; [reflexivity|]. split; [|constructor].
  exists (Some (VStr (u "F"))). split; reflexivity.
Defined.

End LookupFacts.

Module BindFacts.
Import Js JsFacts Mapping MappingFacts StoreContract BindScripts LookupFacts.

(** No note other than [noteId] is bound to the file. *)
Definition others_miss (noteId fileId : jstr) (ns : obj) : bool :=
  forallb (fun p => key_eqb p.1 noteId
                    || match get_prop p.2 k_fileId with
                       | Ok v => negb (strict_eq_str v (Some fileId))
                       | Throw _ => false
                       end) ns.

Lemma obj_get_none_keys o k : obj_get o k = None -> Forall (fun p => p.1 <> k) o.
Proof.
  induction o as [|[k' v'] o IH]; [constructor|].
  rewrite obj_get_cons. destruct (key_eqb k' k) eqn:E; [discriminate|].
  intros H. constructor; [|by apply IH]. simpl. intros ->. by rewrite key_eqb_refl in E.
Qed.

Lemma obj_insert_index_Forall (P : jstr * value -> Prop) n k v o :
  P (k, v) -> Forall P o -> Forall P (obj_insert_index n k v o).
Proof.
  intros Hk. induction 1 as [|[k' v'] o Hp Ho IH]; simpl; [by repeat constructor|].
  destruct (array_index k') as [n'|]; [|by repeat constructor].
  destruct (n' <? n)%N; by repeat constructor.
Qed.

Lemma obj_insert_index_In n k v o : In (k, v) (obj_insert_index n k v o).
Proof.
  induction o as [|[k' v'] o IH]; simpl; [by left|].
  destruct (array_index k') as [n'|]; [|by left].
  destruct (n' <? n)%N; [by right | by left].
Qed.

(** After [o[k] = v], the property [k] is there with the value [v], and the
    other properties are those of [o]. *)
Lemma obj_set_entries (Q : jstr * value -> Prop) k v o :
  NoDup o.*1 -> Forall (fun p => p.1 = k \/ Q p) o ->
  In (k, v) (obj_set k v o) /\ Forall (fun p => p = (k, v) \/ Q p) (obj_set k v o).
Proof.
  intros Hnd Ho. unfold obj_set. destruct (obj_get o k) as [w|] eqn:E.
  - assert (He : obj_get o k <> None) by congruence. clear w E.
    induction o as [|[k' v'] o IH]; [done|].
    rewrite obj_get_cons in He. simpl. rewrite fmap_cons, NoDup_cons in Hnd.
    destruct Hnd as [Hnot Hnd]. inversion Ho as [|? ? Hp Ho']; subst.
    destruct (key_eqb k' k) eqn:Ek.
    + apply key_eqb_eq in Ek; subst k'. split; [by left|].
      constructor; [by left|]. simpl in Hnot.
      rewrite Forall_forall in Ho'. apply Forall_forall. intros [k2 v2] Hin.
      destruct (Ho' _ Hin) as [Heq|HQ]; [|by right]. simpl in Heq. subst k2.
      exfalso. apply Hnot. apply list_elem_of_fmap. by exists (k, v2).
    + destruct (IH Hnd Ho' He) as [Hin Hall]. split; [by right|].
      constructor; [|exact Hall]. destruct Hp as [Hp|Hp]; [|by right].
      simpl in Hp. subst k'. by rewrite key_eqb_refl in Ek.
  - assert (Hall : Forall (fun p => p = (k, v) \/ Q p) o).
    { pose proof (obj_get_none_keys _ _ E) as Hk.
      rewrite Forall_forall in Ho, Hk. apply Forall_forall. intros p Hin.
      destruct (Ho _ Hin) as [Heq|HQ]; [|by right]. by destruct (Hk _ Hin). }
    destruct (array_index k) as [n|].
    + split; [apply obj_insert_index_In|]. apply obj_insert_index_Forall; [by left|done].
    + split; [apply in_or_app; right; by left|].
      rewrite Forall_app. split; [done|]. by repeat constructor.
Qed.

(** Among records that are [rec] or bound to something else, the lookup
    finds the note of [rec]. *)
Lemma find_by_fileId_only fid noteId rec entries :
  matches fid rec -> In (noteId, rec) entries ->
  Forall (fun p => p = (noteId, rec) \/ misses fid p.2) entries ->
  find_by_fileId fid entries = Ok (Some noteId).
Proof.
  intros (v & Ev & Sv) Hin Hall.
  induction entries as [|[k b] entries IH]; [done|].
  inversion Hall as [|? ? Hp Hall']; subst. simpl.
  destruct Hp as [Hp|(w & Ew & Sw)].
  - inversion Hp; subst. rewrite Ev. simpl. by rewrite Sv.
  - simpl in Ew. rewrite Ew. simpl. rewrite Sw.
    destruct Hin as [Hin|Hin]; [|by apply IH].
    inversion Hin; subst. rewrite Ev in Ew. inversion Ew; subst. congruence.
Qed.

Lemma spread2_overrides a b k v :
  NoDup b.*1 -> obj_get b k = Some v -> obj_get (spread2 a (Some (VObj b))) k = Some v.
Proof.
  intros Hb Hv. unfold spread2. rewrite obj_get_fold_set. unfold last_assigned.
  rewrite rev_app_distr, obj_get_app.
  change (obj_get (rev (own_entries (Some (VObj b)))) k) with (last_assigned b k).
  by rewrite (last_assigned_NoDup _ _ Hb), Hv.
Qed.

(** X14. The binding script, given its three arguments and a note id that is
    bound in the store or is not the name of a member of [Object.prototype],
    writes a record that holds the file, the tab and the time, and prints it;
    when no other note is bound to the file, the reverse lookup of the file
    then finds the note. *)
Theorem bound_file_is_found (noteId fileId tabId now : jstr) (f : file) (ns : obj) :
  noteId <> [] -> fileId <> [] -> tabId <> [] ->
  get_prop (loadMapping f) k_notes = Ok (Some (VObj ns)) ->
  direct ns noteId = true ->
  NoDup ns.*1 ->
  others_miss noteId fileId ns = true ->
  exists rec f',
    bindNote_script noteId fileId tabId now f = Some (Ok (VObj rec, f'))
    /\ obj_get rec k_fileId = Some (VStr fileId)
    /\ obj_get rec (u "tabId") = Some (VStr tabId)
    /\ obj_get rec (u "lastSyncTs") = Some (VStr now)
    /\ getBinding noteId f' = Ok (VObj rec)
    /\ findNoteIdByFileId (Some fileId) f' = Ok (Some noteId).
Proof.
  intros H1 H2 H3 Hn Hd Hnd Hothers.
  destruct (loadMapping_shape f) as (o & n & nb & Hload & Hno & Hnb & Tnb).
  rewrite Hload in Hn. simpl in Hn. rewrite member_plain in Hn by reflexivity.
  rewrite Hno in Hn. inversion Hn; subst n. clear Hn.
  set (rec := spread2 (obj_get ns noteId) (Some (note_binding fileId tabId now))).
  set (map := VObj (obj_set k_notes (VObj (obj_set noteId (VObj rec) ns)) o)).
  assert (Hkeys : NoDup (([(k_fileId, VStr fileId); (u "tabId", VStr tabId);
                           (u "lastSyncTs", VStr now)] : obj).*1)).
  { apply (bool_decide_unpack _). vm_compute. exact I. }
  assert (Hfid : obj_get rec k_fileId = Some (VStr fileId))
    by (by apply spread2_overrides).
  exists rec, (write_json map).
  assert (Hscript : bindNote_script noteId fileId tabId now f
                    = Some (Ok (VObj rec, write_json map))).
  { unfold bindNote_script.
    destruct noteId as [|c1 n1]; [done|]. destruct fileId as [|c2 n2]; [done|].
    destruct tabId as [|c3 n3]; [done|].
    unfold bindNote. rewrite (get_note_loaded f o ns Hload Hno), (member_direct _ _ Hd).
    simpl. rewrite (set_note_loaded f o ns Hload Hno), (assigned_direct _ _ _ Hd). simpl.
    fold rec. fold map.
    unfold map. rewrite (getBinding_saved o nb Hnb Tnb), member_set_eq. reflexivity. }
  split; [exact Hscript|]. split; [exact Hfid|].
  split; [by apply spread2_overrides|]. split; [by apply spread2_overrides|].
  split.
  { unfold map. by rewrite (getBinding_saved o nb Hnb Tnb), member_set_eq. }
  unfold findNoteIdByFileId, map.
  rewrite (loadMapping_saved _ (VObj (obj_set noteId (VObj rec) ns)) nb);
    [| by rewrite obj_get_set_eq | done | by rewrite obj_get_set, notes_ne_notebooks | done].
  simpl. fields. rewrite obj_get_set_eq. simpl.
  destruct (obj_set_entries (fun p => misses (Some fileId) p.2) noteId (VObj rec) ns Hnd)
    as [Hin Hall].
  { unfold others_miss in Hothers. clear -Hothers.
    induction ns as [|[k b] ns IH]; [constructor|]. simpl in Hothers.
    apply andb_true_iff in Hothers as [Hp Hrest]. constructor; [|by apply IH].
    apply orb_true_iff in Hp as [Hp|Hp]; [left; by apply key_eqb_eq|]. right.
    destruct (get_prop b k_fileId) as [v|] eqn:E; [|discriminate].
    exists v. split; [exact E|]. by apply negb_true_iff. }
  apply (find_by_fileId_only _ _ (VObj rec)); [|exact Hin|exact Hall].
  exists (Some (VStr fileId)). split; [simpl; fields; by rewrite Hfid|].
  simpl. unfold jstr_eqb. by apply bool_decide_eq_true.
Qed.

(** [bound_file_is_found] applies to a second note bound in a store that binds
    one note to another file. *)
Lemma bound_file_is_found_witness :
  exists rec f',
    bindNote_script (u "n2") (u "G") (u "t.0") (u "2025-01-01T00:00:00.000Z")
      StoreExamples.a_store = Some (Ok (VObj rec, f'))
    /\ obj_get rec k_fileId = Some (VStr (u "G"))
    /\ obj_get rec (u "tabId") = Some (VStr (u "t.0"))
    /\ obj_get rec (u "lastSyncTs") = Some (VStr (u "2025-01-01T00:00:00.000Z"))
    /\ getBinding (u "n2") f' = Ok (VObj rec)
    /\ findNoteIdByFileId (Some (u "G")) f' = Ok (Some (u "n2")).
Proof.
  apply (bound_file_is_found (u "n2") (u "G") (u "t.0") (u "2025-01-01T00:00:00.000Z")
           StoreExamples.a_store StoreExamples.some_notes).
  - discriminate.
  - discriminate.
  - discriminate.
  - reflexivity.
  - reflexivity.
  - apply (bool_decide_unpack _). vm_compute. exact I.
  - reflexivity.
Defined.

(** Outside these note ids the script saves no record: for the note id
    [__proto__] it prints what every object has under that name, the store is
    as it was, and the reverse lookup of the file finds no note. *)
Lemma note_called_proto_is_not_bound :
  bindNote_script (u "__proto__") (u "G") (u "t.0") (u "2025-01-01T00:00:00.000Z")
    StoreExamples.a_store
  = Some (Ok (VBuiltin (u "__proto__"), StoreExamples.a_store))
  /\ findNoteIdByFileId (Some (u "G")) StoreExamples.a_store = Ok None.
Proof. split; vm_compute; reflexivity. Qed.

End BindFacts.

(** ** Tabs *)

Module DocsFacts.
Import Js Docs.

Lemma forest_size_app a b : forest_size (a ++ b) = (forest_size a + forest_size b)%nat.
Proof.
  unfold forest_size. induction a as [|t a IH]; simpl; [reflexivity|]. rewrite IH. lia.
Qed.

(** The search for a tab stops: the fuel that [findTab] gives is enough. *)
Lemma findTab_loop_total wanted fuel stack :
  (forest_size stack <= fuel)%nat -> exists r, findTab_loop fuel wanted stack = Some r.
Proof.
  revert stack; induction fuel as [|fuel IH]; intros stack Hf.
  - destruct stack as [|t rest]; simpl; [eauto|].
    destruct t as [i b cs]. unfold forest_size in Hf. simpl in Hf. lia.
  - destruct stack as [|t rest]; simpl; [eauto|].
    destruct (tab_is wanted t); [eauto|].
    apply IH. rewrite forest_size_app.
    destruct t as [i b cs]. unfold forest_size in *. simpl in *. lia.
Qed.

Lemma findTab_total wanted ts :
  exists r, findTab_loop (forest_size ts) wanted ts = Some r.
Proof. by apply findTab_loop_total. Qed.

End DocsFacts.

(** ** Pull, compare, push *)

Module PullPushFacts.
Import Js Docs PullPush.

Section WithService.
Variable applied : list Request -> Document -> Document.

(** What the pull of a run returns, for given ids: the revision and the
    text of the tab. *)
Definition pulled (env : Env) (documentId wantedTab : option value)
    : option (option jstr * Tab) :=
  match documents_get (e_remote env) documentId with
  | Ok meta => (fun tab => (revisionId meta, tab)) <$> findTab wantedTab (tabs meta)
  | Throw _ => None
  end.

(** The ids that [pullPushByNote] reads from the binding of a note. *)
Definition bound (noteId : jstr) (env : Env) : option (option value * option value) :=
  match Mapping.getBinding noteId (e_store env) with
  | Ok binding =>
      if truthy binding then
        match get_prop binding Mapping.k_fileId, get_prop binding (u "tabId") with
        | Ok documentId, Ok tabId => Some (documentId, tabId)
        | _, _ => None
        end
      else None
  | Throw _ => None
  end.

Lemma pullPushByNote_bound noteId localPath env documentId tabId :
  noteId <> [] -> localPath <> [] -> bound noteId env = Some (documentId, tabId) ->
  pullPushByNote applied noteId localPath env
  = pull_compare_push applied env documentId tabId 3 4.
Proof.
  intros Hn Hp Hb. unfold pullPushByNote, bound in *.
  destruct noteId as [|c n]; [done|]. destruct localPath as [|c' p]; [done|].
  destruct (Mapping.getBinding (c :: n) (e_store env)) as [binding|]; [|discriminate].
  destruct (truthy binding); [|discriminate]. simpl.
  destruct (get_prop binding Mapping.k_fileId) as [d|]; [|discriminate].
  destruct (get_prop binding (u "tabId")) as [t|]; [|discriminate].
  by inversion Hb; subst.
Qed.

(** Equal texts: the run ends after the pull. *)
Lemma equal_text_ends_run env documentId wantedTab rev tab text c1 c2 :
  pulled env documentId wantedTab = Some (rev, tab) ->
  getTabText tab = text -> e_local env = Some text ->
  pull_compare_push applied env documentId wantedTab c1 c2
  = mkRun (Exit 0) [NoDiff] [CallGet documentId] (e_remote env).
Proof.
  unfold pulled, pull_compare_push. intros Hp Ht Hl.
  destruct (documents_get (e_remote env) documentId) as [meta|]; [|discriminate].
  destruct (findTab wantedTab (tabs meta)) as [tab'|]; [|discriminate].
  inversion Hp; subst. rewrite Hl. unfold jstr_eqb.
  by rewrite bool_decide_eq_true_2.
Qed.

(** Different texts: the run submits one batch, which replaces the content
    of the tab by the local text and is guarded by the revision pulled. *)
Lemma different_text_is_pushed env documentId wantedTab rev tab text e c1 c2 :
  pulled env documentId wantedTab = Some (rev, tab) ->
  getTabText tab <> text -> e_local env = Some text ->
  last_endIndex tab = Ok e ->
  writes (pull_compare_push applied env documentId wantedTab c1 c2)
  = [CallBatchUpdate documentId (replace_requests wantedTab e text) rev].
Proof.
  unfold pulled, pull_compare_push. intros Hp Ht Hl He.
  destruct (documents_get (e_remote env) documentId) as [meta|]; [|discriminate].
  destruct (findTab wantedTab (tabs meta)) as [tab'|]; [|discriminate].
  inversion Hp; subst. rewrite Hl. unfold jstr_eqb.
  rewrite bool_decide_eq_false_2 by done. rewrite He.
  by destruct (batchUpdate _ _ _ _ _ _) as [[[]|err] r'].
Qed.

(** A run issues at most one write, and only after the pull. *)
Lemma calls_shape env documentId wantedTab c1 c2 :
  let r := pull_compare_push applied env documentId wantedTab c1 c2 in
  r_calls r = [CallGet documentId]
  \/ exists requests rev,
       r_calls r = [CallGet documentId; CallBatchUpdate documentId requests rev].
Proof.
  unfold pull_compare_push.
  destruct (documents_get (e_remote env) documentId) as [meta|]; [|by left].
  destruct (findTab wantedTab (tabs meta)) as [tab|]; [|by left].
  destruct (e_local env) as [localText|]; [|by left].
  destruct (jstr_eqb (getTabText tab) localText); [by left|].
  destruct (last_endIndex tab) as [endIndex|]; [|by left].
  destruct (batchUpdate _ _ _ _ _ _) as [[[]|err] r']; right; eauto.
Qed.

(** A run that submits a batch does so with the revision it pulled, and how
    it ends is decided by the answer of the service. *)
Lemma push_decides env documentId wantedTab c1 c2 d requests rev :
  In (CallBatchUpdate d requests rev)
     (r_calls (pull_compare_push applied env documentId wantedTab c1 c2)) ->
  d = documentId
  /\ (exists tab, pulled env documentId wantedTab = Some (rev, tab))
  /\ pull_compare_push applied env documentId wantedTab c1 c2
     = match batchUpdate applied (e_fault env) (e_concurrent env (e_remote env))
               documentId requests rev with
       | (Ok _, r') =>
           mkRun (Exit 0) [Pushed]
             [CallGet documentId; CallBatchUpdate documentId requests rev] r'
       | (Throw err, r') =>
           mkRun (Exit c2) [PushFailed err]
             [CallGet documentId; CallBatchUpdate documentId requests rev] r'
       end.
Proof.
  unfold pull_compare_push, pulled.
  destruct (documents_get (e_remote env) documentId) as [meta|];
    [|simpl; intros [H|[]]; discriminate].
  destruct (findTab wantedTab (tabs meta)) as [tab|];
    [|simpl; intros [H|[]]; discriminate].
  destruct (e_local env) as [localText|]; [|simpl; intros [H|[]]; discriminate].
  destruct (jstr_eqb (getTabText tab) localText); [simpl; intros [H|[]]; discriminate|].
  destruct (last_endIndex tab) as [endIndex|]; [|simpl; intros [H|[]]; discriminate].
  intros Hin.
  assert (Heq : CallBatchUpdate d requests rev
                = CallBatchUpdate documentId
                    (replace_requests wantedTab endIndex localText) (revisionId meta)).
  { destruct (batchUpdate _ _ _ _ _ _) as [[[]|err] r']; simpl in Hin;
      destruct Hin as [H|[H|[]]]; try discriminate; by symmetry. }
  inversion Heq; subst. split; [reflexivity|]. split; [by exists tab|].
  by destruct (batchUpdate _ _ _ _ _ _) as [[[]|err] r'].
Qed.

(** The service rejects a guarded batch whose revision is not the current
    one, and keeps its documents. *)
Lemma stale_guard_rejected r documentId requests rev cur :
  documents_get r documentId = Ok cur -> guard_holds rev cur = false ->
  batchUpdate applied None r documentId requests rev = (Throw (ApiError StaleRevision), r).
Proof.
  unfold documents_get, batchUpdate. intros Hd Hg.
  destruct documentId as [[| | |id| |]|]; try discriminate.
  destruct (r !! id) as [d|]; [|discriminate]. inversion Hd; subst. by rewrite Hg.
Qed.

(** A failed call changes nothing at the service. *)
Lemma failed_batch_keeps_remote fault r documentId requests rev err r' :
  batchUpdate applied fault r documentId requests rev = (Throw err, r') -> r' = r.
Proof.
  unfold batchUpdate. intros H.
  destruct fault; [by inversion H|].
  destruct documentId as [[| | |id| |]|]; try by inversion H.
  destruct (r !! id) as [d|]; [|by inversion H].
  destruct (guard_holds rev d); by inversion H.
Qed.



End WithService.

End PullPushFacts.

Module PushClaims.
Import Js Docs PullPush PullPushFacts.

(** The surroundings of a further attempt: same store and local file, the
    remote documents as the run [r] left them. *)
Definition again (env : Env) (r : Run) : Env :=
  mkEnv (e_store env) (e_local env) (r_remote r) (e_concurrent env) (e_fault env).

Lemma bound_again noteId env r : bound noteId (again env r) = bound noteId env.
Proof. reflexivity. Qed.


(** C2 as amended. For a bound note, the run starts with the pull
    and submits at most one batch after it; when the text pulled is the local
    text, verbatim, the run ends there: no write is submitted and the remote
    documents are as they were. An attempt that follows another one with the
    same local file compares with what it pulls itself: it submits nothing
    when that text is the local text; when it is not, and the tab has content,
    it submits one batch again, which replaces the content by the local text
    and is guarded by the revision of its own pull. *)
Theorem compare_before_push applied noteId localPath env documentId tabId :
  noteId <> [] -> localPath <> [] ->
  bound noteId env = Some (documentId, tabId) ->
  let r := pullPushByNote applied noteId localPath env in
  let r2 := pullPushByNote applied noteId localPath (again env r) in
  (r_calls r = [CallGet documentId]
   \/ exists requests rev,
        r_calls r = [CallGet documentId; CallBatchUpdate documentId requests rev])
  /\ (forall rev tab,
        pulled env documentId tabId = Some (rev, tab) ->
        e_local env = Some (getTabText tab) ->
        r = mkRun (Exit 0) [NoDiff] [CallGet documentId] (e_remote env)
        /\ writes r = [])
  /\ (forall rev tab text,
        pulled (again env r) documentId tabId = Some (rev, tab) ->
        e_local env = Some text ->
        (getTabText tab = text -> writes r2 = [] /\ r_remote r2 = r_remote r)
        /\ (getTabText tab <> text ->
            forall e, last_endIndex tab = Ok e ->
            writes r2
            = [CallBatchUpdate documentId (replace_requests tabId e text) rev])).
Proof.
  intros Hn Hp Hb r r2.
  assert (Hr : r = pull_compare_push applied env documentId tabId 3 4).
  { by apply pullPushByNote_bound. }
  assert (Hr2 : r2 = pull_compare_push applied (again env r) documentId tabId 3 4).
  { by apply pullPushByNote_bound. }
  clearbody r r2. subst r2. split; [rewrite Hr; apply calls_shape|]. split.
  - intros rev tab Hpull Hl. rewrite Hr.
    by rewrite (equal_text_ends_run applied env documentId tabId rev tab (getTabText tab)).
  - intros rev tab text Hpull Hl. split.
    + intros Heq.
      by rewrite (equal_text_ends_run applied (again env r) documentId tabId rev tab text).
    + intros Hne e He.
      by apply (different_text_is_pushed applied (again env r) documentId tabId rev tab).
Qed.

(** The same for the script that takes the ids on the command line. *)
Lemma pullPush_compares_first applied documentId tabId localPath env rev tab :
  documentId <> [] -> tabId <> [] -> localPath <> [] ->
  pulled env (Some (VStr documentId)) (Some (VStr tabId)) = Some (rev, tab) ->
  e_local env = Some (getTabText tab) ->
  pullPush applied documentId tabId localPath env
  = mkRun (Exit 0) [NoDiff] [CallGet (Some (VStr documentId))] (e_remote env).
Proof.
  intros H1 H2 H3 Hpull Hl. unfold pullPush.
  destruct documentId; [done|]. destruct tabId; [done|]. destruct localPath; [done|].
  by eapply equal_text_ends_run.
Qed.


(** The same for the script that takes the ids on the command line; its exit
    code for a failed push is 3. *)
Lemma pullPush_stale_push_aborts applied documentId tabId localPath env d requests rev cur :
  In (CallBatchUpdate d requests rev)
     (r_calls (pullPush applied documentId tabId localPath env)) ->
  e_fault env = None ->
  documents_get (e_concurrent env (e_remote env)) d = Ok cur ->
  guard_holds rev cur = false ->
  pullPush applied documentId tabId localPath env
  = mkRun (Exit 3) [PushFailed (ApiError StaleRevision)]
      [CallGet d; CallBatchUpdate d requests rev] (e_concurrent env (e_remote env)).
Proof.
  unfold pullPush. intros Hin Hf Hcur Hg.
  destruct documentId; [destruct Hin|]. destruct tabId; [destruct Hin|].
  destruct localPath; [destruct Hin|].
  destruct (push_decides applied _ _ _ _ _ _ _ _ Hin) as (-> & _ & Hrun).
  by rewrite Hrun, Hf, (stale_guard_rejected applied _ _ requests rev cur Hcur Hg).
Qed.

End PushClaims.

Module PushExamples.
Import Js Docs PullPush PullPushFacts PushClaims.

Definition a_paragraph (s : jstr) : StructuralElement :=
  mkStructural (Some (mkParagraph (Some [mkElement (Some (mkTextRun (Some s) None))]) None))
    (Some (1 + Z.of_nat (length s))%Z).

(** A document with the tab [T] under a first tab [X]. *)
Definition a_document (rev : jstr) (s : jstr) : Document :=
  mkDocument (Some rev)
    [mkTab (Some (u "X")) None
       [mkTab (Some (u "T")) (Some (mkBody (Some [a_paragraph s]))) []]].

Definition a_store : file :=
  write_json (VObj [(Mapping.k_notes,
                     VObj [(u "n1", VObj [(Mapping.k_fileId, VStr (u "F"));
                                          (u "tabId", VStr (u "T"))])]);
                    (Mapping.k_notebooks, VObj [])]).

(** Some service: an accepted batch gives the document a new revision. *)
Definition bump (requests : list Request) (d : Document) : Document :=
  mkDocument (Some (u "R9")) (tabs d).

Definition the_remote : remote := {[ u "F" := a_document (u "R1") (u "old" ++ nl) ]}.

(** The local text is the remote text. *)
Definition env_same : Env := mkEnv a_store (Some (u "old" ++ nl)) the_remote id None.

(** Another writer changes the document between the pull and the push. *)
Definition env_conflict : Env :=
  mkEnv a_store (Some (u "new")) the_remote
    (fun r => <[u "F" := a_document (u "R2") (u "theirs" ++ nl)]> r) None.


Definition the_requests : list Request :=
  [DeleteContentRange (Some (VStr (u "T"))) 1 4; InsertText (Some (VStr (u "T"))) 1 (u "new")].

(** With equal texts the run ends after the pull. *)
Example no_diff_run :
  pullPushByNote bump (u "n1") (u "note.md") env_same
  = mkRun (Exit 0) [NoDiff] [CallGet (Some (VStr (u "F")))] the_remote.
Proof. vm_compute. reflexivity. Qed.

(** With different texts and nobody else writing, the batch is accepted. *)
Example accepted_run :
  let r := pullPushByNote bump (u "n1") (u "note.md")
             (mkEnv a_store (Some (u "new")) the_remote id None) in
  r_ending r = Exit 0 /\ r_console r = [Pushed]
  /\ writes r = [CallBatchUpdate (Some (VStr (u "F"))) the_requests (Some (u "R1"))]
  /\ (revisionId <$> r_remote r !! u "F") = Some (Some (u "R9")).
Proof. repeat split; vm_compute; reflexivity. Qed.

(** The local text differs from the remote text, and nobody else writes; the
    service is one that keeps the final terminator. *)
Definition env_new : Env := mkEnv a_store (Some (u "new")) the_remote id None.

(** [compare_before_push] applies to the note [n1] and a first attempt that
    pushes. *)
Lemma compare_before_push_witness :
  let r := pullPushByNote DocsService.applied (u "n1") (u "note.md") env_new in
  let r2 := pullPushByNote DocsService.applied (u "n1") (u "note.md") (again env_new r) in
  (r_calls r = [CallGet (Some (VStr (u "F")))]
   \/ exists requests rev,
        r_calls r = [CallGet (Some (VStr (u "F")));
                     CallBatchUpdate (Some (VStr (u "F"))) requests rev])
  /\ (forall rev tab,
        pulled env_new (Some (VStr (u "F"))) (Some (VStr (u "T"))) = Some (rev, tab) ->
        e_local env_new = Some (getTabText tab) ->
        r = mkRun (Exit 0) [NoDiff] [CallGet (Some (VStr (u "F")))] (e_remote env_new)
        /\ writes r = [])
  /\ (forall rev tab text,
        pulled (again env_new r) (Some (VStr (u "F"))) (Some (VStr (u "T")))
        = Some (rev, tab) ->
        e_local env_new = Some text ->
        (getTabText tab = text -> writes r2 = [] /\ r_remote r2 = r_remote r)
        /\ (getTabText tab <> text ->
            forall e, last_endIndex tab = Ok e ->
            writes r2
            = [CallBatchUpdate (Some (VStr (u "F")))
                 (replace_requests (Some (VStr (u "T"))) e text) rev])).
Proof.
  apply (compare_before_push DocsService.applied (u "n1") (u "note.md") env_new
           (Some (VStr (u "F"))) (Some (VStr (u "T")))).
  - discriminate.
  - discriminate.
  - reflexivity.
Defined.

(** The local file ends with a line feed. *)
Definition env_new_line : Env := mkEnv a_store (Some (u "new" ++ nl)) the_remote id None.

(** C2 does not hold as stated: a second attempt with identical content
    writes again. The first attempt pushes the local text [new] and the
    service accepts; the content of the tab is then the local text and the
    final terminator, so the second attempt, whose local file is the same,
    finds a difference and submits the same replacement again, guarded by the
    new revision. The same happens when the local file ends with a line
    feed. *)
Lemma identical_content_is_pushed_again :
  (let r := pullPushByNote DocsService.applied (u "n1") (u "note.md") env_new in
   let r2 := pullPushByNote DocsService.applied (u "n1") (u "note.md") (again env_new r) in
   r_ending r = Exit 0 /\ r_console r = [Pushed]
   /\ e_local (again env_new r) = e_local env_new
   /\ (getTabText <$> (r_remote r !! u "F" ≫= fun d => findTab (Some (VStr (u "T"))) (tabs d)))
      = Some (u "new" ++ nl)
   /\ r_console r2 = [Pushed]
   /\ writes r2 = [CallBatchUpdate (Some (VStr (u "F"))) the_requests (Some (u "R1'"))])
  /\ (let r := pullPushByNote DocsService.applied (u "n1") (u "note.md") env_new_line in
      let r2 := pullPushByNote DocsService.applied (u "n1") (u "note.md")
                  (again env_new_line r) in
      r_console r = [Pushed]
      /\ (getTabText <$> (r_remote r !! u "F" ≫= fun d => findTab (Some (VStr (u "T"))) (tabs d)))
         = Some (u "new" ++ nl ++ nl)
      /\ writes r2
         = [CallBatchUpdate (Some (VStr (u "F")))
              [DeleteContentRange (Some (VStr (u "T"))) 1 5;
               InsertText (Some (VStr (u "T"))) 1 (u "new" ++ nl)] (Some (u "R1'"))]).
Proof. split; repeat split; vm_compute; reflexivity. Qed.



End PushExamples.

(** ** The search for a tab *)

Module TabSearch.
Import Js Docs DocsFacts.

(** The tab is one of [ts], or lies somewhere below one of them. *)
Inductive in_forest (t : Tab) : list Tab -> Prop :=
  | at_top ts : In t ts -> in_forest t ts
  | below p ts : In p ts -> in_forest t (childTabs p) -> in_forest t ts.

Lemma in_forest_nil t : ~ in_forest t [].
Proof. intros H. inversion H; subst; simpl in *; done. Qed.

Lemma in_forest_app t a b : in_forest t (a ++ b) <-> in_forest t a \/ in_forest t b.
Proof.
  split.
  - intros H. inversion H as [ts Hin|p ts Hin Hc]; subst; apply in_app_iff in Hin.
    + destruct Hin; [left | right]; by apply at_top.
    + destruct Hin; [left | right]; by apply (below _ p).
  - intros [H|H]; inversion H as [ts Hin|p ts Hin Hc]; subst.
    + apply at_top, in_app_iff. by left.
    + apply (below _ p); [apply in_app_iff; by left | done].
    + apply at_top, in_app_iff. by right.
    + apply (below _ p); [apply in_app_iff; by right | done].
Qed.

Lemma in_forest_cons t x rest :
  in_forest t (x :: rest) <-> t = x \/ in_forest t (childTabs x) \/ in_forest t rest.
Proof.
  split.
  - intros H. inversion H as [ts Hin|p ts Hin Hc]; subst; destruct Hin as [->|Hin]; auto.
    + right; right. by apply at_top.
    + right; right. by apply (below _ p).
  - intros [->|[H|H]].
    + apply at_top. by left.
    + apply (below _ x); [by left | done].
    + inversion H as [ts Hin|p ts Hin Hc]; subst.
      * apply at_top. by right.
      * apply (below _ p); [by right | done].
Qed.

Definition found_right (wanted : option value) (stack : list Tab) (r : option Tab) : Prop :=
  match r with
  | Some t => tab_is wanted t = true /\ in_forest t stack
  | None => forall t, in_forest t stack -> tab_is wanted t = false
  end.

Lemma findTab_loop_right wanted fuel : forall stack r,
  findTab_loop fuel wanted stack = Some r -> found_right wanted stack r.
Proof.
  induction fuel as [|fuel IH]; intros stack r H; destruct stack as [|x rest]; simpl in H.
  - inversion H; subst. intros t Ht. by apply in_forest_nil in Ht.
  - destruct (tab_is wanted x) eqn:E; [|discriminate]. inversion H; subst.
    split; [done|]. apply at_top. by left.
  - inversion H; subst. intros t Ht. by apply in_forest_nil in Ht.
  - destruct (tab_is wanted x) eqn:E.
    + inversion H; subst. split; [done|]. apply at_top. by left.
    + apply IH in H. destruct r as [t|]; simpl in *.
      * destruct H as [Ht Hin]. split; [done|].
        apply in_forest_cons. apply in_forest_app in Hin. tauto.
      * intros t Ht. apply in_forest_cons in Ht. destruct Ht as [->|Ht]; [done|].
        apply H, in_forest_app. tauto.
Qed.

(** X15. The search for a tab, which ends on every document, returns a tab
    with the wanted id that is one of the document's tabs or lies below one,
    and returns nothing only when no such tab has the id. *)
Theorem findTab_finds wanted ts :
  match findTab wanted ts with
  | Some t => tab_is wanted t = true /\ in_forest t ts
  | None => forall t, in_forest t ts -> tab_is wanted t = false
  end.
Proof.
  unfold findTab. destruct (findTab_total wanted ts) as (r & H). rewrite H.
  exact (findTab_loop_right _ _ _ _ H).
Qed.

Lemma forest_size_length ts : (length ts <= forest_size ts)%nat.
Proof.
  unfold forest_size. induction ts as [|[i b cs] ts IH]; simpl; lia.
Qed.

Lemma findTab_loop_top wanted t stack : forall fuel extra,
  List.find (tab_is wanted) stack = Some t -> (length stack <= S fuel)%nat ->
  findTab_loop fuel wanted (stack ++ extra) = Some (Some t).
Proof.
  induction stack as [|x rest IH]; intros fuel extra H Hf; [discriminate|].
  simpl in H. destruct (tab_is wanted x) eqn:E.
  - inversion H; subst. destruct fuel; simpl; by rewrite E.
  - destruct rest as [|y rest]; [discriminate|].
    destruct fuel as [|fuel]; [simpl in Hf; lia|].
    simpl findTab_loop. rewrite E.
    change (y :: rest ++ extra) with ((y :: rest) ++ extra). rewrite <- app_assoc.
    apply IH; [exact H | simpl in *; lia].
Qed.

(** X16. The search goes through the tabs of the document before their
    children: when one of the document's own tabs has the id, the first such
    tab is returned, as by the lookup of scripts/mdToDocs.js. *)
Theorem top_level_tab_wins wanted ts t :
  List.find (tab_is wanted) ts = Some t -> findTab wanted ts = Some t.
Proof.
  intros H. unfold findTab.
  rewrite <- (app_nil_r ts) at 2.
  rewrite (findTab_loop_top wanted t ts _ [] H); [reflexivity|].
  pose proof (forest_size_length ts). lia.
Qed.

Definition twice_named : list Tab :=
  [mkTab (Some (u "a")) None [mkTab (Some (u "b")) (Some (mkBody None)) []];
   mkTab (Some (u "b")) None []].

(** [top_level_tab_wins] applies to tabs in which a child of the first tab and
    the second tab have the same id. *)
Lemma top_level_tab_wins_witness :
  findTab (Some (VStr (u "b"))) twice_named = Some (mkTab (Some (u "b")) None []).
Proof. apply (top_level_tab_wins (Some (VStr (u "b"))) twice_named). reflexivity. Defined.

End TabSearch.

Module FirstBatch.
Import Js Docs PullPush StyleRequests TabSearch.

(** X9. The first batch of scripts/mdToDocs.js is built from the first of the
    document's own tabs that has the id: that tab is also the one the search of
    the other scripts returns, and the batch is their replace batch for it. The
    children of the tabs are not looked at: when none of the document's own
    tabs has the id, nothing is deleted and the batch is the insertion alone,
    whatever a child tab with that id holds. *)
Theorem mdToDocs_first_batch (tab : jstr) (d : Document) (plain : jstr) :
  match List.find (tab_is (Some (VStr tab))) (tabs d) with
  | Some t =>
      findTab (Some (VStr tab)) (tabs d) = Some t
      /\ text_requests tab d plain
         = replace_requests (Some (VStr tab))
             (default 1%Z (b ← body t; c ← content b; l ← last c; endIndex l)) plain
  | None => text_requests tab d plain = [InsertText (Some (VStr tab)) 1 plain]
  end.
Proof.
  unfold text_requests, top_endIndex, top_tab.
  destruct (List.find (tab_is (Some (VStr tab))) (tabs d)) as [t|] eqn:E.
  - split; [|reflexivity]. unfold findTab.
    rewrite <- (app_nil_r (tabs d)) at 2.
    rewrite (findTab_loop_top _ t (tabs d) _ [] E); [reflexivity|].
    pose proof (forest_size_length (tabs d)). lia.
  - reflexivity.
Qed.

(** A tab [t.1] with content, below the tab [t.0]. *)
Definition nested_document : Document :=
  mkDocument (Some (u "r1"))
    [mkTab (Some (u "t.0"))
       (Some (mkBody (Some [mkStructural None (Some 5%Z)])))
       [mkTab (Some (u "t.1"))
          (Some (mkBody (Some [mkStructural None (Some 12%Z)]))) []]].

(** For the nested tab the search of the other scripts finds the tab, whose
    content ends at 12, and mdToDocs.js deletes nothing. *)
Example nested_tab_is_not_cleared :
  (exists t, findTab (Some (VStr (u "t.1"))) (tabs nested_document) = Some t
             /\ (b ← body t; c ← content b; l ← last c; endIndex l) = Some 12%Z)
  /\ text_requests (u "t.1") nested_document (u "new")
     = [InsertText (Some (VStr (u "t.1"))) 1 (u "new")].
Proof. split; [eexists; split; reflexivity | reflexivity]. Qed.

End FirstBatch.

(** ** More on the push scripts *)

Module PullPushMore.
Import Js Docs PullPush PullPushFacts.

Lemma guard_holds_own d : guard_holds (revisionId d) d = true.
Proof.
  unfold guard_holds. destruct (revisionId d) as [rev|]; [|reflexivity].
  unfold jstr_eqb. by apply bool_decide_eq_true.
Qed.

Lemma documents_get_ok r documentId d :
  documents_get r documentId = Ok d ->
  exists id, documentId = Some (VStr id) /\ r !! id = Some d.
Proof.
  unfold documents_get. destruct documentId as [[| | |id| |]|]; try discriminate.
  destruct (r !! id) as [d'|] eqn:E; [|discriminate]. intros H. inversion H; subst. eauto.
Qed.

(** The service accepts a batch guarded by the revision that the document
    has. *)
Lemma batch_accepted applied r id d requests :
  r !! id = Some d ->
  batchUpdate applied None r (Some (VStr id)) requests (revisionId d)
  = (Ok tt, <[id := applied requests d]> r).
Proof. intros H. unfold batchUpdate. by rewrite H, guard_holds_own. Qed.

(** X17. [pullPush] submits a batch only after it has pulled a tab whose text
    differs from the local file; the batch is guarded by the revision pulled,
    and it deletes what the tab holds, up to its last line end, and inserts the
    local text at the start. *)
Theorem pullPush_writes_a_difference applied documentId tabId localPath env d requests rev :
  In (CallBatchUpdate d requests rev)
     (r_calls (pullPush applied documentId tabId localPath env)) ->
  exists tab text e,
    d = Some (VStr documentId)
    /\ pulled env d (Some (VStr tabId)) = Some (rev, tab)
    /\ e_local env = Some text /\ getTabText tab <> text
    /\ last_endIndex tab = Ok e
    /\ requests
       = (if (1 <? e)%Z then [DeleteContentRange (Some (VStr tabId)) 1 (e - 1)] else [])
         ++ [InsertText (Some (VStr tabId)) 1 text].
Proof.
  unfold pullPush. destruct documentId as [|c1 s1]; [intros []|].
  destruct tabId as [|c2 s2]; [intros []|]. destruct localPath as [|c3 s3]; [intros []|].
  unfold pull_compare_push, pulled.
  destruct (documents_get (e_remote env) _) as [meta|] eqn:Eg;
    [|simpl; intros [H|[]]; discriminate].
  destruct (findTab _ (tabs meta)) as [tab|] eqn:Et;
    [|simpl; intros [H|[]]; discriminate].
  destruct (e_local env) as [localText|]; [|simpl; intros [H|[]]; discriminate].
  destruct (jstr_eqb (getTabText tab) localText) eqn:Eq;
    [simpl; intros [H|[]]; discriminate|].
  destruct (last_endIndex tab) as [endIndex|] eqn:El;
    [|simpl; intros [H|[]]; discriminate].
  intros Hin.
  assert (Heq : CallBatchUpdate d requests rev
                = CallBatchUpdate (Some (VStr (c1 :: s1)))
                    (replace_requests (Some (VStr (c2 :: s2))) endIndex localText)
                    (revisionId meta)).
  { destruct (batchUpdate _ _ _ _ _ _) as [[[]|err] r']; simpl in Hin;
      destruct Hin as [H|[H|[]]]; try discriminate; by symmetry. }
  inversion Heq; subst. exists tab, localText, endIndex.
  split; [reflexivity|]. split; [by rewrite Eg, Et|]. split; [reflexivity|].
  split; [|split; [exact El | reflexivity]].
  unfold jstr_eqb in Eq. by apply bool_decide_eq_false in Eq.
Qed.

(** [pullPush_writes_a_difference] applies to a run whose local text differs
    from the text of the tab. *)
Lemma pullPush_writes_a_difference_witness :
  exists tab text e,
    Some (VStr (u "F")) = Some (VStr (u "F"))
    /\ pulled (mkEnv PushExamples.a_store (Some (u "new")) PushExamples.the_remote id None)
         (Some (VStr (u "F"))) (Some (VStr (u "T")))
       = Some (Some (u "R1"), tab)
    /\ Some (u "new") = Some text /\ getTabText tab <> text
    /\ last_endIndex tab = Ok e
    /\ PushExamples.the_requests
       = (if (1 <? e)%Z then [DeleteContentRange (Some (VStr (u "T"))) 1 (e - 1)] else [])
         ++ [InsertText (Some (VStr (u "T"))) 1 text].
Proof.
  apply (pullPush_writes_a_difference PushExamples.bump (u "F") (u "T") (u "note.md")
           (mkEnv PushExamples.a_store (Some (u "new")) PushExamples.the_remote id None)
           (Some (VStr (u "F"))) PushExamples.the_requests (Some (u "R1"))).
  vm_compute. right. left. reflexivity.
Defined.

(** X18. When nobody else writes between the pull and the push and the call
    does not fail, the batch of [pullPush] is accepted: the run ends with code
    0 after one write, and the document is what the service makes of it. *)
Theorem undisturbed_push_is_accepted applied documentId tabId localPath env d requests rev :
  In (CallBatchUpdate d requests rev)
     (r_calls (pullPush applied documentId tabId localPath env)) ->
  e_fault env = None ->
  e_concurrent env (e_remote env) = e_remote env ->
  exists meta,
    e_remote env !! documentId = Some meta
    /\ rev = revisionId meta
    /\ pullPush applied documentId tabId localPath env
       = mkRun (Exit 0) [Pushed] [CallGet d; CallBatchUpdate d requests rev]
           (<[documentId := applied requests meta]> (e_remote env)).
Proof.
  unfold pullPush. destruct documentId as [|c1 s1]; [intros []|].
  destruct tabId as [|c2 s2]; [intros []|]. destruct localPath as [|c3 s3]; [intros []|].
  intros Hin Hf Hc.
  destruct (push_decides applied _ _ _ _ _ _ _ _ Hin) as (-> & (tab & Hpull) & Hrun).
  unfold pulled in Hpull.
  destruct (documents_get (e_remote env) _) as [meta|] eqn:Eg; [|discriminate].
  destruct (findTab _ (tabs meta)) as [tab'|]; [|discriminate].
  inversion Hpull; subst. clear Hpull.
  destruct (documents_get_ok _ _ _ Eg) as (id & Hid & Hlook). inversion Hid; subst id.
  exists meta. split; [exact Hlook|]. split; [reflexivity|].
  by rewrite Hrun, Hf, Hc, (batch_accepted applied _ _ _ _ Hlook).
Qed.

(** [undisturbed_push_is_accepted] applies to the same run, nobody else
    writing. *)
Lemma undisturbed_push_is_accepted_witness :
  exists meta,
    PushExamples.the_remote !! u "F" = Some meta
    /\ Some (u "R1") = revisionId meta
    /\ pullPush PushExamples.bump (u "F") (u "T") (u "note.md")
         (mkEnv PushExamples.a_store (Some (u "new")) PushExamples.the_remote id None)
       = mkRun (Exit 0) [Pushed]
           [CallGet (Some (VStr (u "F")));
            CallBatchUpdate (Some (VStr (u "F"))) PushExamples.the_requests (Some (u "R1"))]
           (<[u "F" := PushExamples.bump PushExamples.the_requests meta]>
              PushExamples.the_remote).
Proof.
  apply (undisturbed_push_is_accepted PushExamples.bump (u "F") (u "T") (u "note.md")
           (mkEnv PushExamples.a_store (Some (u "new")) PushExamples.the_remote id None)
           (Some (VStr (u "F"))) PushExamples.the_requests (Some (u "R1"))).
  - vm_compute. right. left. reflexivity.
  - reflexivity.
  - reflexivity.
Defined.

End PullPushMore.

Module ReplaceFacts.
Import Js JsFacts Docs PullPush Mapping StoreStability PullPushMore ReplaceTabBody.


(** The batch that the script submits for a tab with the elements [els]. *)
Definition the_batch (tabId : jstr) (els : list StructuralElement) (text : jstr)
    : list Request :=
  replace_requests (Some (VStr tabId)) (default 1%Z (l ← last els; endIndex l)) text.





(** A store in which the first record is [null]. *)
Definition a_broken_store : file :=
  write_json (VObj [(k_notes, VObj [(u "n0", VNull)]); (k_notebooks, VObj [])]).

(** X20. An error after the batch has been accepted is reported as a failed
    replacement: when the lookup of the note throws, the script ends with code
    4 although the document has been replaced, and the store is as it was. *)
Theorem replace_reports_late_failure applied (documentId tabId filePath now : jstr)
    (env : Env) (text : jstr) meta tab els e :
  documentId <> [] -> tabId <> [] -> filePath <> [] ->
  e_local env = Some text ->
  e_remote env !! documentId = Some meta ->
  findTab (Some (VStr tabId)) (tabs meta) = Some tab ->
  body_elements tab = Some els ->
  e_fault env = None ->
  e_concurrent env (e_remote env) = e_remote env ->
  findNoteIdByFileId (Some documentId) (e_store env) = Throw e ->
  let out := replaceTabBody applied documentId tabId filePath now env in
  o_ending out = Exit 4 /\ o_console out = [RFailed e]
  /\ o_remote out
     = <[documentId := applied (the_batch tabId els text) meta]> (e_remote env)
  /\ o_store out = e_store env.
Proof.
  intros H1 H2 H3 Hl Hm Ht Hb Hf Hc Hfind out.
  assert (Hout : out = mkOutcome (Exit 4) [RFailed e]
            [CallGet (Some (VStr documentId));
             CallBatchUpdate (Some (VStr documentId)) (the_batch tabId els text)
               (revisionId meta);
             CallGet (Some (VStr documentId))]
            (<[documentId := applied (the_batch tabId els text) meta]> (e_remote env))
            (e_store env)).
  { unfold out, replaceTabBody.
    destruct documentId as [|c1 s1]; [done|]. destruct tabId as [|c2 s2]; [done|].
    destruct filePath as [|c3 s3]; [done|].
    rewrite Hl. cbv zeta. unfold documents_get at 1. rewrite Hm, Ht, Hb, Hf, Hc.
    fold (the_batch (c2 :: s2) els text).
    rewrite (batch_accepted applied _ _ _ _ Hm).
    unfold record_revision, documents_get, remote. rewrite lookup_insert_eq. simpl.
    by rewrite Hfind. }
  by rewrite Hout.
Qed.

Definition env_replace (store : file) : Env :=
  mkEnv store (Some (u "old" ++ nl)) PushExamples.the_remote id None.


(** [replace_reports_late_failure] applies to the same run with a store whose
    first record is [null]. *)
Lemma replace_reports_late_failure_witness :
  let out := replaceTabBody PushExamples.bump (u "F") (u "T") (u "note.md")
               (u "2025-01-01T00:00:00.000Z") (env_replace a_broken_store) in
  o_ending out = Exit 4 /\ o_console out = [RFailed TypeError]
  /\ o_remote out
     = <[u "F" := PushExamples.bump
                    (the_batch (u "T") [PushExamples.a_paragraph (u "old" ++ nl)]
                       (u "old" ++ nl))
                    (PushExamples.a_document (u "R1") (u "old" ++ nl))]>
         PushExamples.the_remote
  /\ o_store out = a_broken_store.
Proof.
  apply (replace_reports_late_failure PushExamples.bump (u "F") (u "T") (u "note.md")
           (u "2025-01-01T00:00:00.000Z") (env_replace a_broken_store)
           (u "old" ++ nl) (PushExamples.a_document (u "R1") (u "old" ++ nl))
           (mkTab (Some (u "T"))
              (Some (mkBody (Some [PushExamples.a_paragraph (u "old" ++ nl)]))) [])
           [PushExamples.a_paragraph (u "old" ++ nl)] TypeError).
  - discriminate.
  - discriminate.
  - discriminate.
  - reflexivity.
  - reflexivity.
  - reflexivity.
  - reflexivity.
  - reflexivity.
  - reflexivity.
  - reflexivity.
Defined.

End ReplaceFacts.

(** ** The poller: what a step may touch *)

Module PollerFacts.
Import Js Docs Poller.

(** Effects of the handling of a change: anything but the calls to the
    changes feed and the writing of the checkpoint. *)
Definition quiet (e : effect) : Prop :=
  match e with
  | EGetStartPageToken | EChangesList _ | ESaveState _ => False
  | _ => True
  end.

(** [w'] comes after [w], the checkpoint file is the same, and what was done
    in between is [quiet]. *)
Definition keeps_cursor (w w' : World) : Prop :=
  stateFile w' = stateFile w
  /\ exists new, trace w' = trace w ++ new /\ Forall quiet new.

Lemma keeps_cursor_refl w : keeps_cursor w w.
Proof. split; [reflexivity|]. exists []. by rewrite app_nil_r. Qed.

Lemma keeps_cursor_trans w1 w2 w3 :
  keeps_cursor w1 w2 -> keeps_cursor w2 w3 -> keeps_cursor w1 w3.
Proof.
  intros (H1 & n1 & T1 & Q1) (H2 & n2 & T2 & Q2). split; [congruence|].
  exists (n1 ++ n2). rewrite T2, T1, <- app_assoc. split; [reflexivity|].
  by apply Forall_app.
Qed.

Definition preserves {A} (m : M A) : Prop :=
  forall w o w', m w = (o, w') -> keeps_cursor w w'.

Lemma preserves_ret {A} (a : A) : preserves (ret a).
Proof. intros w o w' H. inversion H; subst. apply keeps_cursor_refl. Qed.

Lemma preserves_lift {A} (r : result A) : preserves (lift r).
Proof.
  intros w o w' H. unfold lift in H.
  destruct r; inversion H; subst; apply keeps_cursor_refl.
Qed.

Lemma preserves_bind {A B} (m : M A) (k : A -> M B) :
  preserves m -> (forall a, preserves (k a)) -> preserves (bind m k).
Proof.
  intros Hm Hk w o w' H. unfold bind in H.
  destruct (m w) as [[a|e|] w1] eqn:E.
  - eapply keeps_cursor_trans; [eapply Hm, E | eapply Hk, H].
  - inversion H; subst. eapply Hm, E.
  - inversion H; subst. eapply Hm, E.
Qed.

Lemma preserves_emit e : quiet e -> preserves (emit e).
Proof.
  intros Hq w o w' H. inversion H; subst. split; [reflexivity|].
  exists [e]. split; [reflexivity|]. by constructor.
Qed.

Lemma preserves_read_mapping {A} (op : file -> result A) : preserves (read_mapping op).
Proof. intros w o w' H. unfold read_mapping in H. eapply preserves_lift, H. Qed.

Lemma preserves_write_mapping op : preserves (write_mapping op).
Proof.
  unfold write_mapping. apply preserves_bind; [apply preserves_read_mapping|].
  intros [v [data|]]; [|apply preserves_ret].
  apply preserves_bind; [|intros; apply preserves_ret].
  intros w o w' H. inversion H; subst. split; [reflexivity|].
  exists [ESaveMapping data]. split; [reflexivity|]. by constructor.
Qed.

Lemma preserves_writeShadow path text : preserves (writeShadow path text).
Proof.
  intros w o w' H. inversion H; subst. split; [reflexivity|].
  exists [EWriteShadow path text]. split; [reflexivity|]. by constructor.
Qed.

Lemma preserves_toISOString env : preserves (toISOString env).
Proof.
  intros w o w' H. inversion H; subst. split; [reflexivity|].
  exists []. simpl. by rewrite app_nil_r.
Qed.

Lemma preserves_process_change env cfg ch : preserves (process_change env cfg ch).
Proof.
  unfold process_change.
  apply preserves_bind; [apply preserves_read_mapping|]. intros [[|c n]|];
    try apply preserves_ret.
  destruct (c_removed ch).
  - apply preserves_bind; [apply preserves_write_mapping|]. intros _.
    by apply preserves_emit.
  - apply preserves_bind; [apply preserves_read_mapping|]. intros binding.
    destruct (negb (truthy binding)); [apply preserves_ret|].
    apply preserves_bind; [apply preserves_lift|]. intros tabId.
    destruct (negb (truthy_opt tabId)); [apply preserves_ret|].
    apply preserves_bind; [by apply preserves_emit|]. intros _.
    apply preserves_bind; [apply preserves_lift|]. intros meta.
    destruct (findTab tabId (tabs meta)) as [tab|]; [|apply preserves_ret].
    apply preserves_bind; [apply preserves_writeShadow|]. intros _.
    apply preserves_bind; [apply preserves_toISOString|]. intros ts.
    apply preserves_bind; [apply preserves_write_mapping|]. intros _.
    by apply preserves_emit.
Qed.

Lemma preserves_for_each {A} (f : A -> M unit) l :
  (forall x, preserves (f x)) -> preserves (for_each f l).
Proof.
  intros Hf. induction l as [|x l IH]; simpl; [apply preserves_ret|].
  apply preserves_bind; [apply Hf | intros _; apply IH].
Qed.


(** ** One tick *)

Definition continuation (page : Page) : option jstr :=
  match nextPageToken page with
  | Some (c :: t) => Some (c :: t)
  | _ => None
  end.

Definition newToken (page : Page) (pageToken : value) : value :=
  match newStartPageToken page with
  | Some (c :: t) => VStr (c :: t)
  | _ => pageToken
  end.

(** A set of page tokens that the answers of the feed do not lead out of. *)
Definition closed (S : value -> Prop) (env : Env) : Prop :=
  forall tok page, S tok -> changes_list env tok = Ok page ->
    (forall t, continuation page = Some t -> S (VStr t)) /\ S (newToken page tok).

(** What is done between the start of a tick and the writing of the
    checkpoint: the feed is asked at tokens of [S] only. *)
Definition within (S : value -> Prop) (e : effect) : Prop :=
  match e with
  | EChangesList t => S t
  | EGetStartPageToken | ESaveState _ => False
  | _ => True
  end.

Lemma quiet_within S e : quiet e -> within S e.
Proof. by destruct e. Qed.

Definition cursor_file (tok : value) : value := VObj [(k_pageToken, tok)].

(** What a tick that started at a token of [S] has done when it stops. When
    it comes to its end, the last thing it did was to write the checkpoint,
    after a page without continuation; otherwise the checkpoint file is as it
    was. *)
Definition tick_result (S : value -> Prop) (env : Env) (w : World)
    (r : outcome unit * World) : Prop :=
  exists new, trace r.2 = trace w ++ new /\
    match r.1 with
    | Done _ =>
        exists mid last page,
          new = mid ++ [ESaveState (cursor_file (newToken page last))]
          /\ Forall (within S) mid
          /\ stateFile r.2 = write_json (cursor_file (newToken page last))
          /\ S last /\ changes_list env last = Ok page /\ continuation page = None
          /\ In (EChangesList last) mid
    | _ => Forall (within S) new /\ stateFile r.2 = stateFile w
    end.

Lemma tick_result_after S env w w1 pre r :
  stateFile w1 = stateFile w -> trace w1 = trace w ++ pre -> Forall (within S) pre ->
  tick_result S env w1 r -> tick_result S env w r.
Proof.
  intros Hs Ht Hp (new & Hn & Hr). exists (pre ++ new).
  rewrite Hn, Ht, <- app_assoc. split; [reflexivity|].
  destruct r.1 as [[]|e|].
  - destruct Hr as (mid & last & page & -> & Hm & Hst & HS & Hl & Hc & Hin).
    exists (pre ++ mid), last, page. rewrite <- app_assoc.
    repeat split; try done; [by apply Forall_app | apply in_or_app; by right].
  - destruct Hr as [Hf Hr]. split; [by apply Forall_app | congruence].
  - destruct Hr as [Hf Hr]. split; [by apply Forall_app | congruence].
Qed.

Lemma page_loop_result S fuel env cfg : forall tok w,
  closed S env -> S tok -> tick_result S env w (page_loop fuel env cfg tok w).
Proof.
  induction fuel as [|fuel IH]; intros tok w Hcl HS.
  - exists []. simpl. rewrite app_nil_r. repeat split; constructor.
  - simpl. unfold bind at 1. simpl.
    set (w1 := mkWorld _ _ _ _ (trace w ++ [EChangesList tok])).
    unfold bind at 1, lift.
    destruct (changes_list env tok) as [page|e] eqn:Epage.
    2:{ exists [EChangesList tok]. simpl. repeat split. by repeat constructor. }
    unfold bind at 1.
    destruct (for_each (process_change env cfg) (changes page) w1) as [o w2] eqn:Efor.
    assert (Hk : keeps_cursor w1 w2).
    { eapply (preserves_for_each (process_change env cfg)); [|exact Efor].
      intros ch. apply preserves_process_change. }
    destruct Hk as (Hst & new & Htr & Hq).
    assert (Hw : Forall (within S) ([EChangesList tok] ++ new)).
    { apply Forall_app. split; [by repeat constructor|].
      eapply Forall_impl; [exact Hq|]. intros e. apply quiet_within. }
    assert (Htr' : trace w2 = trace w ++ ([EChangesList tok] ++ new)).
    { rewrite Htr. unfold w1. simpl. by rewrite <- app_assoc. }
    destruct (Hcl tok page HS Epage) as [Hnext Hnew].
    destruct o as [[]|e|].
    + assert (Hsave : continuation page = None ->
                tick_result S env w (saveState (cursor_file (newToken page tok)) w2)).
      { intros Hnone.
        exists (([EChangesList tok] ++ new)
                ++ [ESaveState (cursor_file (newToken page tok))]).
        simpl. rewrite Htr'. split; [by rewrite <- !app_assoc|].
        exists ([EChangesList tok] ++ new), tok, page.
        repeat split; try done. simpl. by left. }
      unfold continuation in Hnext, Hsave.
      destruct (nextPageToken page) as [[|c t]|] eqn:Enext.
      * by apply Hsave.
      * apply (tick_result_after S env w w2 ([EChangesList tok] ++ new));
          [by rewrite Hst | exact Htr' | exact Hw |].
        apply IH; [done|]. by apply Hnext.
      * by apply Hsave.
    + exists ([EChangesList tok] ++ new). simpl. split; [done|]. split; [done|].
      by rewrite Hst.
    + exists ([EChangesList tok] ++ new). simpl. split; [done|]. split; [done|].
      by rewrite Hst.
Qed.

Definition load_state_file (f : file) : value :=
  match (raw ← readFileSync f; JSON_parse raw) with
  | Ok st => st
  | Throw _ => VObj []
  end.

(** The cursor that the checkpoint file holds, if it holds one. *)
Definition stored_cursor (f : file) : result (option value) :=
  tok ← get_prop (load_state_file f) k_pageToken;
  Ok (if truthy_opt tok then tok else None).

Lemma stored_cursor_saved tok :
  stored_cursor (write_json (cursor_file tok)) = Ok (if truthy tok then Some tok else None).
Proof. reflexivity. Qed.

Lemma processOnce_unfold fuel env cfg w :
  processOnce fuel env cfg w
  = match stored_cursor (stateFile w) with
    | Ok (Some tok) => page_loop fuel env cfg tok w
    | Ok None => (Done tt, w)
    | Throw e => (Threw e, w)
    end.
Proof.
  unfold processOnce, stored_cursor, bind, loadState, lift, load_state_file.
  destruct (get_prop _ k_pageToken) as [[tok|]|e]; simpl; try reflexivity.
  by destruct (truthy tok).
Qed.

(** A tick, whatever the checkpoint file holds. *)
Lemma processOnce_result S fuel env cfg w :
  closed S env ->
  (forall tok, stored_cursor (stateFile w) = Ok (Some tok) -> S tok) ->
  match stored_cursor (stateFile w) with
  | Ok (Some tok) => tick_result S env w (processOnce fuel env cfg w)
  | Ok None => processOnce fuel env cfg w = (Done tt, w)
  | Throw e => processOnce fuel env cfg w = (Threw e, w)
  end.
Proof.
  intros Hcl HS. rewrite processOnce_unfold.
  destruct (stored_cursor (stateFile w)) as [[tok|]|e]; try reflexivity.
  apply page_loop_result; [done|]. by apply HS.
Qed.


(** ** The first run and the watch loop *)

Definition start_file (start : option jstr) : value :=
  VObj (match start with Some s => [(k_pageToken, VStr s)] | None => [] end).

(** The world after the first-run initialisation. *)
Definition initialised (start : option jstr) (w : World) : World :=
  mkWorld (mappingFile w) (write_json (start_file start)) (shadow w) (clock w)
    (trace w ++ [EGetStartPageToken; ESaveState (start_file start);
                 ELog (Initialized start)]).

Lemma initIfNeeded_unfold env w :
  initIfNeeded env w
  = match stored_cursor (stateFile w) with
    | Ok (Some tok) => (Done tok, w)
    | Ok None =>
        match getStartPageToken env with
        | Ok start => (Done VNull, initialised start w)
        | Throw e =>
            (Threw e, mkWorld (mappingFile w) (stateFile w) (shadow w) (clock w)
                        (trace w ++ [EGetStartPageToken]))
        end
    | Throw e => (Threw e, w)
    end.
Proof.
  unfold initIfNeeded, stored_cursor, bind, loadState, lift, load_state_file.
  destruct (get_prop _ k_pageToken) as [[tok|]|e]; simpl; try reflexivity.
  - destruct (truthy tok); simpl; [reflexivity|].
    destruct (getStartPageToken env); simpl; [|reflexivity].
    unfold initialised. by rewrite <- !app_assoc.
  - destruct (getStartPageToken env); simpl; [|reflexivity].
    unfold initialised. by rewrite <- !app_assoc.
Qed.

(** What may be done once the first run is over: no new start token is
    asked for, and the feed is asked at tokens of [S] only. *)
Definition asked_in (S : value -> Prop) (e : effect) : Prop :=
  match e with
  | EChangesList t => S t
  | EGetStartPageToken => False
  | _ => True
  end.

Lemma within_asked_in S e : within S e -> asked_in S e.
Proof. by destruct e. Qed.

Definition cursor_in (S : value -> Prop) (w : World) : Prop :=
  forall tok, stored_cursor (stateFile w) = Ok (Some tok) -> S tok.

Lemma guarded_tick S fuel env cfg w :
  closed S env -> cursor_in S w ->
  let r := guarded (processOnce fuel env cfg) w in
  cursor_in S r.2 /\ (forall e, r.1 <> Threw e)
  /\ exists new, trace r.2 = trace w ++ new /\ Forall (asked_in S) new.
Proof.
  intros Hcl Hcur. pose proof (processOnce_result S fuel env cfg w Hcl Hcur) as H.
  unfold guarded. simpl.
  destruct (stored_cursor (stateFile w)) as [[tok|]|e] eqn:Ecur.
  - destruct H as (new & Htr & H).
    destruct (processOnce fuel env cfg w) as [[[]|e|] w'] eqn:E; simpl in *.
    + destruct H as (mid & last & page & -> & Hmid & Hst & HS & Hpage & _ & _).
      split; [|split; [done|]].
      * intros t Ht. rewrite Hst, stored_cursor_saved in Ht.
        destruct (truthy (newToken page last)); inversion Ht; subst.
        by apply (Hcl last page).
      * eexists. split; [exact Htr|]. apply Forall_app. split; [|by repeat constructor].
        eapply Forall_impl; [exact Hmid|]. apply within_asked_in.
    + destruct H as [Hnew Hst]. split; [|split; [done|]].
      * intros t Ht. apply Hcur. by rewrite <- Hst.
      * exists (new ++ [ELog (PollError e)]). rewrite Htr, <- app_assoc.
        split; [reflexivity|]. apply Forall_app. split; [|by repeat constructor].
        eapply Forall_impl; [exact Hnew|]. apply within_asked_in.
    + destruct H as [Hnew Hst]. split; [|split; [done|]].
      * intros t Ht. apply Hcur. by rewrite <- Hst.
      * exists new. split; [exact Htr|].
        eapply Forall_impl; [exact Hnew|]. apply within_asked_in.
  - rewrite H. simpl. split; [done|]. split; [done|].
    exists []. by rewrite app_nil_r.
  - rewrite H. simpl. split; [done|]. split; [done|].
    exists [ELog (PollError e)]. split; [reflexivity|]. by repeat constructor.
Qed.

(** In the watch loop the feed is only ever asked at tokens that come from
    the stored cursor through the answers of the feed. *)
Lemma watch_loop_asks S fuel cfg ticks : forall w,
  Forall (closed S) ticks -> cursor_in S w ->
  exists later, trace (watch_loop fuel cfg ticks w).2 = trace w ++ later
                /\ Forall (asked_in S) later.
Proof.
  induction ticks as [|env ticks IH]; intros w Hcl Hcur.
  - exists []. simpl. by rewrite app_nil_r.
  - inversion Hcl as [|? ? Hc Hcl']; subst.
    destruct (guarded_tick S fuel env cfg w Hc Hcur) as (Hcur' & Hno & new & Htr & Hnew).
    simpl. unfold bind.
    destruct (guarded (processOnce fuel env cfg) w) as [[[]|e|] w'] eqn:E; simpl in *.
    + destruct (IH w' Hcl' Hcur') as (later & Hl & Hlater).
      exists (new ++ later). rewrite Hl, Htr, <- app_assoc. split; [reflexivity|].
      by apply Forall_app.
    + by destruct (Hno e).
    + by exists new.
Qed.


(** C6. On a run that finds no stored cursor, the poller asks the feed for
    its current token, writes it to the checkpoint file and does nothing else:
    the store and the shadow files are untouched, and no change is listed or
    pulled. Without [--watch] the run ends there. With [--watch] it goes on
    with the watch loop from that checkpoint, and from then on the feed is only
    asked at that token or at tokens that its answers lead to: for every set of
    tokens that holds the first one and that the answers do not lead out of,
    every token asked for is in the set. *)
Theorem first_run_only_initialises fuel cfg env ticks w C0 :
  stored_cursor (stateFile w) = Ok None ->
  getStartPageToken env = Ok (Some C0) ->
  let w0 := initialised (Some C0) w in
  main fuel false cfg env ticks w = (Done tt, w0)
  /\ stateFile w0 = write_json (cursor_file (VStr C0))
  /\ mappingFile w0 = mappingFile w /\ shadow w0 = shadow w
  /\ trace w0 = trace w ++ [EGetStartPageToken; ESaveState (cursor_file (VStr C0));
                            ELog (Initialized (Some C0))]
  /\ main fuel true cfg env ticks w = watch_loop fuel cfg ticks w0
  /\ forall S : value -> Prop,
       S (VStr C0) -> Forall (closed S) ticks ->
       exists later, trace (watch_loop fuel cfg ticks w0).2 = trace w0 ++ later
                     /\ Forall (asked_in S) later.
Proof.
  intros Hcur Hstart w0.
  assert (Hinit : initIfNeeded env w = (Done VNull, w0)).
  { by rewrite initIfNeeded_unfold, Hcur, Hstart. }
  repeat split.
  - unfold main, bind. by rewrite Hinit.
  - unfold main, bind. by rewrite Hinit.
  - intros S HS Hcl. apply watch_loop_asks; [done|].
    intros tok Htok. unfold w0 in Htok. simpl in Htok.
    change (start_file (Some C0)) with (cursor_file (VStr C0)) in Htok.
    rewrite stored_cursor_saved in Htok.
    destruct (truthy (VStr C0)); by inversion Htok; subst.
Qed.

Definition not_saving (e : effect) : Prop :=
  match e with
  | ESaveState _ => False
  | _ => True
  end.

Lemma within_not_saving e : within (fun _ => True) e -> not_saving e.
Proof. by destruct e. Qed.

Lemma closed_all env : closed (fun _ => True) env.
Proof. by intros tok page _ _. Qed.

(** The checkpoint during one tick. *)
Lemma tick_cursor fuel env cfg w :
  let r := processOnce fuel env cfg w in
  exists new, trace r.2 = trace w ++ new /\
    match r.1 with
    | Done _ =>
        (stored_cursor (stateFile w) = Ok None /\ r.2 = w)
        \/ exists mid last page,
             new = mid ++ [ESaveState (cursor_file (newToken page last))]
             /\ Forall not_saving mid
             /\ stateFile r.2 = write_json (cursor_file (newToken page last))
             /\ changes_list env last = Ok page /\ continuation page = None
             /\ In (EChangesList last) mid
    | _ => Forall not_saving new /\ stateFile r.2 = stateFile w
    end.
Proof.
  intros r. unfold r.
  pose proof (processOnce_result (fun _ => True) fuel env cfg w (closed_all env)) as H.
  destruct (stored_cursor (stateFile w)) as [[tok|]|e] eqn:Ecur.
  - destruct H as (new & Htr & H); [done|]. exists new. split; [exact Htr|].
    destruct (processOnce fuel env cfg w).1 as [[]|e|].
    + right. destruct H as (mid & last & page & -> & Hmid & Hst & _ & Hpage & Hc & Hin).
      exists mid, last, page. repeat split; try done.
      eapply Forall_impl; [exact Hmid|]. apply within_not_saving.
    + destruct H as [Hn Hs]. split; [|done].
      eapply Forall_impl; [exact Hn|]. apply within_not_saving.
    + destruct H as [Hn Hs]. split; [|done].
      eapply Forall_impl; [exact Hn|]. apply within_not_saving.
  - rewrite H; [|done]. exists []. simpl. rewrite app_nil_r. split; [done|]. by left.
  - rewrite H; [|done]. exists []. simpl. rewrite app_nil_r. by repeat split.
Qed.


(** ** Pulls *)

Import StoreStability.

(** What the handling of a change that is not a removal pulls, as decided by
    the store file: the note, the document and the tab. *)
Definition pull_decision (env : Env) (fileId : option jstr) (f : file)
    : option (jstr * Document * Tab) :=
  match Mapping.findNoteIdByFileId fileId f with
  | Ok (Some (c :: n)) =>
      match Mapping.getBinding (c :: n) f with
      | Ok binding =>
          if truthy binding then
            match get_prop binding (u "tabId") with
            | Ok tabId =>
                if truthy_opt tabId then
                  match documents_get env fileId with
                  | Ok meta =>
                      (fun tab => (c :: n, meta, tab)) <$> findTab tabId (tabs meta)
                  | Throw _ => None
                  end
                else None
            | Throw _ => None
            end
          else None
      | Throw _ => None
      end
  | _ => None
  end.

Definition shadow_name (noteId : jstr) : jstr := noteId ++ u ".md".

Lemma bind_run {A B} (m : M A) (k : A -> M B) w :
  bind m k w = match m w with
               | (Done a, w') => k a w'
               | (Threw e, w') => (Threw e, w')
               | (Running, w') => (Running, w')
               end.
Proof. reflexivity. Qed.

Lemma read_mapping_run {A} (op : file -> result A) w :
  read_mapping op w = match op (mappingFile w) with
                      | Ok a => (Done a, w)
                      | Throw e => (Threw e, w)
                      end.
Proof. reflexivity. Qed.

Lemma lift_run {A} (r : result A) w :
  lift r w = match r with Ok a => (Done a, w) | Throw e => (Threw e, w) end.
Proof. reflexivity. Qed.

Lemma write_mapping_run op w :
  write_mapping op w
  = match op (mappingFile w) with
    | Ok (v, Some data) =>
        (Done v, mkWorld (write_json data) (stateFile w) (shadow w) (clock w)
                   (trace w ++ [ESaveMapping data]))
    | Ok (v, None) => (Done v, w)
    | Throw e => (Threw e, w)
    end.
Proof.
  unfold write_mapping. rewrite bind_run, read_mapping_run.
  by destruct (op (mappingFile w)) as [[v [data|]]|e].
Qed.

(** The files after the handling of a change that is not a removal. *)
Lemma pull_files env cfg ch w :
  c_removed ch = false ->
  let r := process_change env cfg ch w in
  match pull_decision env (c_fileId ch) (mappingFile w) with
  | Some (noteId, meta, tab) =>
      shadow r.2 = <[shadow_name noteId := tabToMarkdown cfg tab]> (shadow w)
      /\ In (EDocumentsGet (c_fileId ch)) (trace r.2)
      /\ mappingFile r.2
         = match save_checkpoint noteId (revisionId meta) (now env (clock w))
                   (mappingFile w) with
           | Ok (_, s) => Mapping.commit (mappingFile w) s
           | Throw _ => mappingFile w
           end
  | None => shadow r.2 = shadow w /\ mappingFile r.2 = mappingFile w
  end.
Proof.
  intros Hrem r. unfold r, process_change, pull_decision.
  rewrite Hrem, bind_run, read_mapping_run.
  destruct (Mapping.findNoteIdByFileId (c_fileId ch) (mappingFile w))
    as [[[|c n]|]|e]; try done.
  rewrite bind_run, read_mapping_run.
  destruct (Mapping.getBinding (c :: n) (mappingFile w)) as [binding|e]; [|done].
  destruct (truthy binding); [|done]. cbn [negb].
  rewrite bind_run, lift_run.
  destruct (get_prop binding (u "tabId")) as [tabId|e]; [|done].
  destruct (truthy_opt tabId); [|done]. cbn [negb].
  rewrite bind_run. cbn [emit]. rewrite bind_run, lift_run.
  destruct (documents_get env (c_fileId ch)) as [meta|e]; [|done].
  destruct (findTab tabId (tabs meta)) as [tab|]; [|done]. cbn [fmap option_fmap option_map].
  rewrite bind_run. cbn [writeShadow].
  rewrite bind_run. cbn [toISOString].
  rewrite bind_run, write_mapping_run. cbn [mappingFile clock].
  destruct (save_checkpoint _ _ _ _) as [[v [data|]]|e]; simpl.
  - repeat split. rewrite !in_app_iff. simpl. tauto.
  - repeat split. rewrite !in_app_iff. simpl. tauto.
  - repeat split. rewrite !in_app_iff. simpl. tauto.
Qed.


Definition k_tabId : jstr := u "tabId".

(** A pull is decided for a note whose record has a tab id, when the
    document is served and has that tab. *)
Lemma pull_decision_some env fid f noteId meta tab :
  pull_decision env fid f = Some (noteId, meta, tab)
  <-> exists rec t,
        noteId <> [] /\ Mapping.findNoteIdByFileId fid f = Ok (Some noteId)
        /\ Mapping.getBinding noteId f = Ok (VObj rec)
        /\ obj_get rec k_tabId = Some t /\ truthy t = true
        /\ documents_get env fid = Ok meta
        /\ findTab (Some t) (tabs meta) = Some tab.
Proof.
  unfold pull_decision. split.
  - destruct (Mapping.findNoteIdByFileId fid f) as [[[|c n]|]|e] eqn:Efind;
      try discriminate.
    destruct (Mapping.getBinding (c :: n) f) as [binding|e] eqn:Eb; [|discriminate].
    destruct binding as [|b|z|s|rec|bn]; simpl; try discriminate.
    + by destruct b.
    + by destruct (negb _).
    + by destruct s.
    + JsFacts.fields.
      destruct (obj_get rec (u "tabId")) as [t|] eqn:Et; simpl; [|discriminate].
      destruct (truthy t) eqn:Tt; [|discriminate].
      destruct (documents_get env fid) as [meta'|e]; [|discriminate].
      destruct (findTab (Some t) (tabs meta')) as [tab'|] eqn:Etab; [|discriminate].
      simpl. intros H; inversion H; subst. exists rec, t. by repeat split.
  - intros (rec & t & Hne & Hfind & Hb & Ht & Tt & Hdoc & Htab).
    rewrite Hfind. destruct noteId as [|c n]; [done|]. rewrite Hb. simpl.
    JsFacts.fields.
    unfold k_tabId in Ht. rewrite Ht. simpl. rewrite Tt, Hdoc, Htab. reflexivity.
Qed.

Lemma checkpoint_keys rev ts : NoDup (own_entries (Some (checkpoint rev ts))).*1.
Proof.
  destruct rev; simpl; apply (bool_decide_unpack _); vm_compute; exact I.
Qed.

Definition k_revisionId : jstr := u "lastKnownRevisionId".

(** The record that a pull saves: the old one with the checkpoint, the
    revision being left out when the document has none. *)
Definition pulled_record (rec : obj) (rev : option jstr) (ts : jstr) : obj :=
  let merged := spread2 (Some (VObj rec)) (Some (checkpoint rev ts)) in
  match rev with
  | Some _ => merged
  | None => List.filter (fun p => negb (key_eqb p.1 k_revisionId)) merged
  end.

Lemma obj_get_filter_out (o : obj) k0 k :
  obj_get (List.filter (fun p => negb (key_eqb p.1 k0)) o) k
  = if key_eqb k0 k then None else obj_get o k.
Proof.
  induction o as [|[k' v'] o IH]; simpl.
  - rewrite JsFacts.obj_get_nil. by destruct (key_eqb k0 k).
  - destruct (key_eqb k' k0) eqn:E0; simpl.
    + apply JsFacts.key_eqb_eq in E0; subst k'. rewrite IH, JsFacts.obj_get_cons.
      by destruct (key_eqb k0 k).
    + rewrite !JsFacts.obj_get_cons, IH. destruct (key_eqb k' k) eqn:E; [|done].
      apply JsFacts.key_eqb_eq in E; subst k'.
      destruct (key_eqb k0 k) eqn:E1; [|done].
      apply JsFacts.key_eqb_eq in E1; subst k0. by rewrite JsFacts.key_eqb_refl in E0.
Qed.

(** The properties of the record that a pull saves. *)
Lemma pulled_record_get rec rev ts k :
  NoDup rec.*1 ->
  obj_get (pulled_record rec rev ts) k
  = if key_eqb k_revisionId k then VStr <$> rev
    else if key_eqb (u "lastSyncTs") k then Some (VStr ts)
    else obj_get rec k.
Proof.
  intros Hnd. unfold pulled_record, checkpoint. cbv zeta. destruct rev as [r|].
  - rewrite JsFacts.spread2_get; [|done|apply (checkpoint_keys (Some r) ts)].
    simpl. rewrite !JsFacts.obj_get_cons, JsFacts.obj_get_nil.
    fold k_revisionId. destruct (key_eqb k_revisionId k); [done|].
    by destruct (key_eqb (u "lastSyncTs") k).
  - rewrite obj_get_filter_out. destruct (key_eqb k_revisionId k); [done|].
    rewrite JsFacts.spread2_get; [|done|apply (checkpoint_keys None ts)].
    simpl. rewrite !JsFacts.obj_get_cons, JsFacts.obj_get_nil.
    by destruct (key_eqb (u "lastSyncTs") k).
Qed.

(** The checkpoint leaves the other properties of a record as they are. *)
Lemma checkpoint_keeps rec rev ts k :
  NoDup rec.*1 -> k <> k_revisionId -> k <> u "lastSyncTs" ->
  obj_get (pulled_record rec rev ts) k = obj_get rec k.
Proof.
  intros Hnd H1 H2. rewrite pulled_record_get by done.
  rewrite !JsFacts.key_eqb_ne; [reflexivity|congruence..].
Qed.

(** The checkpoint of a pull on a note that has a record. *)
Lemma save_checkpoint_pulled f noteId rec rev ts :
  Mapping.getBinding noteId f = Ok (VObj rec) ->
  exists map',
    save_checkpoint noteId rev ts f = Ok (VObj (pulled_record rec rev ts), Some map')
    /\ Mapping.getBinding noteId (write_json map') = Ok (VObj (pulled_record rec rev ts))
    /\ (get_prop (VObj (pulled_record rec rev ts)) Mapping.k_fileId
        = get_prop (VObj rec) Mapping.k_fileId ->
        forall fid, Mapping.findNoteIdByFileId fid (write_json map')
                    = Mapping.findNoteIdByFileId fid f).
Proof.
  intros Hb. unfold save_checkpoint, pulled_record. destruct rev as [r|].
  - apply (updateSyncCheckpoint_bound f noteId rec Hb).
  - apply (updateSyncCheckpoint_undefined_bound f noteId rec Hb).
Qed.

(** The notes of the store, when they form an object. *)
Definition note_entries (f : file) : obj :=
  match get_prop (Mapping.loadMapping f) Mapping.k_notes with
  | Ok (Some (VObj ns)) => ns
  | _ => []
  end.

Definition record_ok (p : jstr * value) : Prop :=
  match p.2 with
  | VObj rec => NoDup rec.*1
  | _ => True
  end.

(** The records of the store have no two properties of the same name. *)
Definition records_ok (f : file) : Prop := Forall record_ok (note_entries f).

Lemma obj_get_In (o : obj) k v : obj_get o k = Some v -> In (k, v) o.
Proof.
  induction o as [|[k' v'] o IH]; [discriminate|].
  rewrite JsFacts.obj_get_cons. destruct (key_eqb k' k) eqn:E.
  - intros H; inversion H; subst. apply JsFacts.key_eqb_eq in E; subst. by left.
  - intros H. right. by apply IH.
Qed.

Lemma records_ok_bound f noteId rec :
  records_ok f -> Mapping.getBinding noteId f = Ok (VObj rec) -> NoDup rec.*1.
Proof.
  intros Hok Hb.
  destruct (bound_note_loaded _ _ _ Hb) as (o & ns & nb & Hload & Hn & _ & _ & Hrec).
  unfold records_ok, note_entries in Hok. rewrite Hload in Hok. simpl in Hok.
  rewrite JsFacts.member_plain in Hok by reflexivity.
  rewrite Hn in Hok. rewrite Forall_forall in Hok.
  apply (Hok (noteId, VObj rec)). apply list_elem_of_In. by apply obj_get_In.
Qed.

(** A pull leaves the store such that the same pull is decided again. *)
Lemma pull_decision_stable env fid f noteId meta tab ts :
  records_ok f ->
  pull_decision env fid f = Some (noteId, meta, tab) ->
  exists map',
    save_checkpoint noteId (revisionId meta) ts f
    = Ok (VObj (pulled_record
                  (default [] (match Mapping.getBinding noteId f with
                               | Ok (VObj rec) => Some rec
                               | _ => None
                               end))
                  (revisionId meta) ts), Some map')
    /\ pull_decision env fid (write_json map') = Some (noteId, meta, tab).
Proof.
  intros Hok Hdec. apply pull_decision_some in Hdec.
  destruct Hdec as (rec & t & Hne & Hfind & Hb & Ht & Tt & Hdoc & Htab).
  pose proof (records_ok_bound _ _ _ Hok Hb) as Hnd.
  destruct (save_checkpoint_pulled f noteId rec (revisionId meta) ts Hb)
    as (map' & Hupd & Hb' & Hfind').
  exists map'. rewrite Hb. simpl. split; [exact Hupd|].
  apply pull_decision_some.
  exists (pulled_record rec (revisionId meta) ts), t.
  repeat split; try done.
  - rewrite Hfind'; [done|]. simpl. JsFacts.fields. f_equal.
    apply checkpoint_keeps; [done| |]; by vm_compute.
  - rewrite checkpoint_keeps; [done|done| |]; by vm_compute.
Qed.

Definition keeps_shadow {A} (m : M A) : Prop := forall w, shadow (m w).2 = shadow w.

Lemma keeps_shadow_bind {A B} (m : M A) (k : A -> M B) :
  keeps_shadow m -> (forall a, keeps_shadow (k a)) -> keeps_shadow (bind m k).
Proof.
  intros Hm Hk w. rewrite bind_run. specialize (Hm w).
  destruct (m w) as [[a|e|] w']; simpl in *; try done. by rewrite Hk.
Qed.

Lemma keeps_shadow_write_mapping op : keeps_shadow (write_mapping op).
Proof.
  intros w. rewrite write_mapping_run. by destruct (op (mappingFile w)) as [[v [d|]]|e].
Qed.

(** A removal does not touch the shadow files. *)
Lemma removed_keeps_shadow env cfg ch :
  c_removed ch = true -> keeps_shadow (process_change env cfg ch).
Proof.
  intros Hrem. unfold process_change. rewrite Hrem.
  apply keeps_shadow_bind.
  { intros w. rewrite read_mapping_run. by destruct (Mapping.findNoteIdByFileId _ _). }
  intros [[|c n]|]; try done.
  apply keeps_shadow_bind; [apply keeps_shadow_write_mapping|]. done.
Qed.

(** Handling a change once more leaves the shadow files as the first
    handling left them. *)
Lemma reprocess_shadow env cfg ch w :
  records_ok (mappingFile w) ->
  let w1 := (process_change env cfg ch w).2 in
  shadow (process_change env cfg ch w1).2 = shadow w1.
Proof.
  intros Hok. cbv zeta. destruct (c_removed ch) eqn:Hrem.
  { by apply removed_keeps_shadow. }
  pose proof (pull_files env cfg ch w Hrem) as H1. cbv zeta in H1.
  remember (process_change env cfg ch w).2 as w1 eqn:Ew1.
  pose proof (pull_files env cfg ch w1 Hrem) as H2. cbv zeta in H2.
  destruct (pull_decision env (c_fileId ch) (mappingFile w)) as [[[noteId meta] tab]|] eqn:D.
  - destruct H1 as (Hs1 & _ & Hm1).
    destruct (pull_decision_stable env _ _ _ _ _ (now env (clock w)) Hok D)
      as (map' & Hupd & D').
    rewrite Hupd in Hm1. simpl in Hm1. rewrite Hm1, D' in H2.
    destruct H2 as (Hs2 & _). rewrite Hs2, Hs1. apply insert_insert_eq.
  - destruct H1 as (Hs1 & Hm1). rewrite Hm1, D in H2. by destruct H2.
Qed.


(** ** A tick comes to its end *)

Definition finishes {A} (m : M A) : Prop := forall w, (m w).1 <> Running.

Lemma finishes_bind {A B} (m : M A) (k : A -> M B) :
  finishes m -> (forall a, finishes (k a)) -> finishes (bind m k).
Proof.
  intros Hm Hk w. rewrite bind_run. specialize (Hm w).
  destruct (m w) as [[a|e|] w']; simpl in *; try done. apply Hk.
Qed.

Lemma finishes_lift {A} (r : result A) : finishes (lift r).
Proof. intros w. by destruct r. Qed.

Lemma finishes_write_mapping op : finishes (write_mapping op).
Proof.
  intros w. rewrite write_mapping_run. by destruct (op (mappingFile w)) as [[v [d|]]|e].
Qed.

Lemma finishes_process_change env cfg ch : finishes (process_change env cfg ch).
Proof.
  unfold process_change.
  apply finishes_bind; [intros w; apply finishes_lift|]. intros [[|c n]|]; try done.
  destruct (c_removed ch).
  - apply finishes_bind; [apply finishes_write_mapping|]. done.
  - apply finishes_bind; [intros w; apply finishes_lift|]. intros binding.
    destruct (negb (truthy binding)); [done|].
    apply finishes_bind; [apply finishes_lift|]. intros tabId.
    destruct (negb (truthy_opt tabId)); [done|].
    apply finishes_bind; [done|]. intros _.
    apply finishes_bind; [apply finishes_lift|]. intros meta.
    destruct (findTab tabId (tabs meta)) as [tab|]; [|done].
    apply finishes_bind; [done|]. intros _.
    apply finishes_bind; [done|]. intros ts.
    apply finishes_bind; [apply finishes_write_mapping|]. done.
Qed.

Lemma finishes_for_each {A} (f : A -> M unit) l :
  (forall x, finishes (f x)) -> finishes (for_each f l).
Proof.
  intros Hf. induction l as [|x l IH]; simpl; [done|].
  apply finishes_bind; [apply Hf | intros _; apply IH].
Qed.

(** From the token [tok] on, the feed has [n] pages to give before a page
    without continuation, or before a call that fails. *)
Inductive pages_left (env : Env) : value -> nat -> Prop :=
  | last_page tok page :
      changes_list env tok = Ok page -> continuation page = None ->
      pages_left env tok 1
  | failed_page tok e :
      changes_list env tok = Throw e -> pages_left env tok 1
  | more_pages tok page t n :
      changes_list env tok = Ok page -> continuation page = Some t ->
      pages_left env (VStr t) n -> pages_left env tok (S n).

(** With as many iterations as the feed has pages, the tick comes to its
    end. *)
Lemma page_loop_finishes env cfg tok n :
  pages_left env tok n ->
  forall fuel, (n <= fuel)%nat -> finishes (page_loop fuel env cfg tok).
Proof.
  induction 1 as [tok page Hpage Hc|tok e Hpage|tok page t n Hpage Hc _ IH];
    intros [|fuel] Hf w; try lia; simpl;
    rewrite bind_run; cbn [emit]; rewrite bind_run, lift_run, Hpage; try done;
    rewrite bind_run;
    pose proof (finishes_for_each (process_change env cfg) (changes page)
                  (finishes_process_change env cfg)) as Hfor;
    match goal with |- context [for_each ?f ?l ?w0] => specialize (Hfor w0) end;
    destruct (for_each _ _ _) as [[[]|e|] w']; simpl in *; try done;
    unfold continuation in Hc.
  - by destruct (nextPageToken page) as [[|c t]|].
  - destruct (nextPageToken page) as [[|c t']|]; try discriminate.
    inversion Hc; subst. apply IH. lia.
Qed.

(** So does the tick as a whole. *)
Lemma tick_finishes fuel env cfg w tok n :
  stored_cursor (stateFile w) = Ok (Some tok) ->
  pages_left env tok n -> (n <= fuel)%nat ->
  (processOnce fuel env cfg w).1 <> Running.
Proof.
  intros Hcur Hp Hf. rewrite processOnce_unfold, Hcur.
  by apply (page_loop_finishes env cfg tok n).
Qed.

(** C8. Within a tick nothing but the last step writes the checkpoint: a tick
    that comes to its end with a cursor has written it once, as its last
    step, after a page that has no continuation token; a tick that stops
    before, on an exception or while pages remain, leaves the checkpoint file
    as it was before the tick. And handling a change a second time leaves the
    shadow files as the first handling left them. *)
Theorem cursor_saved_at_last_page fuel env cfg w ch :
  records_ok (mappingFile w) ->
  let r := processOnce fuel env cfg w in
  let w1 := (process_change env cfg ch w).2 in
  (exists new, trace r.2 = trace w ++ new /\
     match r.1 with
     | Done _ =>
         (stored_cursor (stateFile w) = Ok None /\ r.2 = w)
         \/ exists mid last page,
              new = mid ++ [ESaveState (cursor_file (newToken page last))]
              /\ Forall not_saving mid
              /\ stateFile r.2 = write_json (cursor_file (newToken page last))
              /\ changes_list env last = Ok page /\ continuation page = None
              /\ In (EChangesList last) mid
     | _ => Forall not_saving new /\ stateFile r.2 = stateFile w
     end)
  /\ shadow (process_change env cfg ch w1).2 = shadow w1.
Proof.
  intros Hok r w1. split; [apply tick_cursor | by apply reprocess_shadow].
Qed.



End PollerFacts.

Module PollerExamples.
Import Js Docs Poller PollerFacts.

Definition n1 : jstr := u "n1".
Definition F : jstr := u "F".

Definition a_record : obj := [(Mapping.k_fileId, VStr F); (k_tabId, VStr (u "T"))].

Definition a_store : file :=
  write_json (VObj [(Mapping.k_notes, VObj [(n1, VObj a_record)]);
                    (Mapping.k_notebooks, VObj [])]).

Definition a_paragraph (s : jstr) (st : option jstr) : StructuralElement :=
  mkStructural
    (Some (mkParagraph (Some [mkElement (Some (mkTextRun (Some (s ++ nl)) None))]) st))
    None.

Definition the_tab : Tab :=
  mkTab (Some (u "T"))
    (Some (mkBody (Some [a_paragraph (u "Title") (Some (u "TITLE"));
                         a_paragraph (u "hello") None]))) [].

Definition a_document : Document := mkDocument (Some (u "R2")) [the_tab].

Definition a_clock (n : nat) : jstr := u "2025-01-01T00:00:00.000Z".

(** A feed that answers every token with the same page. *)
Definition feed (changes : list Change) (newStart : jstr) : Env :=
  mkEnv (Ok (Some (u "C0"))) (fun _ => Ok (mkPage changes None (Some newStart)))
    (fun _ => Ok a_document) a_clock.

Definition env_edited : Env := feed [mkChange (Some F) false] (u "C2").

Definition cfg0 : Config := mkConfig None None None.

(** The note is bound and the cursor [C0] is stored. *)
Definition world0 : World := start a_store (write_json (cursor_file (VStr (u "C0")))).

Definition about_pulls (e : effect) : bool :=
  match e with
  | ELog (AccessLost _) | ELog (Pulled _) | EDocumentsGet _ | EWriteShadow _ _ => true
  | _ => false
  end.



(** No cursor is stored yet. *)
Definition fresh : World := start a_store Missing.

(** [first_run_only_initialises] applies to a run without a checkpoint
    file. *)
Lemma first_run_only_initialises_witness :
  let w0 := initialised (Some (u "C0")) fresh in
  main 3 false cfg0 env_edited [env_edited] fresh = (Done tt, w0)
  /\ stateFile w0 = write_json (cursor_file (VStr (u "C0")))
  /\ mappingFile w0 = mappingFile fresh /\ shadow w0 = shadow fresh
  /\ trace w0 = trace fresh ++ [EGetStartPageToken; ESaveState (cursor_file (VStr (u "C0")));
                                ELog (Initialized (Some (u "C0")))]
  /\ main 3 true cfg0 env_edited [env_edited] fresh = watch_loop 3 cfg0 [env_edited] w0
  /\ forall S : value -> Prop,
       S (VStr (u "C0")) -> Forall (closed S) [env_edited] ->
       exists later, trace (watch_loop 3 cfg0 [env_edited] w0).2 = trace w0 ++ later
                     /\ Forall (asked_in S) later.
Proof.
  apply (first_run_only_initialises 3 cfg0 env_edited [env_edited] fresh (u "C0")).
  - reflexivity.
  - reflexivity.
Defined.

(** The poll scenario: after the first run, the tick that sees a change for
    the bound file overwrites one shadow file and updates one binding. *)
Example poll_scenario :
  let w0 := (main 3 false cfg0 env_edited [] fresh).2 in
  let w1 := (processOnce 3 env_edited cfg0 w0).2 in
  stored_cursor (stateFile w0) = Ok (Some (VStr (u "C0")))
  /\ shadow w0 = ∅
  /\ List.filter about_pulls (trace w1)
     = [EDocumentsGet (Some F);
        EWriteShadow (shadow_name n1) (u "# Title" ++ nl ++ u "hello"); ELog (Pulled n1)]
  /\ stored_cursor (stateFile w1) = Ok (Some (VStr (u "C2"))).
Proof. repeat split; vm_compute; reflexivity. Qed.

(** [cursor_saved_at_last_page] applies to a tick of the bound note. *)
Lemma cursor_saved_at_last_page_witness :
  let ch := mkChange (Some F) false in
  let r := processOnce 3 env_edited cfg0 world0 in
  let w1 := (process_change env_edited cfg0 ch world0).2 in
  (exists new, trace r.2 = trace world0 ++ new /\
     match r.1 with
     | Done _ =>
         (stored_cursor (stateFile world0) = Ok None /\ r.2 = world0)
         \/ exists mid last page,
              new = mid ++ [ESaveState (cursor_file (newToken page last))]
              /\ Forall not_saving mid
              /\ stateFile r.2 = write_json (cursor_file (newToken page last))
              /\ changes_list env_edited last = Ok page /\ continuation page = None
              /\ In (EChangesList last) mid
     | _ => Forall not_saving new /\ stateFile r.2 = stateFile world0
     end)
  /\ shadow (process_change env_edited cfg0 ch w1).2 = shadow w1.
Proof.
  apply (cursor_saved_at_last_page 3 env_edited cfg0 world0 (mkChange (Some F) false)).
  unfold records_ok.
  change (note_entries (mappingFile world0)) with [(n1, VObj a_record)].
  constructor; [|constructor].
  apply (bool_decide_unpack (NoDup a_record.*1)). vm_compute. exact I.
Defined.

End PollerExamples.

(** ** More on the poller *)

Module PollerMore.
Import Js JsFacts Docs Poller PollerFacts.

(** The change concerns a file that no note is bound to. *)
Definition unbound (f : file) (ch : Change) : bool :=
  match Mapping.findNoteIdByFileId (c_fileId ch) f with
  | Ok None | Ok (Some []) => true
  | _ => false
  end.

Lemma process_change_unbound env cfg ch w :
  unbound (mappingFile w) ch = true -> process_change env cfg ch w = (Done tt, w).
Proof.
  unfold unbound, process_change. intros H. rewrite bind_run, read_mapping_run.
  by destruct (Mapping.findNoteIdByFileId (c_fileId ch) (mappingFile w)) as [[[|c n]|]|e].
Qed.

Lemma for_each_unbound env cfg chs w :
  forallb (unbound (mappingFile w)) chs = true ->
  for_each (process_change env cfg) chs w = (Done tt, w).
Proof.
  induction chs as [|ch chs IH]; [reflexivity|]. simpl. intros H.
  apply andb_true_iff in H as [H1 H2].
  by rewrite bind_run, process_change_unbound, IH.
Qed.

Lemma stored_cursor_truthy f tok : stored_cursor f = Ok (Some tok) -> truthy tok = true.
Proof.
  unfold stored_cursor. destruct (get_prop (load_state_file f) k_pageToken) as [[v|]|e];
    simpl; try discriminate.
  destruct (truthy v) eqn:T; [|discriminate]. intros H. by inversion H; subst.
Qed.

(** X21. A run that is not the first one asks for no start token; when the
    page it gets is the last one and its changes concern no bound file, the run
    asks for that page, saves the cursor of the page, and touches neither the
    store nor the shadow files. *)
Theorem idle_run_moves_the_cursor fuel cfg env ticks w tok page :
  stored_cursor (stateFile w) = Ok (Some tok) ->
  changes_list env tok = Ok page ->
  continuation page = None ->
  forallb (unbound (mappingFile w)) (changes page) = true ->
  main (S fuel) false cfg env ticks w
  = (Done tt,
     mkWorld (mappingFile w) (write_json (cursor_file (newToken page tok))) (shadow w)
       (clock w)
       (trace w ++ [EChangesList tok; ESaveState (cursor_file (newToken page tok))])).
Proof.
  intros Hc Hp Hlast Hun. unfold main.
  rewrite bind_run, initIfNeeded_unfold, Hc.
  pose proof (stored_cursor_truthy _ _ Hc) as T.
  assert (Hmain : (match tok with
                   | VNull => ret tt
                   | _ => processOnce (S fuel) env cfg
                   end) w = processOnce (S fuel) env cfg w)
    by (by destruct tok).
  rewrite Hmain, processOnce_unfold, Hc. simpl page_loop.
  rewrite bind_run. cbn [emit]. rewrite bind_run, lift_run, Hp, bind_run.
  rewrite for_each_unbound by exact Hun.
  unfold continuation in Hlast. unfold newToken, cursor_file.
  destruct (nextPageToken page) as [[|c t]|]; try discriminate;
    unfold saveState; cbn [mappingFile stateFile shadow clock trace];
    by rewrite <- app_assoc.
Qed.

(** X22. A tick of the watch loop in which the changes cannot be listed is
    logged and nothing else: store, cursor and shadow files are as before, and
    the loop goes on with the next tick. *)
Theorem failed_tick_is_logged fuel cfg env rest w tok e :
  stored_cursor (stateFile w) = Ok (Some tok) ->
  changes_list env tok = Throw e ->
  watch_loop (S fuel) cfg (env :: rest) w
  = watch_loop (S fuel) cfg rest
      (mkWorld (mappingFile w) (stateFile w) (shadow w) (clock w)
         (trace w ++ [EChangesList tok; ELog (PollError e)])).
Proof.
  intros Hc Hp. simpl watch_loop. rewrite bind_run. unfold guarded.
  rewrite processOnce_unfold, Hc. simpl page_loop.
  rewrite bind_run. cbn [emit]. rewrite bind_run, lift_run, Hp.
  cbn [emit mappingFile stateFile shadow clock trace]. by rewrite <- app_assoc.
Qed.


(** X24. No error ends the watch loop: whatever happens in the ticks observed,
    the loop has neither returned nor thrown after them. *)
Theorem watch_loop_never_ends fuel cfg ticks w :
  (watch_loop fuel cfg ticks w).1 = Running.
Proof.
  revert w. induction ticks as [|env rest IH]; intros w; [reflexivity|].
  simpl watch_loop. rewrite bind_run.
  destruct (guarded (processOnce fuel env cfg) w) as [[a|e|] w'] eqn:E.
  - apply IH.
  - unfold guarded in E.
    destruct (processOnce fuel env cfg w) as [[a|e'|] w'']; try discriminate.
  - reflexivity.
Qed.

End PollerMore.

Module PollerMoreExamples.
Import Js Docs Poller PollerFacts PollerMore PollerExamples.

(** A change for a file that no note is bound to. *)
Definition env_other : Env := feed [mkChange (Some (u "G")) false] (u "C1").

(** The changes cannot be listed. *)
Definition env_down : Env :=
  mkEnv (Ok (Some (u "C0"))) (fun _ => Throw (ApiError Unavailable))
    (fun _ => Ok a_document) a_clock.

(** [idle_run_moves_the_cursor] applies to a page with one change, for a file
    that no note is bound to. *)
Lemma idle_run_moves_the_cursor_witness :
  main 1 false cfg0 env_other [] world0
  = (Done tt,
     mkWorld a_store (write_json (cursor_file (VStr (u "C1")))) ∅ 0
       [EChangesList (VStr (u "C0")); ESaveState (cursor_file (VStr (u "C1")))]).
Proof.
  apply (idle_run_moves_the_cursor 0 cfg0 env_other [] world0 (VStr (u "C0"))
           (mkPage [mkChange (Some (u "G")) false] None (Some (u "C1"))));
    reflexivity.
Defined.

(** [failed_tick_is_logged] applies to a tick in which the changes cannot be
    listed, followed by another one. *)
Lemma failed_tick_is_logged_witness :
  watch_loop 1 cfg0 [env_down; env_other] world0
  = watch_loop 1 cfg0 [env_other]
      (mkWorld a_store (stateFile world0) ∅ 0
         [EChangesList (VStr (u "C0")); ELog (PollError (ApiError Unavailable))]).
Proof.
  apply (failed_tick_is_logged 0 cfg0 env_down [env_other] world0 (VStr (u "C0"))
           (ApiError Unavailable)); reflexivity.
Defined.


(** A record that holds a revision, and a document that has none. *)
Definition a_synced_record : obj :=
  [(Mapping.k_fileId, VStr F); (k_tabId, VStr (u "T"));
   (u "lastKnownRevisionId", VStr (u "R1"))].

Definition a_synced_store : file :=
  write_json (VObj [(Mapping.k_notes, VObj [(n1, VObj a_synced_record)]);
                    (Mapping.k_notebooks, VObj [])]).

Definition env_no_revision : Env :=
  mkEnv (Ok (Some (u "C0"))) (fun _ => Ok (mkPage [mkChange (Some F) false] None None))
    (fun _ => Ok (mkDocument None [the_tab])) a_clock.

(** The pull of a document without a revision takes the revision out of the
    record. *)
Lemma pull_without_revision_forgets_it :
  Mapping.getBinding n1
    (mappingFile (process_change env_no_revision cfg0 (mkChange (Some F) false)
                    (start a_synced_store Missing)).2)
  = Ok (VObj [(Mapping.k_fileId, VStr F); (k_tabId, VStr (u "T"));
              (u "lastSyncTs", VStr (a_clock 0))]).
Proof. vm_compute. reflexivity. Qed.

End PollerMoreExamples.

(** ** From a tab to Markdown and back *)

Module RoundTrip.
Import Js Docs Poller.

(** A character of a line that both directions leave alone. *)
Definition plain_char (c : N) : bool := CleanText.clean c && negb (c =? 10)%N.

(** A paragraph as the Docs API returns it for a line of unstyled text: one
    run, closed by the line feed. *)
Definition plain_paragraph (l : jstr) : StructuralElement :=
  mkStructural
    (Some (mkParagraph (Some [mkElement (Some (mkTextRun (Some (l ++ nl)) None))]) None))
    None.

Definition plain_tab (id : option jstr) (lines : list jstr) : Tab :=
  mkTab id (Some (mkBody (Some (map plain_paragraph lines)))) [].

Lemma span_none (p : N -> bool) s :
  Forall (fun c => p c = false) s -> MdToDocs.span p s = ([], s).
Proof. destruct 1 as [|c s Hc Hs]; [reflexivity|]. simpl. by rewrite Hc. Qed.

Lemma split_trailing_nl_line l :
  Forall (fun c => c <> 10%N) l -> split_trailing_nl (l ++ nl) = (l, nl).
Proof.
  intros H. unfold split_trailing_nl. rewrite rev_app_distr. simpl.
  rewrite span_none.
  - by rewrite rev_involutive.
  - apply Forall_rev. eapply Forall_impl; [exact H|]. intros c Hc. by apply N.eqb_neq.
Qed.

Lemma or_else_line l : or_else (Some (l ++ nl)) [] = l ++ nl.
Proof. by destruct l. Qed.

Lemma runToMarkdown_plain cfg l :
  Forall (fun c => c <> 10%N) l ->
  runToMarkdown cfg (mkRun (l ++ nl) false false) = l ++ nl.
Proof.
  intros H. unfold runToMarkdown. cbn [text bold italic].
  rewrite (split_trailing_nl_line l H). by destruct l.
Qed.

Lemma extractParagraphs_plain id lines :
  extractParagraphs (plain_tab id lines)
  = map (fun l => mkPara [mkRun (l ++ nl) false false] (u "NORMAL_TEXT")) lines.
Proof.
  unfold extractParagraphs, plain_tab. cbn [body content].
  induction lines as [|l lines IH]; [reflexivity|].
  simpl. f_equal; [by destruct l | exact IH].
Qed.

Lemma find_index_plain i lines :
  find_index (fun p => jstr_eqb (style p) (u "TITLE")) i
    (map (fun l => mkPara [mkRun (l ++ nl) false false] (u "NORMAL_TEXT")) lines) = None.
Proof. revert i; induction lines as [|l lines IH]; intros i; [reflexivity|]. apply IH. Qed.

Lemma content_lines_plain cfg i used lines :
  Forall (Forall (fun c => c <> 10%N)) lines ->
  content_lines cfg None i used
    (map (fun l => mkPara [mkRun (l ++ nl) false false] (u "NORMAL_TEXT")) lines) = lines.
Proof.
  intros H. revert i. induction H as [|l lines Hl Hls IH]; intros i; [reflexivity|].
  cbn [map content_lines]. cbn [runs style].
  replace (jstr_eqb (u "NORMAL_TEXT") (u "SUBTITLE")) with false by reflexivity.
  rewrite andb_false_r. unfold runsToMarkdown. cbn [map concat].
  rewrite (runToMarkdown_plain cfg l Hl), app_nil_r, (split_trailing_nl_line l Hl).
  destruct (bool_decide (None = Some i)) eqn:E; [by apply bool_decide_eq_true in E|].
  simpl. by rewrite IH.
Qed.

Lemma tabToMarkdown_plain cfg id lines :
  Forall (Forall (fun c => c <> 10%N)) lines ->
  tabToMarkdown cfg (plain_tab id lines) = join_nl lines.
Proof.
  intros H. unfold tabToMarkdown. rewrite extractParagraphs_plain, find_index_plain.
  cbn zeta. simpl app. by rewrite content_lines_plain.
Qed.

Lemma getTabText_plain id lines :
  getTabText (plain_tab id lines) = BufferFacts.buffer_of lines.
Proof.
  unfold getTabText, plain_tab, BufferFacts.buffer_of. cbn [body content].
  rewrite map_map. f_equal. apply map_ext. intros l.
  unfold paragraph_text, plain_paragraph, element_text. simpl.
  rewrite app_nil_r. by destruct l.
Qed.

Lemma join_nl_buffer lines : lines <> [] -> join_nl lines ++ nl = BufferFacts.buffer_of lines.
Proof.
  induction lines as [|l lines IH]; [done|]. intros _.
  destruct lines as [|l2 lines]; [unfold BufferFacts.buffer_of; simpl; by rewrite app_nil_r|].
  change (join_nl (l :: l2 :: lines)) with (l ++ nl ++ join_nl (l2 :: lines)).
  rewrite <- !app_assoc, IH by done.
  unfold BufferFacts.buffer_of. simpl. by rewrite <- !app_assoc.
Qed.

Lemma join_nl_Forall (P : N -> Prop) lines :
  P 10%N -> Forall (Forall P) lines -> Forall P (join_nl lines).
Proof.
  intros H10. induction 1 as [|l lines Hl Hls IH]; [constructor|].
  destruct lines as [|l2 lines]; [exact Hl|].
  change (join_nl (l :: l2 :: lines)) with (l ++ nl ++ join_nl (l2 :: lines)).
  rewrite !Forall_app. split; [exact Hl|]. split; [by repeat constructor | exact IH].
Qed.

(** X25. The Markdown that the poller writes for a tab of unstyled paragraphs
    whose text holds no marker is the lines joined by line feeds, and the
    converter makes of it, whatever the two configurations, the very text of
    the tab, with no text range. *)
Theorem plain_tab_round_trip pcfg cfg id lines :
  lines <> [] ->
  forallb (forallb plain_char) lines = true ->
  tabToMarkdown pcfg (plain_tab id lines) = join_nl lines
  /\ exists ps,
       MdToDocs.mdToDocs cfg (tabToMarkdown pcfg (plain_tab id lines))
       = Some (MdToDocs.mkOutput (getTabText (plain_tab id lines)) ps []).
Proof.
  intros Hne H.
  assert (Hall : Forall (Forall (fun c => CleanText.clean c = true /\ c <> 10%N)) lines).
  { apply FencedBlocks.forallb_Forall in H. eapply Forall_impl; [exact H|].
    intros l Hl. apply FencedBlocks.forallb_Forall in Hl.
    eapply Forall_impl; [exact Hl|]. intros c Hc. unfold plain_char in Hc.
    apply andb_true_iff in Hc as [H1 H2]. split; [done|].
    by apply negb_true_iff, N.eqb_neq in H2. }
  assert (Hnl : Forall (Forall (fun c => c <> 10%N)) lines).
  { eapply Forall_impl; [exact Hall|]. intros l Hl.
    eapply Forall_impl; [exact Hl|]. simpl. tauto. }
  rewrite (tabToMarkdown_plain pcfg id lines Hnl). split; [reflexivity|].
  eexists. rewrite CleanText.clean_text_converted.
  - by rewrite getTabText_plain, join_nl_buffer.
  - apply join_nl_Forall; [by repeat split|]. eapply Forall_impl; [exact Hall|].
    intros l Hl. eapply Forall_impl; [exact Hl|]. intros c [Hc _].
    by apply CleanText.clean_spec.
Qed.

(** [plain_tab_round_trip] applies to a tab of three paragraphs, the second
    one empty. *)
Lemma plain_tab_round_trip_witness :
  tabToMarkdown PollerExamples.cfg0 (plain_tab (Some (u "T")) [u "one"; []; u "two words"])
  = u "one" ++ nl ++ nl ++ u "two words"
  /\ exists ps,
       MdToDocs.mdToDocs MdToDocs.fallback_config
         (tabToMarkdown PollerExamples.cfg0
            (plain_tab (Some (u "T")) [u "one"; []; u "two words"]))
       = Some (MdToDocs.mkOutput
                 (getTabText (plain_tab (Some (u "T")) [u "one"; []; u "two words"]))
                 ps []).
Proof.
  apply (plain_tab_round_trip PollerExamples.cfg0 MdToDocs.fallback_config
           (Some (u "T")) [u "one"; []; u "two words"]).
  - discriminate.
  - reflexivity.
Defined.

End RoundTrip.

(** ** The text-only poller and the push script together *)

Module PullThenPush.
Import Js JsFacts Docs Poller PollerFacts.




End PullThenPush.

(** ** Appending to a tab *)

Module AppendFacts.
Import Js Docs PullPush AppendToTabEnd.

(** X27. [appendToTabEnd] submits its insertion without a write control: the
    index, never below 1, comes from the document as it was read, and the
    service accepts the batch whatever the other writers did to the document
    in between. *)
Theorem append_is_unguarded applied (documentId tabId : jstr) (rest : list jstr)
    (env : Env) meta cur :
  documentId <> [] -> tabId <> [] -> rest <> [] ->
  e_fault env = None ->
  e_remote env !! documentId = Some meta ->
  e_concurrent env (e_remote env) !! documentId = Some cur ->
  let index := Z.max 1 (StyleRequests.top_endIndex tabId meta - 1) in
  let requests := [InsertText (Some (VStr tabId)) index (join_space rest)] in
  (1 <= index)%Z
  /\ appendToTabEnd applied documentId tabId rest env
     = mkOutcome (Exit 0) [Appended (StyleRequests.top_endIndex tabId meta)]
         [CallGet (Some (VStr documentId));
          CallBatchUpdate (Some (VStr documentId)) requests None]
         (<[documentId := applied requests cur]> (e_concurrent env (e_remote env))).
Proof.
  intros H1 H2 H3 Hf Hm Hc index requests. split; [unfold index; lia|].
  unfold appendToTabEnd.
  destruct documentId as [|c1 s1]; [done|]. destruct tabId as [|c2 s2]; [done|].
  destruct rest as [|a rest]; [done|].
  cbv zeta. unfold documents_get, batchUpdate. by rewrite Hm, Hf, Hc.
Qed.

(** [append_is_unguarded] applies to a run during which another writer
    replaces the document. *)
Lemma append_is_unguarded_witness :
  let index := Z.max 1 (StyleRequests.top_endIndex (u "X")
                          (PushExamples.a_document (u "R1") (u "old" ++ nl)) - 1) in
  let requests := [InsertText (Some (VStr (u "X"))) index (join_space [u "a"; u "b"])] in
  (1 <= index)%Z
  /\ appendToTabEnd PushExamples.bump (u "F") (u "X") [u "a"; u "b"]
       PushExamples.env_conflict
     = mkOutcome (Exit 0)
         [Appended (StyleRequests.top_endIndex (u "X")
                      (PushExamples.a_document (u "R1") (u "old" ++ nl)))]
         [CallGet (Some (VStr (u "F")));
          CallBatchUpdate (Some (VStr (u "F"))) requests None]
         (<[u "F" := PushExamples.bump requests
                       (PushExamples.a_document (u "R2") (u "theirs" ++ nl))]>
            (e_concurrent PushExamples.env_conflict (e_remote PushExamples.env_conflict))).
Proof.
  apply (append_is_unguarded PushExamples.bump (u "F") (u "X") [u "a"; u "b"]
           PushExamples.env_conflict (PushExamples.a_document (u "R1") (u "old" ++ nl))
           (PushExamples.a_document (u "R2") (u "theirs" ++ nl))).
  - discriminate.
  - discriminate.
  - discriminate.
  - reflexivity.
  - reflexivity.
  - reflexivity.
Defined.

End AppendFacts.
